(** * travel_assistant.py: a shallow embedding and its verification

    The program is a LangGraph workflow: a main graph (weather lookup,
    persona generation, human feedback, fan-out of one dialogue per
    traveler, plan writing) and a dialogue sub-graph (a bounded
    question/answer loop).  The functions of [travel_assistant.py] are
    translated one by one.  What the program does not define itself is kept
    as a parameter:

    - the numbers of a JSON reply (Python floats) in the class [Num], with
      their comparison and [round] in the class [Number];
    - the external collaborators (HTTP services, the language model, the
      search tools), the prompt templates and the iteration order of a
      Python [set], in the class [Env].  A collaborator call takes the
      current [world] and returns a result or a raised exception together
      with the next world, so two calls with equal arguments may answer
      differently.

    Console output ([print]) is not modelled. *)

From Stdlib Require Import ZArith QArith Ascii String OrderedTypeEx.
From stdpp Require Import gmap strings list sorting.

Local Open Scope string_scope.
Local Open Scope Z_scope.

(** ** Python exceptions and results *)

Inductive exn : Type :=
| KeyError (key : string)
| IndexError (msg : string)
| ValueError (msg : string)
| TypeError (msg : string)
| GraphRecursionError (msg : string)
| InvalidUpdateError (msg : string)
| CollaboratorError (msg : string).

(** [str(e)]: a [KeyError] prints the [repr] of its key. *)
Definition exn_str (e : exn) : string :=
  match e with
  | KeyError k => "'" ++ k ++ "'"
  | IndexError m | ValueError m | TypeError m | GraphRecursionError m
  | InvalidUpdateError m | CollaboratorError m => m
  end.

Inductive result (A : Type) : Type :=
| Ok (a : A)
| Raise (e : exn).
Arguments Ok {A} a.
Arguments Raise {A} e.

Definition rbind {A B} (r : result A) (k : A → result B) : result B :=
  match r with
  | Ok a => k a
  | Raise e => Raise e
  end.

Notation "'let?' x := r 'in' k" := (rbind r (λ x, k))
  (at level 10, x pattern, r at level 100, k at level 200).

(** [d[key]] on a key that may be absent. *)
Definition index_key {A} (key : string) (o : option A) : result A :=
  match o with
  | Some a => Ok a
  | None => Raise (KeyError key)
  end.

Fixpoint rmapM {A B} (f : A → result B) (l : list A) : result (list B) :=
  match l with
  | [] => Ok []
  | x :: l' => let? y := f x in let? ys := rmapM f l' in Ok (y :: ys)
  end.

Fixpoint rfoldM {A B} (f : B → A → result B) (b : B) (l : list A) : result B :=
  match l with
  | [] => Ok b
  | x :: l' => let? b' := f b x in rfoldM f b' l'
  end.

(** ** Strings *)

Definition nl : string := String "010"%char EmptyString.
Definition dquote : string := String "034"%char EmptyString.

(** [needle in hay] on strings. *)
Fixpoint str_contains (needle hay : string) : bool :=
  String.prefix needle hay ||
  match hay with
  | EmptyString => false
  | String _ hay' => str_contains needle hay'
  end.

(** [sep.join(parts)]. *)
Definition str_join (sep : string) (parts : list string) : string :=
  String.concat sep parts.

(** [s.split(sep)] for a one-character separator. *)
Fixpoint str_split (sep : ascii) (s : string) : list string :=
  match s with
  | EmptyString => [EmptyString]
  | String c s' =>
      if Ascii.eqb c sep then EmptyString :: str_split sep s'
      else match str_split sep s' with
           | [] => [String c EmptyString]
           | p :: ps => String c p :: ps
           end
  end.

(** The order of Python strings, by code point. *)
Definition str_le (s1 s2 : string) : Prop := String.leb s1 s2 = true.
Definition str_lt (s1 s2 : string) : Prop := String.ltb s1 s2 = true.

#[global] Instance str_le_dec s1 s2 : Decision (str_le s1 s2).
Proof. unfold str_le. apply _. Defined.

(** ** Python sequences *)

(** [l[:n]]: a negative bound counts from the end. *)
Definition slice_to {A} (n : Z) (l : list A) : list A :=
  if 0 <=? n then take (Z.to_nat n) l
  else take (length l - Z.to_nat (- n))%nat l.

(** [l[-2]]. *)
Definition index_from_end_2 {A} (l : list A) : result A :=
  match rev l with
  | _ :: x :: _ => Ok x
  | _ => Raise (IndexError "list index out of range")
  end.

(** [max(l)] and [min(l)] keep the first extremal element: [max] replaces
    its candidate when the next element is [>] it, [min] when it is [<]. *)
Definition py_extremum {A} (replaces : A → A → bool) (what : string)
    (l : list A) : result A :=
  match l with
  | [] => Raise (ValueError (what ++ "() arg is an empty sequence"))
  | x :: l' => Ok (fold_left (λ cur y, if replaces y cur then y else cur) l' x)
  end.

(** [max(l, key=f)] with integer keys. *)
Definition py_max_key {A} (key : A → nat) (l : list A) : result A :=
  py_extremum (λ y cur, (key cur <? key y)%nat) "max" l.

(** [l.count(x)] on a list of strings. *)
Definition str_count (l : list string) (x : string) : nat :=
  length (filter (λ y, y = x) l).

(** ** Numbers of a JSON reply *)

Class Num : Type := num : Type.

Class Number `{Num} : Type := {
  (** [x < y] *)
  num_ltb : num → num → bool;
  (** [round(x, ndigits)] *)
  num_round : num → Z → num;
  (** the literal [0.0] *)
  num_zero : num;
  (** [float(s)]; raises [ValueError] on a malformed string *)
  float_of_str : string → result num;
}.

Definition py_max `{Number} (l : list num) : result num :=
  py_extremum (λ y cur, num_ltb cur y) "max" l.
Definition py_min `{Number} (l : list num) : result num :=
  py_extremum (λ y cur, num_ltb y cur) "min" l.

(** ** Data schemas *)

(** [class Traveler(BaseModel)] with its [persona] property. *)
Record Traveler : Type := {
  name : string;
  description : string;
}.

Definition persona (t : Traveler) : string :=
  "Name: " ++ name t ++ nl ++ "Description: " ++ description t ++ nl.

(** LangChain messages: the class ([HumanMessage], [AIMessage],
    [SystemMessage]), the optional [name] and the [content]. *)
Inductive message_class : Type := HumanMessage | AIMessage | SystemMessage.

#[global] Instance message_class_eq_dec : EqDecision message_class.
Proof. solve_decision. Defined.

Record Message : Type := {
  msg_class : message_class;
  msg_name : option string;
  content : string;
}.

Definition mkHuman (c : string) : Message :=
  {| msg_class := HumanMessage; msg_name := None; content := c |}.
Definition mkSystem (c : string) : Message :=
  {| msg_class := SystemMessage; msg_name := None; content := c |}.
Definition mkAI (c : string) : Message :=
  {| msg_class := AIMessage; msg_name := None; content := c |}.

(** A human feedback value: [None] or a string. *)
Definition feedback : Type := option string.

(** Truth value of [if feedbacks:], where [feedbacks = state.get(key)] is
    [None] for an absent key. *)
Definition truthy (f : option feedback) : bool :=
  match f with
  | Some (Some s) => negb (String.eqb s EmptyString)
  | _ => false
  end.

Section WithNumbers.
Context `{Num}.

(** One entry of the [weather] list: an aggregated day, or the error marker
    [{"error": msg}]. *)
Record DayForecast : Type := {
  date : string;
  summary : string;
  temp_max : num;
  temp_min : num;
  pop_max : num;
}.

Inductive weather_entry : Type :=
| Day (d : DayForecast)
| ErrorMarker (msg : string).

(** One element of the forecast reply's [list]; [None] is an absent key.
    [main] holds the optional [temp]; [weather] is a list of objects with
    an optional [description]. *)
Record raw_item : Type := {
  dt_txt : option string;
  main : option (option num);
  weather_objs : option (list (option string));
  pop : option num;
}.

(** One hit of the geocoding reply. *)
Record geo_hit : Type := {
  lat : option string;
  lon : option string;
}.

(** The per-date accumulator [{"temps": [], "descs": [], "pops": []}]. *)
Record day_acc : Type := {
  temps : list num;
  descs : list string;
  pops : list num;
}.

Definition empty_acc : day_acc := {| temps := []; descs := []; pops := [] |}.

(** [class TravelGraphState(TypedDict)]; [None] is an absent key. *)
Record TravelGraphState : Type := {
  tg_city : option string;
  tg_weather : option (list weather_entry);
  tg_days : option Z;
  tg_max_travelers : option Z;
  tg_human_feedback_traveler : option feedback;
  tg_human_feedback_plan : option feedback;
  tg_travelers : option (list Traveler);
  tg_sections : option (list string);
  tg_content : option string;
  tg_final_plan : option string;
}.

(** [class dialogueState(MessagesState)]; [None] is an absent key. *)
Record dialogueState : Type := {
  dl_messages : option (list Message);
  dl_max_num_turns : option Z;
  dl_context : option (list string);
  dl_traveler : option Traveler;
  dl_dialogue : option string;
  dl_sections : option (list string);
  dl_city : option string;
}.

(** The empty dict, as a node update that touches no key. *)
Definition tg_none : TravelGraphState :=
  {| tg_city := None; tg_weather := None; tg_days := None;
     tg_max_travelers := None; tg_human_feedback_traveler := None;
     tg_human_feedback_plan := None; tg_travelers := None;
     tg_sections := None; tg_content := None; tg_final_plan := None |}.

(** The one-key dicts returned by the nodes of the main graph. *)
Definition tg_upd_weather (w : list weather_entry) : TravelGraphState :=
  {| tg_city := None; tg_weather := Some w; tg_days := None;
     tg_max_travelers := None; tg_human_feedback_traveler := None;
     tg_human_feedback_plan := None; tg_travelers := None;
     tg_sections := None; tg_content := None; tg_final_plan := None |}.

Definition tg_upd_travelers (ts : list Traveler) : TravelGraphState :=
  {| tg_city := None; tg_weather := None; tg_days := None;
     tg_max_travelers := None; tg_human_feedback_traveler := None;
     tg_human_feedback_plan := None; tg_travelers := Some ts;
     tg_sections := None; tg_content := None; tg_final_plan := None |}.

Definition tg_upd_final_plan (p : string) : TravelGraphState :=
  {| tg_city := None; tg_weather := None; tg_days := None;
     tg_max_travelers := None; tg_human_feedback_traveler := None;
     tg_human_feedback_plan := None; tg_travelers := None;
     tg_sections := None; tg_content := None; tg_final_plan := Some p |}.

Definition tg_upd_human_feedback_traveler (f : feedback) : TravelGraphState :=
  {| tg_city := None; tg_weather := None; tg_days := None;
     tg_max_travelers := None; tg_human_feedback_traveler := Some f;
     tg_human_feedback_plan := None; tg_travelers := None;
     tg_sections := None; tg_content := None; tg_final_plan := None |}.

Definition dl_none : dialogueState :=
  {| dl_messages := None; dl_max_num_turns := None; dl_context := None;
     dl_traveler := None; dl_dialogue := None; dl_sections := None;
     dl_city := None |}.

(** The one-key dicts returned by the nodes of the dialogue graph. *)
Definition dl_upd_messages (ms : list Message) : dialogueState :=
  {| dl_messages := Some ms; dl_max_num_turns := None; dl_context := None;
     dl_traveler := None; dl_dialogue := None; dl_sections := None;
     dl_city := None |}.

Definition dl_upd_context (c : list string) : dialogueState :=
  {| dl_messages := None; dl_max_num_turns := None; dl_context := Some c;
     dl_traveler := None; dl_dialogue := None; dl_sections := None;
     dl_city := None |}.

Definition dl_upd_dialogue (d : string) : dialogueState :=
  {| dl_messages := None; dl_max_num_turns := None; dl_context := None;
     dl_traveler := None; dl_dialogue := Some d; dl_sections := None;
     dl_city := None |}.

Definition dl_upd_sections (ss : list string) : dialogueState :=
  {| dl_messages := None; dl_max_num_turns := None; dl_context := None;
     dl_traveler := None; dl_dialogue := None; dl_sections := Some ss;
     dl_city := None |}.

(** The argument of [Send("conduct_dialogue_sub", {...})]: the keys of
    [dialogueState] and the extra key [max_travelers]. *)
Record send_arg : Type := {
  arg_state : dialogueState;
  arg_max_travelers : Z;
}.

End WithNumbers.

(** ** External collaborators *)

(** Documents returned by the two retrieval tools. *)
Record web_doc : Type := {
  url : string;
  web_content : string;
}.

Record wiki_doc : Type := {
  source : string;
  page : option string;
  page_content : string;
}.

Class Env `{Number} : Type := {
  world : Type;
  (** the module-level [OPENWEATHER_KEY] *)
  OPENWEATHER_KEY : string;
  (** the step budget of one graph run (LangGraph's [recursion_limit]) *)
  recursion_limit : nat;
  (** [requests.get] on the geocoding service, [raise_for_status] and
      [resp.json()], for a city *)
  nominatim_search : string → world → result (list geo_hit) * world;
  (** [requests.get] on the forecast service, [raise_for_status] and
      [resp.json()["list"]], for a latitude and a longitude *)
  openweather_forecast : num → num → world → result (list raw_item) * world;
  (** iteration order of [set(l)]: some duplicate-free enumeration of the
      elements of [l] *)
  set_iter : list string → list string;
  (** [llm.invoke(messages).content] *)
  llm_invoke : list Message → world → result string * world;
  (** [llm.with_structured_output(Perspectives).invoke(messages).travelers] *)
  llm_perspectives : list Message → world → result (list Traveler) * world;
  (** [llm.with_structured_output(SearchQuery).invoke(messages).search_query],
      [None] by default *)
  llm_search_query : list Message → world → result (option string) * world;
  (** [TavilySearchResults(max_results=3).invoke(query)] *)
  tavily_search : option string → world → result (list web_doc) * world;
  (** [WikipediaLoader(query=query, load_max_docs=2).load()] *)
  wikipedia_load : option string → world → result (list wiki_doc) * world;
  (** [get_buffer_string(messages)] *)
  get_buffer_string : list Message → string;
  (** the prompt templates with their [format] arguments *)
  traveler_instructions :
    string → list weather_entry → Z → feedback → Z → string;
  question_instructions : string → string;
  search_instructions : Message;
  answer_instructions : string → string → list string → string;
  section_writer_instructions : string → string → string;
  section_source_prompt : list string → string;
  plan_writer_instructions :
    string → Z → list weather_entry → string → feedback → string;
}.

Section WithEnv.
Context `{Env}.

(** Computations that call collaborators: a result or a raised exception,
    and the next world. *)
Definition M (A : Type) : Type := world → result A * world.

Definition ret {A} (a : A) : M A := λ w, (Ok a, w).
Definition raise {A} (e : exn) : M A := λ w, (Raise e, w).
Definition lift {A} (r : result A) : M A := λ w, (r, w).

Definition bind {A B} (c : M A) (k : A → M B) : M B :=
  λ w, match c w with
       | (Ok a, w') => k a w'
       | (Raise e, w') => (Raise e, w')
       end.

(** [try: c  except Exception as e: h e] *)
Definition try_except {A} (c : M A) (h : exn → M A) : M A :=
  λ w, match c w with
       | (Ok a, w') => (Ok a, w')
       | (Raise e, w') => h e w'
       end.

End WithEnv.

Notation "'let*' x := c 'in' k" := (bind c (λ x, k))
  (at level 10, x pattern, c at level 100, k at level 200).

Section Weather.
Context `{Env}.

(** *** [get_latlon] *)

Definition get_latlon (city : string) : M string :=
  let* data := nominatim_search city in
  match data with
  | [] => raise (ValueError ("Cannot resolve coordinates for '" ++ city ++ "'"))
  | hit :: _ =>
      let* la := lift (index_key "lat" (lat hit)) in
      let* lo := lift (index_key "lon" (lon hit)) in
      ret (la ++ "," ++ lo)
  end.

(** [lat, lon = map(float, s.split(","))]: the two floats are computed on
    demand, then a third element is asked for. *)
Definition unpack_latlon (s : string) : result (num * num) :=
  match str_split ","%char s with
  | [] => Raise (ValueError "not enough values to unpack (expected 2, got 0)")
  | [a] =>
      let? _ := float_of_str a in
      Raise (ValueError "not enough values to unpack (expected 2, got 1)")
  | a :: b :: rest =>
      let? x := float_of_str a in
      let? y := float_of_str b in
      match rest with
      | [] => Ok (x, y)
      | c :: _ =>
          let? _ := float_of_str c in
          Raise (ValueError "too many values to unpack (expected 2)")
      end
  end.

(** *** The aggregation of [get_weather] *)

(** One turn of [for item in data]. *)
Definition add_sample (daily : gmap string day_acc) (item : raw_item)
    : result (gmap string day_acc) :=
  let? dt := index_key "dt_txt" (dt_txt item) in
  let d := String.substring 0 10 dt in
  let rec := default empty_acc (daily !! d) in
  let? m := index_key "main" (main item) in
  let? t := index_key "temp" m in
  let? ws := index_key "weather" (weather_objs item) in
  let? w0 := match ws with
             | [] => Raise (IndexError "list index out of range")
             | w0 :: _ => Ok w0
             end in
  let? desc := index_key "description" w0 in
  let p := default num_zero (pop item) in
  Ok (<[d := {| temps := temps rec ++ [t];
                descs := descs rec ++ [desc];
                pops := pops rec ++ [p] |}]> daily).

(** [sorted(daily.items())]: the keys are distinct, so the tuples are
    ordered by their dates. *)
Definition item_le (x y : string * day_acc) : Prop := str_le x.1 y.1.

#[global] Instance item_le_dec x y : Decision (item_le x y).
Proof. unfold item_le. apply _. Defined.

Definition sorted_items (daily : gmap string day_acc)
    : list (string * day_acc) :=
  merge_sort item_le (map_to_list daily).

(** The dict appended to [out] for one date. *)
Definition day_record (it : string * day_acc) : result DayForecast :=
  let '(d, rec) := it in
  let? s := py_max_key (str_count (descs rec)) (set_iter (descs rec)) in
  let? hi := py_max (temps rec) in
  let? lo := py_min (temps rec) in
  let? p := py_max (pops rec) in
  Ok {| date := d; summary := s;
        temp_max := num_round hi 1;
        temp_min := num_round lo 1;
        pop_max := num_round p 2 |}.

Definition aggregate (data : list raw_item) (days : Z)
    : result (list DayForecast) :=
  let? daily := rfoldM add_sample ∅ data in
  rmapM day_record (slice_to days (sorted_items daily)).

(** *** [get_weather] and the node [get_weather_info] *)

(** The body of the [try] block. *)
Definition get_weather_try (city : string) (days : Z)
    : M (list weather_entry) :=
  let* s := get_latlon city in
  let* (la, lo) := lift (unpack_latlon s) in
  let* data := openweather_forecast la lo in
  let* out := lift (aggregate data days) in
  ret (Day <$> out).

Definition get_weather (city : string) (days : Z) : M (list weather_entry) :=
  if String.eqb OPENWEATHER_KEY EmptyString
  then ret [ErrorMarker "OpenWeather API key not set"]
  else
    try_except (get_weather_try city days)
      (λ e, ret [ErrorMarker
                   ("Failed to get weather information: " ++ exn_str e)]).

Definition get_weather_info (state : TravelGraphState) : M TravelGraphState :=
  let city := default "tokyo" (tg_city state) in
  let days := default 5 (tg_days state) in
  let* weather :=
    try_except (get_weather city days)
      (λ e, ret [ErrorMarker ("Failed to get weather: " ++ exn_str e)]) in
  ret (tg_upd_weather weather).

End Weather.

(** ** Routing results *)

(** LangGraph's markers. *)
Definition START : string := "__start__".
Definition END : string := "__end__".

(** What a router returns: a node name (or [END]), or a list of
    [Send(node, arg)]. *)
Inductive route (P : Type) : Type :=
| Goto (node : string)
| Fanout (sends : list (string * P)).
Arguments Goto {P} node.
Arguments Fanout {P} sends.

(** ** The nodes of the dialogue graph *)

Section DialogueNodes.
Context `{Env}.

Definition generate_question (state : dialogueState) : M dialogueState :=
  let* traveler := lift (index_key "traveler" (dl_traveler state)) in
  let* messages := lift (index_key "messages" (dl_messages state)) in
  let system_message := question_instructions (persona traveler) in
  let* question := llm_invoke (mkSystem system_message :: messages) in
  ret (dl_upd_messages [mkAI question]).

Definition doc_separator : string := nl ++ nl ++ "---" ++ nl ++ nl.

Definition format_web_doc (doc : web_doc) : string :=
  "<Document href=" ++ dquote ++ url doc ++ dquote ++ "/>" ++ nl
  ++ web_content doc ++ nl ++ "</Document>".

Definition search_web (state : dialogueState) : M dialogueState :=
  let* messages := lift (index_key "messages" (dl_messages state)) in
  let* search_query := llm_search_query (search_instructions :: messages) in
  let* search_docs := tavily_search search_query in
  let formatted_search_docs :=
    str_join doc_separator (format_web_doc <$> search_docs) in
  ret (dl_upd_context [formatted_search_docs]).

Definition format_wiki_doc (doc : wiki_doc) : string :=
  "<Document source=" ++ dquote ++ source doc ++ dquote
  ++ " page=" ++ dquote ++ default EmptyString (page doc) ++ dquote ++ "/>"
  ++ nl ++ page_content doc ++ nl ++ "</Document>".

Definition search_wikipedia (state : dialogueState) : M dialogueState :=
  let* messages := lift (index_key "messages" (dl_messages state)) in
  let* search_query := llm_search_query (search_instructions :: messages) in
  let* search_docs := wikipedia_load search_query in
  let formatted_search_docs :=
    str_join doc_separator (format_wiki_doc <$> search_docs) in
  ret (dl_upd_context [formatted_search_docs]).

Definition generate_answer (state : dialogueState) : M dialogueState :=
  let* traveler := lift (index_key "traveler" (dl_traveler state)) in
  let* messages := lift (index_key "messages" (dl_messages state)) in
  let* context := lift (index_key "context" (dl_context state)) in
  let* city := lift (index_key "city" (dl_city state)) in
  let system_message :=
    answer_instructions city (persona traveler) context in
  let* answer := llm_invoke (mkSystem system_message :: messages) in
  ret (dl_upd_messages
         [{| msg_class := AIMessage; msg_name := Some "local";
             content := answer |}]).

(** The transcript is printed with the traveler's name, so the key
    [traveler] is read too. *)
Definition save_dialogue (state : dialogueState) : M dialogueState :=
  let* messages := lift (index_key "messages" (dl_messages state)) in
  let dialogue := get_buffer_string messages in
  let* _ := lift (index_key "traveler" (dl_traveler state)) in
  ret (dl_upd_dialogue dialogue).

(** [isinstance(m, AIMessage) and m.name == name] *)
Definition is_response (name : string) (m : Message) : bool :=
  bool_decide (msg_class m = AIMessage) &&
  bool_decide (msg_name m = Some name).

Definition closing_phrase : string := "Thank you so much for your help".

(** [route_messages(state, name)]; LangGraph calls it with the default
    [name = "local"]. *)
Definition route_messages_named (name : string) (state : dialogueState)
    : result string :=
  let? messages := index_key "messages" (dl_messages state) in
  let max_num_turns := default 2 (dl_max_num_turns state) in
  let num_responses := length (List.filter (is_response name) messages) in
  if max_num_turns <=? Z.of_nat num_responses then Ok "save_dialogue"
  else
    let? last_question := index_from_end_2 messages in
    if str_contains closing_phrase (content last_question)
    then Ok "save_dialogue"
    else Ok "ask_question".

Definition route_messages (state : dialogueState) : result string :=
  route_messages_named "local" state.

Definition write_section (state : dialogueState) : M dialogueState :=
  let* dialogue := lift (index_key "dialogue" (dl_dialogue state)) in
  let* context := lift (index_key "context" (dl_context state)) in
  let* traveler := lift (index_key "traveler" (dl_traveler state)) in
  let system_message :=
    section_writer_instructions (persona traveler) dialogue in
  let* section :=
    llm_invoke [mkSystem system_message;
                mkHuman (section_source_prompt context)] in
  ret (dl_upd_sections [section]).

End DialogueNodes.

(** ** The nodes of the main graph *)

Section MainNodes.
Context `{Env}.

Definition create_travelers (state : TravelGraphState) : M TravelGraphState :=
  let* city := lift (index_key "city" (tg_city state)) in
  let* weather := lift (index_key "weather" (tg_weather state)) in
  let* days := lift (index_key "days" (tg_days state)) in
  let* max_travelers :=
    lift (index_key "max_travelers" (tg_max_travelers state)) in
  let human_feedback_traveler :=
    default (Some EmptyString) (tg_human_feedback_traveler state) in
  let system_message :=
    traveler_instructions city weather days human_feedback_traveler
      max_travelers in
  let* travelers :=
    llm_perspectives [mkSystem system_message;
                      mkHuman "Generate the set of travelers."] in
  ret (tg_upd_travelers travelers).

(** [pass]: the node returns [None], an update without keys. *)
Definition feedback_traveler (state : TravelGraphState) : M TravelGraphState :=
  ret tg_none.

Definition conduct_dialogue_router (state : TravelGraphState)
    : result (route send_arg) :=
  let feedbacks := tg_human_feedback_traveler state in
  if truthy feedbacks then Ok (Goto "create_travelers")
  else
    let city := default EmptyString (tg_city state) in
    let max_travelers := default 3 (tg_max_travelers state) in
    let travelers := default [] (tg_travelers state) in
    Ok (Fanout
          ((λ traveler,
              ("conduct_dialogue_sub",
               {| arg_state :=
                    {| dl_traveler := Some traveler;
                       dl_messages :=
                         Some [mkHuman ("So you said you plan to have a trip on "
                                        ++ city ++ "?")];
                       dl_max_num_turns := Some 2;
                       dl_context := Some [];
                       dl_dialogue := Some EmptyString;
                       dl_sections := Some [];
                       dl_city := Some city |};
                  arg_max_travelers := max_travelers |}))
             <$> travelers)).

Definition write_plan (state : TravelGraphState) : M TravelGraphState :=
  let* days := lift (index_key "days" (tg_days state)) in
  let* sections := lift (index_key "sections" (tg_sections state)) in
  let* city := lift (index_key "city" (tg_city state)) in
  let* weather := lift (index_key "weather" (tg_weather state)) in
  let* human_feedback_plan :=
    lift (index_key "human_feedback_plan" (tg_human_feedback_plan state)) in
  let formatted_str_sections := str_join (nl ++ nl) sections in
  let system_message :=
    plan_writer_instructions city days weather formatted_str_sections
      human_feedback_plan in
  let* plan :=
    llm_invoke [mkSystem system_message;
                mkHuman "Write a travel plan based upon these memos."] in
  ret (tg_upd_final_plan plan).

(** [pass] *)
Definition feedback_plan (state : TravelGraphState) : M TravelGraphState :=
  ret tg_none.

Definition initiate_all_plans (state : TravelGraphState) : string :=
  let feedbacks := tg_human_feedback_plan state in
  if negb (truthy feedbacks) then END else "write_plan".

End MainNodes.

(** ** The state store *)

(** Modelled from the spec: the merge of a node's partial update into the
    state is done by LangGraph, which is not part of the sources; the
    sources only declare the reducer of each key.  A scalar key of the
    update replaces the stored value; a key declared
    [Annotated[list, operator.add]] (and [messages] of [MessagesState]) is
    concatenated onto the stored sequence; a key absent from the update is
    left untouched. *)
Definition merge_scalar {A} (old upd : option A) : option A :=
  match upd with
  | Some x => Some x
  | None => old
  end.

(** Modelled from the spec: the merge policy of an append-only sequence
    key (see [merge_scalar]); a key never written holds the empty
    sequence. *)
Definition merge_append {A} (old upd : option (list A)) : option (list A) :=
  match upd with
  | Some x => Some (default [] old ++ x)%list
  | None => old
  end.

Section StateStore.
Context `{Num}.

(** Modelled from the spec: the merge of the State Store on
    [TravelGraphState], whose only append-only key is [sections]. *)
Definition tg_merge (s u : TravelGraphState) : TravelGraphState :=
  {| tg_city := merge_scalar (tg_city s) (tg_city u);
     tg_weather := merge_scalar (tg_weather s) (tg_weather u);
     tg_days := merge_scalar (tg_days s) (tg_days u);
     tg_max_travelers := merge_scalar (tg_max_travelers s) (tg_max_travelers u);
     tg_human_feedback_traveler :=
       merge_scalar (tg_human_feedback_traveler s) (tg_human_feedback_traveler u);
     tg_human_feedback_plan :=
       merge_scalar (tg_human_feedback_plan s) (tg_human_feedback_plan u);
     tg_travelers := merge_scalar (tg_travelers s) (tg_travelers u);
     tg_sections := merge_append (tg_sections s) (tg_sections u);
     tg_content := merge_scalar (tg_content s) (tg_content u);
     tg_final_plan := merge_scalar (tg_final_plan s) (tg_final_plan u) |}.

(** Modelled from the spec: the merge of the State Store on
    [dialogueState], whose append-only keys are [messages], [context] and
    [sections]. *)
Definition dl_merge (s u : dialogueState) : dialogueState :=
  {| dl_messages := merge_append (dl_messages s) (dl_messages u);
     dl_max_num_turns := merge_scalar (dl_max_num_turns s) (dl_max_num_turns u);
     dl_context := merge_append (dl_context s) (dl_context u);
     dl_traveler := merge_scalar (dl_traveler s) (dl_traveler u);
     dl_dialogue := merge_scalar (dl_dialogue s) (dl_dialogue u);
     dl_sections := merge_append (dl_sections s) (dl_sections u);
     dl_city := merge_scalar (dl_city s) (dl_city u) |}.

(** Modelled from the spec: [concat(a, b)] of two partial updates, key by
    key: the sequences of a key present in both are concatenated. *)
Definition concat_append {A} (a b : option (list A)) : option (list A) :=
  match a, b with
  | Some x, Some y => Some (x ++ y)%list
  | Some x, None => Some x
  | None, b => b
  end.

(** An update that touches only the append-only keys. *)
Definition tg_append_only (u : TravelGraphState) : Prop :=
  tg_city u = None ∧ tg_weather u = None ∧ tg_days u = None ∧
  tg_max_travelers u = None ∧ tg_human_feedback_traveler u = None ∧
  tg_human_feedback_plan u = None ∧ tg_travelers u = None ∧
  tg_content u = None ∧ tg_final_plan u = None.

Definition dl_append_only (u : dialogueState) : Prop :=
  dl_max_num_turns u = None ∧ dl_traveler u = None ∧
  dl_dialogue u = None ∧ dl_city u = None.

Definition tg_concat (a b : TravelGraphState) : TravelGraphState :=
  {| tg_city := None; tg_weather := None; tg_days := None;
     tg_max_travelers := None; tg_human_feedback_traveler := None;
     tg_human_feedback_plan := None; tg_travelers := None;
     tg_sections := concat_append (tg_sections a) (tg_sections b);
     tg_content := None; tg_final_plan := None |}.

Definition dl_concat (a b : dialogueState) : dialogueState :=
  {| dl_messages := concat_append (dl_messages a) (dl_messages b);
     dl_max_num_turns := None;
     dl_context := concat_append (dl_context a) (dl_context b);
     dl_traveler := None; dl_dialogue := None;
     dl_sections := concat_append (dl_sections a) (dl_sections b);
     dl_city := None |}.

End StateStore.

(** ** The graph engine *)

Section Engine.
Context `{Env}.
Context {St Arg : Type}.

(** What [add_node] registers: a function of the state, or a compiled
    sub-graph started on the argument of a [Send]. *)
Inductive node_body : Type :=
| FnNode (f : St → M St)
| SubgraphNode (run : Arg → M St).

(** A graph declaration: [add_node], [add_edge], [add_conditional_edges]
    (source, router, candidate targets), [interrupt_before], and the merge
    of the state schema. *)
Record StateGraph : Type := {
  g_nodes : list (string * node_body);
  g_edges : list (string * string);
  g_branches : list (string * ((St → result (route Arg)) * list string));
  g_interrupt_before : list string;
  g_merge : St → St → St;
}.

Inductive task_input : Type :=
| FromState
| FromSend (arg : Arg).

Record task : Type := {
  t_node : string;
  t_input : task_input;
}.

(** Modelled from the spec: the Checkpoint of a run, its state snapshot and
    its cursor (the tasks to execute next); the engine and its checkpointer
    are LangGraph's and not part of the sources. *)
Record Checkpoint : Type := {
  state_snapshot : St;
  node_cursor : list task;
}.

Fixpoint assoc {A} (k : string) (l : list (string * A)) : option A :=
  match l with
  | [] => None
  | (k', a) :: l' => if String.eqb k k' then Some a else assoc k l'
  end.

Definition str_in (k : string) (l : list string) : bool :=
  existsb (String.eqb k) l.

(** Modelled from the spec: a task executes its node on the state snapshot
    (or a sub-graph on its seed) and returns a partial update.  A function
    node started by a [Send] and a sub-graph reached by a plain edge occur
    in neither graph of the program and are not modelled. *)
Definition exec_task (g : StateGraph) (st : St) (t : task) : M St :=
  match assoc (t_node t) (g_nodes g), t_input t with
  | Some (FnNode f), FromState => f st
  | Some (SubgraphNode run), FromSend arg => run arg
  | _, _ => raise (ValueError "unsupported task")
  end.

(** Modelled from the spec: all tasks of a step run on the same snapshot; a
    failing task does not stop its siblings. *)
Fixpoint exec_tasks (g : StateGraph) (st : St) (ts : list task)
    : world → list (string * result St) * world :=
  λ w,
    match ts with
    | [] => ([], w)
    | t :: ts' =>
        let '(r, w1) := exec_task g st t w in
        let '(rs, w2) := exec_tasks g st ts' w1 in
        ((t_node t, r) :: rs, w2)
    end.

(** The updates of a step, or its first failure. *)
Fixpoint collect_updates (rs : list (string * result St))
    : string * exn + list St :=
  match rs with
  | [] => inr []
  | (n, Raise e) :: _ => inl (n, e)
  | (n, Ok u) :: rs' =>
      match collect_updates rs' with
      | inl f => inl f
      | inr us => inr (u :: us)
      end
  end.

(** Static successors of a node, [END] left out. *)
Definition static_targets (g : StateGraph) (n : string) : list string :=
  List.filter (λ m, negb (String.eqb m END))
    (snd <$> List.filter (λ e, String.eqb (fst e) n) (g_edges g)).

Definition route_tasks (ends : list string) (r : route Arg)
    : result (list task) :=
  match r with
  | Goto m =>
      if str_in m ends
      then Ok (if String.eqb m END then []
               else [{| t_node := m; t_input := FromState |}])
      else Raise (KeyError m)
  | Fanout sends =>
      Ok ((λ s, {| t_node := fst s; t_input := FromSend (snd s) |}) <$> sends)
  end.

(** Modelled from the spec: the routers of the conditional edges that leave
    node [n], called on the current state. *)
Definition branch_tasks (g : StateGraph) (st : St) (n : string)
    : result (list task) :=
  let? tss :=
    rmapM (λ b, let? r := fst (snd b) st in route_tasks (snd (snd b)) r)
      (List.filter (λ b, String.eqb (fst b) n) (g_branches g)) in
  Ok (concat tss).

Definition successor_tasks (g : StateGraph) (st : St) (n : string)
    : result (list task) :=
  let? bs := branch_tasks g st n in
  Ok (((λ m, {| t_node := m; t_input := FromState |}) <$> static_targets g n)
      ++ bs)%list.

(** A node triggered by several tasks of one step runs once in the next
    step; every [Send] is a task of its own. *)
Fixpoint dedup_tasks (seen : list string) (ts : list task) : list task :=
  match ts with
  | [] => []
  | t :: ts' =>
      match t_input t with
      | FromSend _ => t :: dedup_tasks seen ts'
      | FromState =>
          if str_in (t_node t) seen then dedup_tasks seen ts'
          else t :: dedup_tasks (t_node t :: seen) ts'
      end
  end.

Fixpoint next_tasks (g : StateGraph) (st : St) (ns : list string)
    : string * exn + list task :=
  match ns with
  | [] => inr []
  | n :: ns' =>
      match successor_tasks g st n with
      | Raise e => inl (n, e)
      | Ok ts =>
          match next_tasks g st ns' with
          | inl f => inl f
          | inr ts' => inr (ts ++ ts')%list
          end
      end
  end.

Inductive step_result : Type :=
| StepOk (ck : Checkpoint)
| StepFailed (node : string) (e : exn).

(** Modelled from the spec: one step of the execution algorithm.  The tasks
    of the cursor run, their updates are merged in task order, and the next
    cursor holds the successors of the executed nodes; a node downstream of
    a fan-out is therefore a task of a later step than every fan-out
    task. *)
Definition superstep (g : StateGraph) (ck : Checkpoint)
    : world → step_result * world :=
  λ w,
    let '(rs, w') :=
      exec_tasks g (state_snapshot ck) (node_cursor ck) w in
    match collect_updates rs with
    | inl (n, e) => (StepFailed n e, w')
    | inr us =>
        let st' := fold_left (g_merge g) us (state_snapshot ck) in
        match next_tasks g st' (t_node <$> node_cursor ck) with
        | inl (n, e) => (StepFailed n e, w')
        | inr ts =>
            (StepOk {| state_snapshot := st';
                       node_cursor := dedup_tasks [] ts |}, w')
        end
    end.

(** Modelled from the spec: the status of a run. *)
Inductive outcome : Type :=
| Completed (st : St)
| AwaitingFeedback (ck : Checkpoint)
| Failed (node : string) (e : exn) (ck : Checkpoint)
| OutOfSteps (ck : Checkpoint).

(** An executed task: its node and the snapshot it ran on. *)
Definition event : Type := string * St.

Definition step_events (ck : Checkpoint) : list event :=
  (λ t, (t_node t, state_snapshot ck)) <$> node_cursor ck.

Definition at_interrupt (g : StateGraph) (ck : Checkpoint) : bool :=
  existsb (λ t, str_in (t_node t) (g_interrupt_before g)) (node_cursor ck).

(** Modelled from the spec: the execution algorithm.  The run ends when the
    cursor is empty; it suspends before a node flagged [interrupt_before]
    unless it is being resumed there; [fuel] bounds the number of steps.
    The result lists the executed tasks in order. *)
Fixpoint run (fuel : nat) (g : StateGraph) (resumed : bool) (ck : Checkpoint)
    : world → (list event * outcome) * world :=
  λ w,
    match node_cursor ck with
    | [] => (([], Completed (state_snapshot ck)), w)
    | _ :: _ =>
        if negb resumed && at_interrupt g ck
        then (([], AwaitingFeedback ck), w)
        else
          match fuel with
          | O => (([], OutOfSteps ck), w)
          | S fuel' =>
              match superstep g ck w with
              | (StepFailed n e, w') =>
                  ((step_events ck, Failed n e ck), w')
              | (StepOk ck', w') =>
                  let '((evs, o), w'') := run fuel' g false ck' w' in
                  (((step_events ck ++ evs)%list, o), w'')
              end
          end
    end.

(** Modelled from the spec: the checkpoint of a fresh run, at the
    successors of the start marker. *)
Definition start_checkpoint (g : StateGraph) (input : St) : Checkpoint :=
  {| state_snapshot := input;
     node_cursor :=
       (λ m, {| t_node := m; t_input := FromState |})
         <$> static_targets g START |}.

(** Modelled from the spec: [update_state] merges a partial update into the
    stored snapshot and leaves the cursor unchanged. *)
Definition update_state (g : StateGraph) (ck : Checkpoint) (u : St)
    : Checkpoint :=
  {| state_snapshot := g_merge g (state_snapshot ck) u;
     node_cursor := node_cursor ck |}.

(** Modelled from the spec: the run of a driver that starts at [ck] and, at
    every suspension, supplies the next update of [updates] and resumes. *)
Fixpoint drive (fuel : nat) (g : StateGraph) (resumed : bool)
    (ck : Checkpoint) (updates : list St)
    : world → (list event * outcome) * world :=
  λ w,
    match run fuel g resumed ck w with
    | ((evs, AwaitingFeedback ck'), w') =>
        match updates with
        | [] => ((evs, AwaitingFeedback ck'), w')
        | u :: updates' =>
            let '((evs', o), w'') :=
              drive fuel g true (update_state g ck' u) updates' w' in
            (((evs ++ evs')%list, o), w'')
        end
    | r => r
    end.

(** The checkpoints a driven run goes through. *)
Inductive reachable (g : StateGraph) (input : St) (upd : St → Prop)
    : Checkpoint → Prop :=
| reach_start : reachable g input upd (start_checkpoint g input)
| reach_step ck ck' w w' :
    reachable g input upd ck →
    superstep g ck w = (StepOk ck', w') →
    reachable g input upd ck'
| reach_update ck u :
    reachable g input upd ck →
    at_interrupt g ck = true →
    upd u →
    reachable g input upd (update_state g ck u).

End Engine.

Arguments node_body {_ _ _} St Arg.
Arguments StateGraph {_ _ _} St Arg.
Arguments task Arg : clear implicits.
Arguments task_input Arg : clear implicits.
Arguments Checkpoint St Arg : clear implicits.
Arguments step_result St Arg : clear implicits.
Arguments outcome St Arg : clear implicits.
Arguments event St : clear implicits.

(** ** The two graphs *)

Section Graphs.
Context `{Env}.

(** [dialogue_builder], lines 418-434. *)
Definition dialogue_builder : StateGraph dialogueState Empty_set :=
  {| g_nodes :=
       [("ask_question", FnNode generate_question);
        ("search_web", FnNode search_web);
        ("search_wikipedia", FnNode search_wikipedia);
        ("answer_question", FnNode generate_answer);
        ("save_dialogue", FnNode save_dialogue);
        ("write_section", FnNode write_section)];
     g_edges :=
       [(START, "ask_question");
        ("ask_question", "search_web");
        ("ask_question", "search_wikipedia");
        ("search_web", "answer_question");
        ("search_wikipedia", "answer_question");
        ("save_dialogue", "write_section");
        ("write_section", END)];
     g_branches :=
       [("answer_question",
         (λ st, let? n := route_messages st in Ok (Goto n),
          ["ask_question"; "save_dialogue"]))];
     g_interrupt_before := [];
     g_merge := dl_merge |}.

(** Modelled from the spec: the keys of [dialogueOutputState] that are keys
    of the parent state are copied back; [sections] is the only one. *)
Definition dialogue_output (st : dialogueState) : TravelGraphState :=
  {| tg_city := None; tg_weather := None; tg_days := None;
     tg_max_travelers := None; tg_human_feedback_traveler := None;
     tg_human_feedback_plan := None; tg_travelers := None;
     tg_sections := dl_sections st; tg_content := None;
     tg_final_plan := None |}.

(** The node [dialogue_builder.compile()]: one run of the dialogue graph on
    the argument of a [Send]. *)
Definition conduct_dialogue_sub (arg : send_arg) : M TravelGraphState :=
  λ w,
    match run recursion_limit dialogue_builder false
            (start_checkpoint dialogue_builder (arg_state arg)) w with
    | ((_, Completed st), w') => (Ok (dialogue_output st), w')
    | ((_, Failed _ e _), w') => (Raise e, w')
    | ((_, OutOfSteps _), w') =>
        (Raise (GraphRecursionError "Recursion limit reached"), w')
    | ((_, AwaitingFeedback _), w') =>
        (Raise (GraphRecursionError "interrupted"), w')
    end.

(** [conduct_dialogue_router] is also registered as a node; no edge leads
    to it, and what it returns is not a state update. *)
Definition conduct_dialogue_router_node (state : TravelGraphState)
    : M TravelGraphState :=
  let* _ := lift (conduct_dialogue_router state) in
  raise (InvalidUpdateError "Expected dict").

(** [builder], lines 548-566, compiled with
    [interrupt_before=['human_feedback_traveler_node']]. *)
Definition builder : StateGraph TravelGraphState send_arg :=
  {| g_nodes :=
       [("get_weather_info", FnNode get_weather_info);
        ("create_travelers", FnNode create_travelers);
        ("human_feedback_traveler_node", FnNode feedback_traveler);
        ("conduct_dialogue_router", FnNode conduct_dialogue_router_node);
        ("conduct_dialogue_sub", SubgraphNode conduct_dialogue_sub);
        ("write_plan", FnNode write_plan)];
     g_edges :=
       [(START, "get_weather_info");
        ("get_weather_info", "create_travelers");
        ("create_travelers", "human_feedback_traveler_node");
        ("conduct_dialogue_sub", "write_plan");
        ("write_plan", END)];
     g_branches :=
       [("human_feedback_traveler_node",
         (conduct_dialogue_router,
          ["create_travelers"; "conduct_dialogue_sub"]))];
     g_interrupt_before := ["human_feedback_traveler_node"];
     g_merge := tg_merge |}.

(** Modelled from the spec: a resume supplies the traveler feedback,
    [None] or a text, through [update_state]. *)
Definition feedback_update (u : TravelGraphState) : Prop :=
  ∃ f : feedback, u = tg_upd_human_feedback_traveler f.

(** Modelled from the spec: [start_run] followed by one [resume] per
    feedback. *)
Definition start_run (fuel : nat) (input : TravelGraphState)
    (feedbacks : list feedback)
    : world →
      (list (event TravelGraphState) * outcome TravelGraphState send_arg)
      * world :=
  drive fuel builder false (start_checkpoint builder input)
    (tg_upd_human_feedback_traveler <$> feedbacks).

End Graphs.

(** ** A reference instance of the parameters

    Exact decimal numbers for the floats and fixed replies for the
    collaborators.  The instance is used to run the program on concrete
    inputs. *)

Module Reference.

Definition ltb (x y : Q) : bool := negb (Qle_bool y x).

(** The integer nearest to [q], ties to the even one. *)
Definition round_half_even (q : Q) : Z :=
  let a := Qnum q in
  let b := Z.pos (Qden q) in
  let fl := a / b in
  match (2 * (a mod b)) ?= b with
  | Lt => fl
  | Gt => fl + 1
  | Eq => if Z.even fl then fl else fl + 1
  end.

Definition round (x : Q) (ndigits : Z) : Q :=
  if 0 <=? ndigits
  then Qred (Qdiv (inject_Z (round_half_even (Qmult x (inject_Z (10 ^ ndigits)))))
                  (inject_Z (10 ^ ndigits)))
  else Qred (Qmult (inject_Z (round_half_even
                                (Qdiv x (inject_Z (10 ^ (- ndigits))))))
                   (inject_Z (10 ^ (- ndigits)))).

Fixpoint digits (s : string) (acc : Z) : option Z :=
  match s with
  | EmptyString => Some acc
  | String c s' =>
      let d := Z.of_nat (nat_of_ascii c) - 48 in
      if (0 <=? d) && (d <=? 9) then digits s' (10 * acc + d) else None
  end.

Definition unsigned_of_str (s : string) : option Q :=
  match str_split "."%char s with
  | [i] => n ← digits i 0; Some (inject_Z n)
  | [i; f] =>
      n ← digits i 0; m ← digits f 0;
      Some (Qred (Qplus (inject_Z n)
                        (Qdiv (inject_Z m)
                              (inject_Z (10 ^ Z.of_nat (String.length f))))))
  | _ => None
  end.

Definition of_str (s : string) : result Q :=
  let r := match s with
           | String "-"%char s' => Qopp <$> unsigned_of_str s'
           | _ => unsigned_of_str s
           end in
  match r with
  | Some q => Ok q
  | None => Raise (ValueError ("could not convert string to float: '" ++ s ++ "'"))
  end.

#[export] Instance decimal_num : Num := Q.

#[export] Instance decimal : Number :=
  {| num_ltb := ltb; num_round := round; num_zero := 0%Q;
     float_of_str := of_str |}.

Definition sample (dt : string) (t : Q) (d : string) (p : option Q)
    : raw_item :=
  {| dt_txt := Some dt; main := Some (Some t);
     weather_objs := Some [Some d]; pop := p |}.

Definition alice : Traveler :=
  {| name := "Alice"; description := "food" |}.
Definition bob : Traveler :=
  {| name := "Bob"; description := "museums" |}.

(** Fixed replies; the world counts the calls.  [set_order] is the
    iteration order of sets, [key] the API key, [geo] the geocoding reply
    and [forecast] the forecast reply. *)
Definition env (set_order : list string → list string) (key : string)
    (geo : result (list geo_hit)) (forecast : result (list raw_item))
    (question : string) : Env :=
  {| world := nat;
     OPENWEATHER_KEY := key;
     recursion_limit := 25;
     nominatim_search := λ _ w, (geo, S w);
     openweather_forecast := λ _ _ w, (forecast, S w);
     set_iter := set_order;
     llm_invoke := λ _ w, (Ok question, S w);
     llm_perspectives := λ _ w, (Ok [alice; bob], S w);
     llm_search_query := λ _ w, (Ok (Some "query"), S w);
     tavily_search := λ _ w, (Ok [], S w);
     wikipedia_load := λ _ w, (Ok [], S w);
     get_buffer_string := λ ms, str_join nl (content <$> ms);
     traveler_instructions := λ city _ _ _ _, city;
     question_instructions := λ topic, topic;
     search_instructions := mkSystem "search";
     answer_instructions := λ city _ _, city;
     section_writer_instructions := λ topic _, topic;
     section_source_prompt := λ context, str_join nl context;
     plan_writer_instructions := λ city _ _ context _, city ++ context |}.

Definition tokyo_hit : geo_hit := {| lat := Some "35.6"; lon := Some "139.7" |}.

Definition two_days : list raw_item :=
  [sample "2025-05-02 00:00:00" 15.5%Q "clouds" None;
   sample "2025-05-01 09:00:00" 18.2%Q "rain" (Some 0.4%Q);
   sample "2025-05-01 12:00:00" 20.7%Q "rain" (Some 0.9%Q);
   sample "2025-05-01 15:00:00" 19.25%Q "clear" None].

(** A working installation, and one without an API key. *)
Definition online : Env :=
  env remove_dups "key" (Ok [tokyo_hit]) (Ok two_days) "What should I see?".
Definition no_key : Env :=
  env remove_dups EmptyString (Ok [tokyo_hit]) (Ok two_days) "What should I see?".
Definition unresolved_city : Env :=
  env remove_dups "key" (Ok []) (Ok two_days) "What should I see?".
Definition offline : Env :=
  env remove_dups "key" (Raise (CollaboratorError "connection refused"))
    (Ok two_days) "What should I see?".

Definition kyoto : TravelGraphState :=
  {| tg_city := Some "Kyoto"; tg_weather := None; tg_days := Some 3;
     tg_max_travelers := Some 2; tg_human_feedback_traveler := None;
     tg_human_feedback_plan := None; tg_travelers := None;
     tg_sections := None; tg_content := None; tg_final_plan := None |}.

(** The input [kyoto] with an empty plan feedback. *)
Definition kyoto_reviewed : TravelGraphState :=
  {| tg_city := Some "Kyoto"; tg_weather := None; tg_days := Some 3;
     tg_max_travelers := Some 2; tg_human_feedback_traveler := None;
     tg_human_feedback_plan := Some (Some EmptyString);
     tg_travelers := None; tg_sections := None; tg_content := None;
     tg_final_plan := None |}.

(** The runs of the working installation on the two inputs, resumed once
    with the feedback [None]. *)
Definition kyoto_run :=
  Eval vm_compute in @start_run _ _ online 10 kyoto [None] 0%nat.
Definition kyoto_reviewed_run :=
  Eval vm_compute in @start_run _ _ online 10 kyoto_reviewed [None] 0%nat.

(** The state on which [write_plan] runs in [kyoto_run]. *)
Definition kyoto_plan_state : TravelGraphState :=
  Eval vm_compute in
    default kyoto (snd <$> (fst (fst kyoto_run) !! 5%nat)).

(** The state on which [write_plan] runs in [kyoto_reviewed_run]. *)
Definition kyoto_reviewed_plan_state : TravelGraphState :=
  Eval vm_compute in
    default kyoto_reviewed (snd <$> (fst (fst kyoto_reviewed_run) !! 5%nat)).

End Reference.

(** ** Notions used in the statements *)

(** Feedback that [if feedbacks:] takes as empty: an absent key, [None] or
    the empty string. *)
Definition feedback_empty (f : option feedback) : Prop :=
  f = None ∨ f = Some None ∨ f = Some (Some EmptyString).

(** An answer of the local, as [generate_answer] appends it. *)
Definition local_answer (a : string) : Message :=
  {| msg_class := AIMessage; msg_name := Some "local"; content := a |}.

(** The conversation after some rounds: the seed messages, then a question
    of the traveler and an answer of the local per round. *)
Definition conversation (seed : list Message)
    (rounds : list (string * string)) : list Message :=
  (seed ++ flat_map (λ qa, [mkAI (fst qa); local_answer (snd qa)]) rounds)%list.

(** No message of the list counts as an answer of the local. *)
Definition no_response (ms : list Message) : Prop :=
  Forall (λ m, is_response "local" m = false) ms.

(** The tasks that a list of [Send]s starts. *)
Definition send_tasks {P} (sends : list (string * P)) : list (task P) :=
  (λ s, {| t_node := fst s; t_input := FromSend (snd s) |}) <$> sends.

Definition plain_task {P} (n : string) : task P :=
  {| t_node := n; t_input := FromState |}.

(** The keys absent from the update [a] hold in [r] what they hold in
    [s]. *)
Definition tg_absent_untouched `{Num} (s a r : TravelGraphState) : Prop :=
  (tg_city a = None → tg_city r = tg_city s) ∧
  (tg_weather a = None → tg_weather r = tg_weather s) ∧
  (tg_days a = None → tg_days r = tg_days s) ∧
  (tg_max_travelers a = None → tg_max_travelers r = tg_max_travelers s) ∧
  (tg_human_feedback_traveler a = None →
   tg_human_feedback_traveler r = tg_human_feedback_traveler s) ∧
  (tg_human_feedback_plan a = None →
   tg_human_feedback_plan r = tg_human_feedback_plan s) ∧
  (tg_travelers a = None → tg_travelers r = tg_travelers s) ∧
  (tg_sections a = None → tg_sections r = tg_sections s) ∧
  (tg_content a = None → tg_content r = tg_content s) ∧
  (tg_final_plan a = None → tg_final_plan r = tg_final_plan s).

Definition dl_absent_untouched (s a r : dialogueState) : Prop :=
  (dl_messages a = None → dl_messages r = dl_messages s) ∧
  (dl_max_num_turns a = None → dl_max_num_turns r = dl_max_num_turns s) ∧
  (dl_context a = None → dl_context r = dl_context s) ∧
  (dl_traveler a = None → dl_traveler r = dl_traveler s) ∧
  (dl_dialogue a = None → dl_dialogue r = dl_dialogue s) ∧
  (dl_sections a = None → dl_sections r = dl_sections s) ∧
  (dl_city a = None → dl_city r = dl_city s).

(** The sequence of an append-only key after the update: the stored
    sequence, then the update's, both in their order. *)
Definition appended {A} (old upd new : option (list A)) : Prop :=
  ∀ xs, upd = Some xs → new = Some (default [] old ++ xs)%list.

(** Every executed task of [evs] belongs to a step taken from a checkpoint
    [ck'] that satisfies [I h'], where [h'] lists the tasks executed before
    that step; [h] lists the tasks executed before [evs]. *)
Definition trace_ok {St Arg} (I : list (event St) → Checkpoint St Arg → Prop)
    (h evs : list (event St)) : Prop :=
  ∀ e1 ev e2, evs = (e1 ++ ev :: e2)%list →
    ∃ h' ck' a b,
      I h' ck' ∧ step_events ck' = (a ++ ev :: b)%list ∧
      (h ++ e1 = h' ++ a)%list.

(** What the result of a run says about its last checkpoint. *)
Definition outcome_ok `{Env} {St Arg} (g : StateGraph St Arg)
    (I : list (event St) → Checkpoint St Arg → Prop)
    (h : list (event St)) (o : outcome St Arg) : Prop :=
  match o with
  | Completed st =>
      ∃ ck, I h ck ∧ node_cursor ck = [] ∧ state_snapshot ck = st
  | AwaitingFeedback ck => I h ck ∧ at_interrupt g ck = true
  | Failed n e ck =>
      ∃ h' w1 w2,
        I h' ck ∧ h = (h' ++ step_events ck)%list ∧
        superstep g ck w1 = (StepFailed n e, w2)
  | OutOfSteps ck => I h ck ∧ node_cursor ck ≠ []
  end.

(** A checkpoint of the dialogue graph whose cursor holds plain tasks. *)
Definition dl_ck (st : dialogueState) (ns : list string)
    : Checkpoint dialogueState Empty_set :=
  {| state_snapshot := st; node_cursor := plain_task <$> ns |}.

(** The turn count of [route_messages]: the answers of the local in the
    conversation. *)
Definition turn_count (st : dialogueState) : nat :=
  length (List.filter (is_response "local") (default [] (dl_messages st))).

Definition turns_le (e1 e2 : event dialogueState) : Prop :=
  (turn_count (snd e1) ≤ turn_count (snd e2))%nat.

(** How often node [n] was executed in a trace. *)
Definition count_node {St} (n : string) (evs : list (event St)) : nat :=
  length (List.filter (λ e, String.eqb (fst e) n) evs).

(** The rounds end the dialogue: the bound is reached or the last question
    holds the closing phrase. *)
Definition concluded (m : nat) (rounds : list (string * string)) : Prop :=
  length rounds = m ∨
  ∃ rs q a, rounds = (rs ++ [(q, a)])%list ∧
    str_contains closing_phrase q = true.

(** Where a run of the dialogue graph can be, for the seed state [st0] with
    messages [seed] and turn bound [m], after the tasks [h]. *)
Inductive dialogue_phase (st0 : dialogueState) (seed : list Message)
    (m : nat) (h : list (event dialogueState))
    : Checkpoint dialogueState Empty_set → Prop :=
| phase_ask st rounds :
    dl_messages st = Some (conversation seed rounds) →
    count_node "ask_question" h = length rounds →
    count_node "save_dialogue" h = 0%nat →
    (length rounds < m)%nat →
    dl_sections st = dl_sections st0 →
    dialogue_phase st0 seed m h (dl_ck st ["ask_question"])
| phase_search st rounds q :
    dl_messages st = Some (conversation seed rounds ++ [mkAI q])%list →
    count_node "ask_question" h = S (length rounds) →
    count_node "save_dialogue" h = 0%nat →
    (length rounds < m)%nat →
    dl_sections st = dl_sections st0 →
    dialogue_phase st0 seed m h (dl_ck st ["search_web"; "search_wikipedia"])
| phase_answer st rounds q :
    dl_messages st = Some (conversation seed rounds ++ [mkAI q])%list →
    count_node "ask_question" h = S (length rounds) →
    count_node "save_dialogue" h = 0%nat →
    (length rounds < m)%nat →
    dl_sections st = dl_sections st0 →
    dialogue_phase st0 seed m h (dl_ck st ["answer_question"])
| phase_save st rounds :
    dl_messages st = Some (conversation seed rounds) →
    count_node "ask_question" h = length rounds →
    count_node "save_dialogue" h = 0%nat →
    (1 ≤ length rounds ≤ m)%nat →
    concluded m rounds →
    dl_sections st = dl_sections st0 →
    dialogue_phase st0 seed m h (dl_ck st ["save_dialogue"])
| phase_write st rounds :
    dl_messages st = Some (conversation seed rounds) →
    count_node "ask_question" h = length rounds →
    count_node "save_dialogue" h = 1%nat →
    (1 ≤ length rounds ≤ m)%nat →
    concluded m rounds →
    dl_sections st = dl_sections st0 →
    dialogue_phase st0 seed m h (dl_ck st ["write_section"])
| phase_done st rounds x :
    dl_messages st = Some (conversation seed rounds) →
    count_node "ask_question" h = length rounds →
    count_node "save_dialogue" h = 1%nat →
    (1 ≤ length rounds ≤ m)%nat →
    concluded m rounds →
    dl_sections st = Some (default [] (dl_sections st0) ++ [x])%list →
    dialogue_phase st0 seed m h (dl_ck st []).

Definition dialogue_inv (st0 : dialogueState) (seed : list Message) (m : nat)
    (h : list (event dialogueState))
    (ck : Checkpoint dialogueState Empty_set) : Prop :=
  dl_max_num_turns (state_snapshot ck) = dl_max_num_turns st0 ∧
  StronglySorted turns_le h ∧
  Forall (λ e, (turn_count (snd e) ≤ turn_count (state_snapshot ck))%nat) h ∧
  (turn_count (state_snapshot ck) ≤ m)%nat ∧
  dialogue_phase st0 seed m h ck.

(** The steps the dialogue graph still takes from a checkpoint, at most. *)
Definition dialogue_measure (m : nat)
    (ck : Checkpoint dialogueState Empty_set) : nat :=
  let left := (m - turn_count (state_snapshot ck))%nat in
  match t_node <$> node_cursor ck with
  | ["ask_question"] => 3 * left + 2
  | ["search_web"; "search_wikipedia"] => 3 * left + 1
  | ["answer_question"] => 3 * left
  | ["save_dialogue"] => 2
  | ["write_section"] => 1
  | _ => 0
  end%nat.

(** A checkpoint of the main graph whose cursor holds plain tasks. *)
Definition tg_ck `{Num} (st : TravelGraphState) (ns : list string)
    : Checkpoint TravelGraphState send_arg :=
  {| state_snapshot := st; node_cursor := plain_task <$> ns |}.

(** The seed state that [conduct_dialogue_router] gives to the dialogue of
    a traveler. *)
Definition dialogue_seed (city : string) (traveler : Traveler)
    : dialogueState :=
  {| dl_traveler := Some traveler;
     dl_messages :=
       Some [mkHuman ("So you said you plan to have a trip on "
                      ++ city ++ "?")];
     dl_max_num_turns := Some 2;
     dl_context := Some [];
     dl_dialogue := Some EmptyString;
     dl_sections := Some [];
     dl_city := Some city |}.

(** The update that one finished dialogue contributes: one section. *)
Definition tg_upd_sections `{Num} (ss : list string) : TravelGraphState :=
  {| tg_city := None; tg_weather := None; tg_days := None;
     tg_max_travelers := None; tg_human_feedback_traveler := None;
     tg_human_feedback_plan := None; tg_travelers := None;
     tg_sections := Some ss; tg_content := None; tg_final_plan := None |}.

(** The arguments of the [Send]s of [conduct_dialogue_router], one per
    traveler of the state. *)
Definition router_args `{Num} (st : TravelGraphState) : list send_arg :=
  (λ t, {| arg_state := dialogue_seed (default EmptyString (tg_city st)) t;
           arg_max_travelers := default 3 (tg_max_travelers st) |})
    <$> default [] (tg_travelers st).

(** [Send]s to the dialogue sub-graph. *)
Definition cds_sends (args : list send_arg) : list (string * send_arg) :=
  (λ a, ("conduct_dialogue_sub", a)) <$> args.

(** The keys that only the caller and the first nodes write hold the same
    in both states. *)
Definition keeps_inputs `{Num} (st st' : TravelGraphState) : Prop :=
  tg_city st' = tg_city st ∧ tg_weather st' = tg_weather st ∧
  tg_days st' = tg_days st ∧ tg_max_travelers st' = tg_max_travelers st ∧
  tg_human_feedback_traveler st' = tg_human_feedback_traveler st ∧
  tg_human_feedback_plan st' = tg_human_feedback_plan st ∧
  tg_travelers st' = tg_travelers st.

(** The state holds the sections and the plan feedback of the input. *)
Definition unchanged `{Num} (input st : TravelGraphState) : Prop :=
  tg_sections st = tg_sections input ∧
  tg_human_feedback_plan st = tg_human_feedback_plan input.

(** The keys that [create_travelers] reads first are present. *)
Definition created `{Num} (st : TravelGraphState) : Prop :=
  is_Some (tg_city st) ∧ is_Some (tg_weather st) ∧ is_Some (tg_days st).

(** Neither a dialogue nor [write_plan] has run. *)
Definition early `{Num} (h : list (event TravelGraphState)) : Prop :=
  count_node "write_plan" h = 0%nat ∧
  count_node "conduct_dialogue_sub" h = 0%nat.

(** Where a run of the main graph can be, for the input state [input],
    after the tasks [h]. *)
Inductive main_phase `{Num} (input : TravelGraphState)
    (h : list (event TravelGraphState))
    : Checkpoint TravelGraphState send_arg → Prop :=
| mp_weather st :
    unchanged input st → early h →
    main_phase input h (tg_ck st ["get_weather_info"])
| mp_create st :
    unchanged input st → early h →
    main_phase input h (tg_ck st ["create_travelers"])
| mp_feedback st :
    unchanged input st → created st → early h →
    main_phase input h (tg_ck st ["human_feedback_traveler_node"])
| mp_fanout st a args :
    unchanged input st → created st → early h →
    router_args st = a :: args →
    main_phase input h
      {| state_snapshot := st;
         node_cursor := send_tasks (cds_sends (a :: args)) |}
| mp_plan st st_f h' secs :
    h = (h' ++ replicate (length secs) ("conduct_dialogue_sub", st_f))%list →
    early h' →
    unchanged input st_f →
    keeps_inputs st_f st →
    created st →
    length secs = length (default [] (tg_travelers st_f)) →
    (1 ≤ length secs)%nat →
    tg_sections st = Some (default [] (tg_sections input) ++ secs)%list →
    main_phase input h (tg_ck st ["write_plan"])
| mp_done st :
    early h ∨
    (count_node "write_plan" h = 1%nat ∧
     is_Some (tg_human_feedback_plan input) ∧
     is_Some (tg_final_plan st)) →
    main_phase input h (tg_ck st []).

(** A well-formed element of the forecast reply: the time stamp, the
    temperature, the description of the first weather object, the other
    weather objects, and the optional [pop]. *)
Record sample `{Num} : Type := {
  s_dt_txt : string;
  s_temp : num;
  s_desc : string;
  s_more : list (option string);
  s_pop : option num;
}.

Definition raw_of `{Num} (s : sample) : raw_item :=
  {| dt_txt := Some (s_dt_txt s);
     main := Some (Some (s_temp s));
     weather_objs := Some (Some (s_desc s) :: s_more s);
     pop := s_pop s |}.

(** The calendar date of a sample. *)
Definition sample_date `{Num} (s : sample) : string :=
  String.substring 0 10 (s_dt_txt s).

(** The samples of one date, in their order. *)
Definition samples_on `{Num} (d : string) (ss : list sample) : list sample :=
  filter (λ s, sample_date s = d) ss.

Definition sample_pop `{Number} (s : sample) : num :=
  default num_zero (s_pop s).

(** The comparison of the numbers is a strict order. *)
Definition strict_order `{Number} : Prop :=
  (∀ x, num_ltb x x = false) ∧
  (∀ x y z, num_ltb x y = true → num_ltb y z = true → num_ltb x z = true).

(** The iteration order of a set enumerates the elements once each. *)
Definition set_order_ok (order : list string → list string) : Prop :=
  ∀ l, NoDup (order l) ∧ ∀ x, x ∈ order l ↔ x ∈ l.

(** [m] is a largest, or a smallest, number of [l]. *)
Definition max_of `{Number} (l : list num) (m : num) : Prop :=
  m ∈ l ∧ ∀ x, x ∈ l → num_ltb m x = false.
Definition min_of `{Number} (l : list num) (m : num) : Prop :=
  m ∈ l ∧ ∀ x, x ∈ l → num_ltb x m = false.

(** [d] is the first element of [order] whose count in [l] is maximal. *)
Definition first_most_frequent (d : string) (order l : list string) : Prop :=
  ∃ pre post,
    order = (pre ++ d :: post)%list ∧
    (∀ x, x ∈ pre → (str_count l x < str_count l d)%nat) ∧
    (∀ x, x ∈ post → (str_count l x ≤ str_count l d)%nat).

(** The accumulator of the samples of one date. *)
Definition acc_of `{Number} (on : list sample) : day_acc :=
  {| temps := s_temp <$> on; descs := s_desc <$> on;
     pops := sample_pop <$> on |}.

(** The dict [daily] after the loop has read the samples [ss]. *)
Definition holds_samples `{Number} (daily : gmap string day_acc)
    (ss : list sample) : Prop :=
  ∀ d, daily !! d = match samples_on d ss with
                    | [] => None
                    | on => Some (acc_of on)
                    end.

(** What the summary [s] of a record says about the descriptions [ds] of
    its date: it is the first most frequent one in the iteration order of
    their set. *)
Definition summary_ok `{Env} (ds : list string) (s : string) : Prop :=
  first_most_frequent s (set_iter ds) ds ∧
  s ∈ ds ∧
  (∀ d, d ∈ ds → (str_count ds d ≤ str_count ds s)%nat).

(** What the numbers of a record say about the accumulator of its date. *)
Definition extrema_ok `{Number} (acc : day_acc) (r : DayForecast) : Prop :=
  (∃ hi, max_of (temps acc) hi ∧ temp_max r = num_round hi 1) ∧
  (∃ lo, min_of (temps acc) lo ∧ temp_min r = num_round lo 1) ∧
  (∃ p, max_of (pops acc) p ∧ pop_max r = num_round p 2).

(** What a record of the output says about the samples of its date. *)
Definition day_ok `{Env} (samples : list sample) (r : DayForecast) : Prop :=
  let on := samples_on (date r) samples in
  extrema_ok (acc_of on) r ∧ summary_ok (s_desc <$> on) (summary r).

(** Forecast data of the reference installation. *)
Module Forecasts.

(** One date with the descriptions rain (twice) and clear, two
    temperatures and two probabilities. *)
Definition rain_day : @day_acc Reference.decimal_num :=
  {| temps := [18.2%Q; 20.7%Q];
     descs := ["rain"; "rain"; "clear"];
     pops := [0.4%Q; 0.9%Q] |}.

(** Three samples of one date and one of the day before. *)
Definition may : list (@sample Reference.decimal_num) :=
  [ {| s_dt_txt := "2025-05-01 09:00:00"; s_temp := 18.2%Q;
       s_desc := "rain"; s_more := []; s_pop := Some 0.4%Q |};
    {| s_dt_txt := "2025-04-30 21:00:00"; s_temp := 12.34%Q;
       s_desc := "mist"; s_more := []; s_pop := None |};
    {| s_dt_txt := "2025-05-01 12:00:00"; s_temp := 20.7%Q;
       s_desc := "rain"; s_more := []; s_pop := Some 0.9%Q |};
    {| s_dt_txt := "2025-05-01 15:00:00"; s_temp := 19.25%Q;
       s_desc := "clear"; s_more := []; s_pop := None |} ].

(** Two samples of one date whose descriptions are equally frequent. *)
Definition tie : list (@sample Reference.decimal_num) :=
  [ {| s_dt_txt := "2025-05-01 09:00:00"; s_temp := 18.2%Q;
       s_desc := "rain"; s_more := []; s_pop := Some 0.4%Q |};
    {| s_dt_txt := "2025-05-01 12:00:00"; s_temp := 20.7%Q;
       s_desc := "clear"; s_more := []; s_pop := Some 0.9%Q |} ].

(** Another iteration order of sets, and the working installation with
    it. *)
Definition set_order_rev (l : list string) : list string :=
  reverse (remove_dups l).

Definition online_rev : Env :=
  Reference.env set_order_rev "key" (Ok [Reference.tokyo_hit])
    (Ok Reference.two_days) "What should I see?".

End Forecasts.

(** ** Notions used in the statement about the interview loop *)

(** The nodes of the dialogue graph with their functions. *)
Definition dialogue_nodes `{Env}
    : list (string * (dialogueState → M dialogueState)) :=
  [("ask_question", generate_question);
   ("search_web", search_web);
   ("search_wikipedia", search_wikipedia);
   ("answer_question", generate_answer);
   ("save_dialogue", save_dialogue);
   ("write_section", write_section)].

(** The function of node [n] raises [e] on the state [st]. *)
Definition node_raised `{Env} (n : string) (e : exn) (st : dialogueState)
    : Prop :=
  ∃ f w1 w2, (n, f) ∈ dialogue_nodes ∧ f st w1 = (Raise e, w2).

(** No message holds the closing phrase. *)
Definition phrase_free (ms : list Message) : bool :=
  forallb (λ m, negb (str_contains closing_phrase (content m))) ms.

(** Dialogues of the reference installation outside the states that the
    router sends. *)
Module Interviews.

(** The seed of a traveler with a turn bound of zero. *)
Definition zero_turns : dialogueState :=
  {| dl_traveler := Some Reference.alice;
     dl_messages :=
       Some [mkHuman "So you said you plan to have a trip on Kyoto?"];
     dl_max_num_turns := Some 0;
     dl_context := Some [];
     dl_dialogue := Some EmptyString;
     dl_sections := Some [];
     dl_city := Some "Kyoto" |}.

(** A state whose messages already hold three answers of the local, with
    the turn bound two. *)
Definition answered : dialogueState :=
  {| dl_traveler := Some Reference.alice;
     dl_messages :=
       Some [mkHuman "So you said you plan to have a trip on Kyoto?";
             local_answer "Yes."; local_answer "In May.";
             local_answer "By train."];
     dl_max_num_turns := Some 2;
     dl_context := Some [];
     dl_dialogue := Some EmptyString;
     dl_sections := Some [];
     dl_city := Some "Kyoto" |}.

(** Their runs. *)
Definition zero_turns_run :=
  Eval vm_compute in
    run 8 (@dialogue_builder _ _ Reference.online) false
      (start_checkpoint (@dialogue_builder _ _ Reference.online) zero_turns)
      0%nat.

Definition answered_run :=
  Eval vm_compute in
    run 8 (@dialogue_builder _ _ Reference.online) false
      (start_checkpoint (@dialogue_builder _ _ Reference.online) answered)
      0%nat.

End Interviews.

(** ** Notions used in the statements about errors *)

(** The exception that one turn of the aggregation loop raises on [item],
    by the order in which the loop reads the keys. *)
Definition item_error `{Num} (item : raw_item) : option exn :=
  match dt_txt item, main item, weather_objs item with
  | None, _, _ => Some (KeyError "dt_txt")
  | Some _, None, _ => Some (KeyError "main")
  | Some _, Some None, _ => Some (KeyError "temp")
  | Some _, Some (Some _), None => Some (KeyError "weather")
  | Some _, Some (Some _), Some [] =>
      Some (IndexError "list index out of range")
  | Some _, Some (Some _), Some (None :: _) => Some (KeyError "description")
  | Some _, Some (Some _), Some (Some _ :: _) => None
  end.

(** The exception of the first item on which the loop raises. *)
Definition first_error `{Num} (data : list raw_item) : option exn :=
  head (omap item_error data).

(** [c in s] for a character. *)
Fixpoint has_char (c : ascii) (s : string) : bool :=
  match s with
  | EmptyString => false
  | String c' s' => Ascii.eqb c' c || has_char c s'
  end.

(** What [get_weather_try] does once it holds the two coordinates. *)
Definition forecast_at `{Env} (x y : num) (days : Z)
    : M (list weather_entry) :=
  let* data := openweather_forecast x y in
  let* out := lift (aggregate data days) in
  ret (Day <$> out).

(** The collaborators of the dialogue graph answer every call. *)
Definition reliable `{Env} : Prop :=
  (∀ ms w, ∃ r w', llm_invoke ms w = (Ok r, w')) ∧
  (∀ ms w, ∃ q w', llm_search_query ms w = (Ok q, w')) ∧
  (∀ q w, ∃ ds w', tavily_search q w = (Ok ds, w')) ∧
  (∀ q w, ∃ ds w', wikipedia_load q w = (Ok ds, w')).

(** The keys that the nodes of the dialogue graph read are present. *)
Definition dl_complete (st : dialogueState) : Prop :=
  is_Some (dl_traveler st) ∧ is_Some (dl_messages st) ∧
  is_Some (dl_context st) ∧ is_Some (dl_dialogue st) ∧
  is_Some (dl_city st).

(** ** Notions used in the statement about whole runs *)

(** The model answers every request for travelers. *)
Definition staffed `{Env} : Prop :=
  ∀ ms w, ∃ ts w', llm_perspectives ms w = (Ok ts, w').

(** The keys of the input that the nodes of the main graph index. *)
Definition tg_ready `{Num} (input : TravelGraphState) : Prop :=
  is_Some (tg_city input) ∧ is_Some (tg_days input) ∧
  is_Some (tg_max_travelers input) ∧ is_Some (tg_human_feedback_plan input).

(** Every feedback but the last asks for other travelers, and the last one
    accepts them. *)
Fixpoint ends_accepting (fs : list feedback) : Prop :=
  match fs with
  | [] => False
  | [f] => truthy (Some f) = false
  | f :: fs' => truthy (Some f) = true ∧ ends_accepting fs'
  end.

(** The state holds what the input holds in the keys that only the caller
    and [write_plan] write, and it holds a weather and travelers. *)
Definition same_inputs `{Num} (input st : TravelGraphState) : Prop :=
  tg_city st = tg_city input ∧ tg_days st = tg_days input ∧
  tg_max_travelers st = tg_max_travelers input ∧
  tg_human_feedback_plan st = tg_human_feedback_plan input ∧
  tg_sections st = tg_sections input ∧
  tg_final_plan st = tg_final_plan input ∧
  is_Some (tg_weather st) ∧ is_Some (tg_travelers st).

(** What a completed run has done after the travelers were accepted: one
    dialogue per traveler; without travelers no plan is written and the
    sections and the plan are those of the input; otherwise [write_plan]
    ran once, the state holds a plan and one more section per traveler. *)
Definition plan_outcome `{Num} (input st : TravelGraphState)
    (evs : list (event TravelGraphState)) : Prop :=
  let n := length (default [] (tg_travelers st)) in
  count_node "conduct_dialogue_sub" evs = n ∧
  (n = 0%nat →
   count_node "write_plan" evs = 0%nat ∧
   tg_final_plan st = tg_final_plan input ∧
   tg_sections st = tg_sections input) ∧
  ((0 < n)%nat →
   count_node "write_plan" evs = 1%nat ∧
   is_Some (tg_final_plan st) ∧
   ∃ secs, length secs = n ∧
     tg_sections st = Some (default [] (tg_sections input) ++ secs)%list).

(** * Verification *)

Local Open Scope list_scope.

(** ** Basic facts *)

Lemma truthy_true_iff (f : option feedback) :
  truthy f = true ↔ ¬ feedback_empty f.
Proof.
  unfold feedback_empty. destruct f as [[s|]|]; simpl.
  - destruct (String.eqb_spec s EmptyString) as [->|Hne]; simpl.
    + split; [discriminate|]. intros Hn. exfalso. apply Hn. auto.
    + split; [|done]. intros _ [?|[?|?]]; congruence.
  - split; [discriminate|]. intros Hn. exfalso. apply Hn. auto.
  - split; [discriminate|]. intros Hn. exfalso. apply Hn. auto.
Qed.

Lemma truthy_false_iff (f : option feedback) :
  truthy f = false ↔ feedback_empty f.
Proof.
  destruct (truthy f) eqn:E.
  - apply truthy_true_iff in E. split; [discriminate|done].
  - split; [|done]. intros _. unfold feedback_empty.
    destruct f as [[s|]|]; [|by auto|by auto].
    simpl in E. destruct (String.eqb_spec s EmptyString) as [Heq|Hne].
    + subst. by auto.
    + discriminate.
Qed.

Lemma merge_scalar_none {A} (old : option A) : merge_scalar old None = old.
Proof. done. Qed.

Lemma merge_append_none {A} (old : option (list A)) :
  merge_append old None = old.
Proof. done. Qed.

Lemma merge_append_assoc {A} (s a b : option (list A)) :
  merge_append (merge_append s a) b = merge_append s (concat_append a b).
Proof.
  destruct s as [s|], a as [a|], b as [b|]; simpl; try done.
  by rewrite <- app_assoc.
Qed.

Section BasicFacts.
Context `{Env}.

Lemma tg_merge_none (s : TravelGraphState) : tg_merge s tg_none = s.
Proof. by destruct s. Qed.

Lemma dl_merge_none (s : dialogueState) : dl_merge s dl_none = s.
Proof. by destruct s. Qed.

End BasicFacts.

(** ** The state store (C6) *)

Section StateStoreFacts.
Context `{Num}.

(** C6. Merging the update [a] and then the update [b] equals merging
    their concatenation, for updates that touch only append-only keys, on
    both state schemas; the merge appends the update's sequence to the
    stored one, and leaves the keys absent from the update untouched. *)
Theorem merge_append_only_assoc
    (s a b : TravelGraphState) (s' a' b' : dialogueState) :
  tg_append_only a → tg_append_only b →
  dl_append_only a' → dl_append_only b' →
  tg_merge (tg_merge s a) b = tg_merge s (tg_concat a b) ∧
  dl_merge (dl_merge s' a') b' = dl_merge s' (dl_concat a' b') ∧
  appended (tg_sections s) (tg_sections a) (tg_sections (tg_merge s a)) ∧
  appended (dl_messages s') (dl_messages a') (dl_messages (dl_merge s' a')) ∧
  appended (dl_context s') (dl_context a') (dl_context (dl_merge s' a')) ∧
  appended (dl_sections s') (dl_sections a') (dl_sections (dl_merge s' a')) ∧
  tg_absent_untouched s a (tg_merge s a) ∧
  dl_absent_untouched s' a' (dl_merge s' a').
Proof.
  intros Ha Hb Ha' Hb'.
  split; [|split].
  - destruct s, a, b. unfold tg_append_only in *. simpl in *.
    destruct Ha as (-> & -> & -> & -> & -> & -> & -> & -> & ->).
    destruct Hb as (-> & -> & -> & -> & -> & -> & -> & -> & ->).
    unfold tg_merge, tg_concat. simpl. f_equal. apply merge_append_assoc.
  - destruct s', a', b'. unfold dl_append_only in *. simpl in *.
    destruct Ha' as (-> & -> & -> & ->).
    destruct Hb' as (-> & -> & -> & ->).
    unfold dl_merge, dl_concat. simpl. f_equal; apply merge_append_assoc.
  - repeat split; try (intros xs Hxs; simpl; by rewrite Hxs);
      intros Hn; simpl; by rewrite Hn.
Qed.

End StateStoreFacts.

Lemma merge_append_only_assoc_witness :
  let a := @dialogue_output Reference.decimal_num (dl_upd_sections ["memo A"]) in
  let b := @dialogue_output Reference.decimal_num (dl_upd_sections ["memo B"]) in
  tg_merge (tg_merge Reference.kyoto a) b
  = tg_merge Reference.kyoto (tg_concat a b).
Proof.
  intros a b.
  apply (merge_append_only_assoc Reference.kyoto a b dl_none
           (dl_upd_messages [mkHuman "hello"]) (dl_upd_context ["doc"]));
    repeat split.
Defined.

(** ** The router of the dialogue graph (C4) *)

Section RouteMessages.

Lemma index_from_end_2_app {A} (pre : list A) (x y : A) :
  index_from_end_2 (pre ++ [x; y]) = Ok x.
Proof. unfold index_from_end_2. by rewrite rev_app_distr. Qed.

Lemma filter_response_conversation (seed : list Message) rounds :
  no_response seed →
  length (List.filter (is_response "local") (conversation seed rounds))
  = length rounds.
Proof.
  intros Hseed. unfold conversation. rewrite List.filter_app, length_app.
  assert (List.filter (is_response "local") seed = []) as ->.
  { induction Hseed as [|m ms Hm _ IH]; simpl; [done|]. by rewrite Hm. }
  simpl. induction rounds as [|[q a] rounds IH]; simpl; [done|].
  by rewrite IH.
Qed.

Lemma conversation_snoc (seed : list Message) rounds q a :
  conversation seed (rounds ++ [(q, a)])
  = (conversation seed rounds ++ [mkAI q; local_answer a])%list.
Proof.
  unfold conversation. rewrite flat_map_app. simpl.
  by rewrite ?app_nil_r, app_assoc.
Qed.

(** What the router computes on a conversation that ends with a question
    and an answer. *)
Lemma route_messages_rounds (st : dialogueState) seed rounds q a :
  dl_messages st = Some (conversation seed (rounds ++ [(q, a)])) →
  no_response seed →
  route_messages st
  = Ok (if (default 2 (dl_max_num_turns st) <=? Z.of_nat (length rounds + 1))
           || str_contains closing_phrase q
        then "save_dialogue" else "ask_question").
Proof.
  intros Hms Hseed. unfold route_messages, route_messages_named.
  rewrite Hms. simpl.
  rewrite (filter_response_conversation _ _ Hseed), length_app. simpl.
  destruct (_ <=? _); [done|].
  rewrite conversation_snoc, index_from_end_2_app. simpl.
  by destruct (str_contains _ _).
Qed.

(** C4, amended. On the conversations the dialogue graph routes on (the
    seed, then one question and one answer of the local per round, at least
    one round), the router returns [save_dialogue] exactly when the number
    of rounds has reached [max_num_turns] (2 when absent) or the most
    recent question contains the closing phrase, and [ask_question]
    exactly otherwise. *)
Theorem route_messages_decision (st : dialogueState) seed rounds q a :
  dl_messages st = Some (conversation seed (rounds ++ [(q, a)])) →
  no_response seed →
  let turns := Z.of_nat (length (rounds ++ [(q, a)])) in
  let conclude :=
    default 2 (dl_max_num_turns st) ≤ turns ∨
    str_contains closing_phrase q = true in
  (route_messages st = Ok "save_dialogue" ↔ conclude) ∧
  (route_messages st = Ok "ask_question" ↔ ¬ conclude).
Proof.
  intros Hms Hseed turns conclude.
  rewrite (route_messages_rounds _ _ _ _ _ Hms Hseed).
  subst turns conclude. rewrite length_app. simpl.
  destruct (Z.leb_spec (default 2 (dl_max_num_turns st))
              (Z.of_nat (length rounds + 1))) as [Hle|Hlt]; simpl.
  - split; split; try done; [by left|]. intros Hn. exfalso. apply Hn. by left.
  - destruct (str_contains closing_phrase q) eqn:Hq.
    + split; split; try done; [by right|]. intros Hn. exfalso. apply Hn. by right.
    + split; split; try done.
      * intros [?|?]; [lia|done].
      * intros _ [?|?]; [lia|done].
Qed.

End RouteMessages.

(** The amended C4 on the first routing of a dialogue started by the
    router. *)
Lemma route_messages_decision_witness :
  let st := dl_upd_messages
              (conversation [mkHuman "So you said you plan to have a trip on Kyoto?"]
                 [("What should I eat?", "Try the tofu.")]) in
  route_messages st = Ok "ask_question".
Proof.
  intros st.
  apply (route_messages_decision st
           [mkHuman "So you said you plan to have a trip on Kyoto?"] []
           "What should I eat?" "Try the tofu.").
  - reflexivity.
  - repeat constructor.
  - vm_compute. intros [Hle|Hc]; [by apply Hle|discriminate].
Defined.

(** C4, as stated, fails: on a state without messages the router returns
    neither node, it raises [IndexError]. *)
Lemma route_messages_counterexample :
  let st := {| dl_messages := Some []; dl_max_num_turns := Some 2;
               dl_context := Some []; dl_traveler := Some Reference.alice;
               dl_dialogue := Some EmptyString; dl_sections := Some [];
               dl_city := Some "Kyoto" |} in
  route_messages st
  = Raise (IndexError "list index out of range") ∧
  ¬ (route_messages st = Ok "save_dialogue" ∨
     route_messages st = Ok "ask_question").
Proof.
  intros st. split; [reflexivity|]. intros [Hr|Hr]; vm_compute in Hr; discriminate.
Qed.

(** ** Runs of the engine *)

Section EngineFacts.
Context `{Env} {St Arg : Type}.
Implicit Types (g : StateGraph St Arg) (ck : Checkpoint St Arg).
Implicit Types (I : list (event St) → Checkpoint St Arg → Prop).

Lemma trace_ok_nil I h : trace_ok I h [].
Proof. intros e1 ev e2 Heq. by destruct e1. Qed.

Lemma trace_ok_step I h ck : I h ck → trace_ok I h (step_events ck).
Proof.
  intros HI e1 ev e2 Heq. exists h, ck, e1, e2. by rewrite Heq.
Qed.

Lemma trace_ok_app I h evs1 evs2 :
  trace_ok I h evs1 → trace_ok I (h ++ evs1) evs2 →
  trace_ok I h (evs1 ++ evs2).
Proof.
  intros Ht1 Ht2 e1 ev e2 Heq.
  apply app_eq_app in Heq as [k [[Hk1 Hk2]|[Hk1 Hk2]]].
  - destruct k as [|x k].
    + simpl in Hk2. rewrite app_nil_r in Hk1. subst evs1.
      destruct (Ht2 [] ev e2) as (h' & ck' & a & b & ? & ? & Hh); [done|].
      exists h', ck', a, b. by rewrite app_nil_r in Hh.
    + simpl in Hk2. injection Hk2 as <- ->.
      destruct (Ht1 e1 ev k) as (h' & ck' & a & b & ? & ? & Hh); [done|].
      by exists h', ck', a, b.
  - subst e1.
    destruct (Ht2 k ev e2) as (h' & ck' & a & b & ? & ? & Hh); [done|].
    exists h', ck', a, b. by rewrite app_assoc.
Qed.

(** A property of the history and the checkpoint that every step preserves
    holds along a run. *)
Lemma run_history g I :
  (∀ h ck w ck' w',
     I h ck → node_cursor ck ≠ [] →
     superstep g ck w = (StepOk ck', w') →
     I (h ++ step_events ck) ck') →
  ∀ fuel resumed h ck w evs o w',
    I h ck →
    run fuel g resumed ck w = ((evs, o), w') →
    trace_ok I h evs ∧ outcome_ok g I (h ++ evs) o.
Proof.
  intros Hstep fuel.
  induction fuel as [|fuel IH]; intros resumed h ck w evs o w' HI Hrun;
    simpl in Hrun.
  - destruct (node_cursor ck) as [|t ts] eqn:Hcur.
    + injection Hrun as <- <- <-. split; [apply trace_ok_nil|].
      rewrite app_nil_r. by exists ck.
    + destruct (negb resumed && at_interrupt g ck) eqn:Hint;
        injection Hrun as <- <- <-; (split; [apply trace_ok_nil|]);
        rewrite app_nil_r; simpl.
      * split; [done|]. by apply andb_true_iff in Hint as [_ ?].
      * split; [done|]. by rewrite Hcur.
  - destruct (node_cursor ck) as [|t ts] eqn:Hcur.
    + injection Hrun as <- <- <-. split; [apply trace_ok_nil|].
      rewrite app_nil_r. by exists ck.
    + destruct (negb resumed && at_interrupt g ck) eqn:Hint.
      * injection Hrun as <- <- <-. split; [apply trace_ok_nil|].
        rewrite app_nil_r. simpl.
        split; [done|]. by apply andb_true_iff in Hint as [_ ?].
      * destruct (superstep g ck w) as [[ck'|n e] w1] eqn:Hs.
        -- destruct (run fuel g false ck' w1) as [[evs' o'] w2] eqn:Hr.
           injection Hrun as <- <- <-.
           destruct (IH false (h ++ step_events ck)%list ck' w1 evs' o' w2)
             as [Ht Ho]; [eapply Hstep; [done| |done]; by rewrite Hcur|done|].
           split.
           ++ apply trace_ok_app; [by apply trace_ok_step|done].
           ++ by rewrite app_assoc.
        -- injection Hrun as <- <- <-. split; [by apply trace_ok_step|].
           simpl. by exists h, w, w1.
Qed.

(** The same along a driven run, when the updates supplied at the
    interrupts preserve the property too. *)
Lemma drive_history g I (U : St → Prop) :
  (∀ h ck w ck' w',
     I h ck → node_cursor ck ≠ [] →
     superstep g ck w = (StepOk ck', w') →
     I (h ++ step_events ck) ck') →
  (∀ h ck u,
     I h ck → at_interrupt g ck = true → U u → I h (update_state g ck u)) →
  ∀ updates fuel resumed h ck w evs o w',
    Forall U updates →
    I h ck →
    drive fuel g resumed ck updates w = ((evs, o), w') →
    trace_ok I h evs ∧ outcome_ok g I (h ++ evs) o.
Proof.
  intros Hstep Hupd updates.
  induction updates as [|u updates IH];
    intros fuel resumed h ck w evs o w' HU HI Hdrive; simpl in Hdrive.
  - destruct (run fuel g resumed ck w) as [[evs0 o0] w0] eqn:Hr.
    assert (evs = evs0 ∧ o = o0) as [-> ->].
    { destruct o0; by injection Hdrive as <- <- <-. }
    by eapply run_history.
  - destruct (run fuel g resumed ck w) as [[evs0 o0] w0] eqn:Hr.
    destruct (run_history g I Hstep _ _ _ _ _ _ _ _ HI Hr) as [Ht Ho].
    destruct o0 as [st|ck0|n e ck0|ck0];
      try (injection Hdrive as <- <- <-; by split).
    destruct (drive fuel g true (update_state g ck0 u) updates w0)
      as [[evs1 o1] w1] eqn:Hd.
    injection Hdrive as <- <- <-.
    destruct Ho as [HI0 Hint].
    inversion HU as [|? ? Hu HU']; subst.
    destruct (IH _ _ _ _ _ _ _ _ HU' (Hupd _ _ _ HI0 Hint Hu) Hd) as [Ht1 Ho1].
    split; [by apply trace_ok_app|]. by rewrite app_assoc.
Qed.

(** A run whose steps decrease a measure ends within that many steps. *)
Lemma run_terminates g I (mu : Checkpoint St Arg → nat) :
  (∀ h ck w ck' w',
     I h ck → node_cursor ck ≠ [] →
     superstep g ck w = (StepOk ck', w') →
     I (h ++ step_events ck) ck' ∧ (mu ck' < mu ck)%nat) →
  (∀ h ck, I h ck → node_cursor ck ≠ [] → (0 < mu ck)%nat) →
  ∀ fuel resumed h ck w ck',
    I h ck → (mu ck ≤ fuel)%nat →
    (fst (run fuel g resumed ck w)).2 ≠ OutOfSteps ck'.
Proof.
  intros Hstep Hpos fuel.
  induction fuel as [|fuel IH]; intros resumed h ck w ck0 HI Hmu; simpl.
  - destruct (node_cursor ck) as [|t ts] eqn:Hcur; [done|].
    destruct (negb resumed && at_interrupt g ck); [done|].
    assert (0 < mu ck)%nat; [|lia]. eapply Hpos; [done|]. by rewrite Hcur.
  - destruct (node_cursor ck) as [|t ts] eqn:Hcur; [done|].
    destruct (negb resumed && at_interrupt g ck); [done|].
    destruct (superstep g ck w) as [[ck'|n e] w1] eqn:Hs; [|done].
    destruct (Hstep _ _ _ _ _ HI ltac:(by rewrite Hcur) Hs) as [HI' Hlt].
    specialize (IH false _ ck' w1 ck0 HI').
    destruct (run fuel g false ck' w1) as [[evs o] w2] eqn:Hr.
    simpl in *. apply IH. lia.
Qed.

End EngineFacts.

(** ** Steps of the dialogue graph *)

Section DialogueSteps.
Context `{Env}.

#[local] Arguments generate_question : simpl never.
#[local] Arguments search_web : simpl never.
#[local] Arguments search_wikipedia : simpl never.
#[local] Arguments generate_answer : simpl never.
#[local] Arguments save_dialogue : simpl never.
#[local] Arguments write_section : simpl never.
#[local] Arguments route_messages : simpl never.
#[local] Arguments dl_merge : simpl never.

Lemma step_ask_question st w :
  superstep dialogue_builder (dl_ck st ["ask_question"]) w
  = match generate_question st w with
    | (Ok u, w') =>
        (StepOk (dl_ck (dl_merge st u) ["search_web"; "search_wikipedia"]), w')
    | (Raise e, w') => (StepFailed "ask_question" e, w')
    end.
Proof.
  unfold superstep. cbn.
  by destruct (generate_question st w) as [[u|e] w'].
Qed.

Lemma step_search st w :
  superstep dialogue_builder (dl_ck st ["search_web"; "search_wikipedia"]) w
  = match search_web st w with
    | (r1, w1) =>
        match search_wikipedia st w1 with
        | (r2, w2) =>
            match r1, r2 with
            | Ok u1, Ok u2 =>
                (StepOk (dl_ck (dl_merge (dl_merge st u1) u2)
                           ["answer_question"]), w2)
            | Raise e, _ => (StepFailed "search_web" e, w2)
            | Ok _, Raise e => (StepFailed "search_wikipedia" e, w2)
            end
        end
    end.
Proof.
  unfold superstep. cbn.
  destruct (search_web st w) as [[u1|e1] w1];
    by destruct (search_wikipedia st w1) as [[u2|e2] w2].
Qed.

Lemma step_answer_question st w :
  superstep dialogue_builder (dl_ck st ["answer_question"]) w
  = match generate_answer st w with
    | (Ok u, w') =>
        match route_messages (dl_merge st u) with
        | Ok n =>
            if str_in n ["ask_question"; "save_dialogue"]
            then (StepOk (dl_ck (dl_merge st u)
                            (if String.eqb n END then [] else [n])), w')
            else (StepFailed "answer_question" (KeyError n), w')
        | Raise e => (StepFailed "answer_question" e, w')
        end
    | (Raise e, w') => (StepFailed "answer_question" e, w')
    end.
Proof.
  unfold superstep. cbn.
  destruct (generate_answer st w) as [[u|e] w']; [|done]. cbn.
  unfold successor_tasks, branch_tasks. cbn.
  destruct (route_messages (dl_merge st u)) as [n|e]; [|done]. cbn.
  destruct (_ || _); cbn; [|done].
  by destruct (String.eqb n END).
Qed.

Lemma step_save_dialogue st w :
  superstep dialogue_builder (dl_ck st ["save_dialogue"]) w
  = match save_dialogue st w with
    | (Ok u, w') => (StepOk (dl_ck (dl_merge st u) ["write_section"]), w')
    | (Raise e, w') => (StepFailed "save_dialogue" e, w')
    end.
Proof.
  unfold superstep. cbn.
  by destruct (save_dialogue st w) as [[u|e] w'].
Qed.

Lemma step_write_section st w :
  superstep dialogue_builder (dl_ck st ["write_section"]) w
  = match write_section st w with
    | (Ok u, w') => (StepOk (dl_ck (dl_merge st u) []), w')
    | (Raise e, w') => (StepFailed "write_section" e, w')
    end.
Proof.
  unfold superstep. cbn.
  by destruct (write_section st w) as [[u|e] w'].
Qed.

(** What the nodes return. *)

Ltac unfold_M :=
  unfold bind, lift, ret, raise, index_key in *.

Lemma generate_question_ok st w u w' :
  generate_question st w = (Ok u, w') →
  ∃ c, u = dl_upd_messages [mkAI c].
Proof.
  unfold generate_question. unfold_M. intros Hq.
  repeat case_match; simplify_eq. by eexists.
Qed.

Lemma search_web_ok st w u w' :
  search_web st w = (Ok u, w') → ∃ c, u = dl_upd_context [c].
Proof.
  unfold search_web. unfold_M. intros Hq.
  repeat case_match; simplify_eq. by eexists.
Qed.

Lemma search_wikipedia_ok st w u w' :
  search_wikipedia st w = (Ok u, w') → ∃ c, u = dl_upd_context [c].
Proof.
  unfold search_wikipedia. unfold_M. intros Hq.
  repeat case_match; simplify_eq. by eexists.
Qed.

Lemma generate_answer_ok st w u w' :
  generate_answer st w = (Ok u, w') →
  ∃ a, u = dl_upd_messages [local_answer a].
Proof.
  unfold generate_answer. unfold_M. intros Hq.
  repeat case_match; simplify_eq. by eexists.
Qed.

Lemma save_dialogue_ok st w u w' :
  save_dialogue st w = (Ok u, w') → ∃ d, u = dl_upd_dialogue d.
Proof.
  unfold save_dialogue. unfold_M. intros Hq.
  repeat case_match; simplify_eq. by eexists.
Qed.

Lemma write_section_ok st w u w' :
  write_section st w = (Ok u, w') → ∃ x, u = dl_upd_sections [x].
Proof.
  unfold write_section. unfold_M. intros Hq.
  repeat case_match; simplify_eq. by eexists.
Qed.

End DialogueSteps.

(** ** The interview loop (C3) *)

Section DialogueLoop.
Context `{Env}.

#[local] Arguments dl_merge : simpl never.

Lemma turn_count_conversation st seed rounds :
  dl_messages st = Some (conversation seed rounds) → no_response seed →
  turn_count st = length rounds.
Proof.
  intros Hms Hseed. unfold turn_count. rewrite Hms. simpl.
  by apply filter_response_conversation.
Qed.

Lemma turn_count_question st seed rounds q :
  dl_messages st = Some (conversation seed rounds ++ [mkAI q]) →
  no_response seed →
  turn_count st = length rounds.
Proof.
  intros Hms Hseed. unfold turn_count. rewrite Hms. simpl.
  rewrite List.filter_app, length_app. simpl.
  rewrite filter_response_conversation; [lia|done].
Qed.

Lemma count_node_app {St} n (e1 e2 : list (event St)) :
  count_node n (e1 ++ e2) = (count_node n e1 + count_node n e2)%nat.
Proof. unfold count_node. by rewrite List.filter_app, length_app. Qed.

Lemma sorted_snoc (h : list (event dialogueState)) (es : list (event dialogueState)) st :
  StronglySorted turns_le h →
  Forall (λ e, (turn_count (snd e) ≤ turn_count st)%nat) h →
  Forall (λ e, snd e = st) es →
  StronglySorted turns_le (h ++ es).
Proof.
  intros Hs Hall Hes. induction Hs as [|e h Hs IH Hle]; simpl.
  - induction Hes as [|e es He Hes IH]; [constructor|].
    constructor; [done|].
    eapply Forall_impl; [exact Hes|]. intros e' He'. unfold turns_le.
    simpl in *. by rewrite He, He'.
  - inversion Hall as [|? ? He Hall']; subst.
    constructor; [by apply IH|].
    apply Forall_app. split; [done|].
    eapply Forall_impl; [done|]. intros e' He'. unfold turns_le.
    simpl in *. by rewrite He'.
Qed.

Lemma step_events_dl_ck st ns :
  step_events (dl_ck st ns) = (λ n, (n, st)) <$> ns.
Proof. unfold step_events, dl_ck. simpl. by rewrite <- list_fmap_compose. Qed.

(** The common part of the invariant after a step that leaves the turn
    count at [k'], not below the count before. *)
Lemma dialogue_inv_step st0 seed m h st ns st' ns' :
  dialogue_inv st0 seed m h (dl_ck st ns) →
  dl_max_num_turns st' = dl_max_num_turns st →
  (turn_count st ≤ turn_count st')%nat →
  (turn_count st' ≤ m)%nat →
  dialogue_phase st0 seed m (h ++ step_events (dl_ck st ns)) (dl_ck st' ns') →
  dialogue_inv st0 seed m (h ++ step_events (dl_ck st ns)) (dl_ck st' ns').
Proof.
  intros (Hmax & Hs & Hall & Hm & _) Hmax' Hle Hm' Hph.
  unfold dialogue_inv. simpl in *. split; [congruence|].
  split.
  { eapply sorted_snoc; [done..|]. rewrite step_events_dl_ck.
    by apply Forall_fmap, Forall_true. }
  split; [|done].
  apply Forall_app. split.
  - eapply Forall_impl; [done|]. simpl. intros; lia.
  - rewrite step_events_dl_ck. apply Forall_fmap, Forall_true. simpl. done.
Qed.

Ltac count_steps :=
  rewrite ?count_node_app;
  repeat match goal with
    | |- context [count_node ?n (step_events ?c)] =>
        let v := eval cbv in (count_node n (step_events c)) in
        change (count_node n (step_events c)) with v
    end.

Lemma dl_merge_messages st ms x :
  dl_messages st = Some ms →
  dl_messages (dl_merge st (dl_upd_messages x)) = Some (ms ++ x).
Proof. intros Hms. unfold dl_merge. simpl. by rewrite Hms. Qed.

(** Every step of the dialogue graph preserves the invariant and takes the
    run closer to its end. *)
Lemma dialogue_step st0 seed m :
  no_response seed →
  1 ≤ default 2 (dl_max_num_turns st0) →
  m = Z.to_nat (default 2 (dl_max_num_turns st0)) →
  ∀ h ck w ck' w',
    dialogue_inv st0 seed m h ck → node_cursor ck ≠ [] →
    superstep dialogue_builder ck w = (StepOk ck', w') →
    dialogue_inv st0 seed m (h ++ step_events ck) ck' ∧
    (dialogue_measure m ck' < dialogue_measure m ck)%nat.
Proof.
  intros Hseed Hmax1 Hm h ck w ck' w' Hinv Hcur Hstep.
  pose proof Hinv as (Hmax & Hs & Hall & Hle & Hph).
  inversion Hph as [st rounds Hms Hask Hsave Hlt Hsec
                   |st rounds q Hms Hask Hsave Hlt Hsec
                   |st rounds q Hms Hask Hsave Hlt Hsec
                   |st rounds Hms Hask Hsave Hlt Hconc Hsec
                   |st rounds Hms Hask Hsave Hlt Hconc Hsec
                   |st rounds x Hms Hask Hsave Hlt Hconc Hsec]; subst ck;
    simpl in Hmax, Hle.
  - (* ask_question *)
    rewrite step_ask_question in Hstep.
    destruct (generate_question st w) as [[u|e] w1] eqn:Hq; [|done].
    injection Hstep as <- <-.
    apply generate_question_ok in Hq as [c ->].
    pose proof (dl_merge_messages st _ [mkAI c] Hms) as Hms'.
    pose proof (turn_count_conversation _ _ _ Hms Hseed) as Hk.
    pose proof (turn_count_question _ _ _ _ Hms' Hseed) as Hk'.
    split.
    + apply dialogue_inv_step; [done|done|lia|lia|].
      eapply phase_search; [done| | |done|done]; count_steps; lia.
    + unfold dialogue_measure. simpl. lia.
  - (* search_web, search_wikipedia *)
    rewrite step_search in Hstep.
    destruct (search_web st w) as [[u1|e1] w1] eqn:Hsw;
      destruct (search_wikipedia st w1) as [[u2|e2] w2] eqn:Hwk; try done.
    injection Hstep as <- <-.
    apply search_web_ok in Hsw as [c1 ->].
    apply search_wikipedia_ok in Hwk as [c2 ->].
    pose proof (turn_count_question _ _ _ _ Hms Hseed) as Hk.
    assert (dl_messages (dl_merge (dl_merge st (dl_upd_context [c1]))
                           (dl_upd_context [c2])) = dl_messages st) as Hms'.
    { done. }
    assert (turn_count (dl_merge (dl_merge st (dl_upd_context [c1]))
                          (dl_upd_context [c2])) = turn_count st) as Hk'.
    { unfold turn_count. by rewrite Hms'. }
    split.
    + apply dialogue_inv_step; [done|done|lia|lia|].
      eapply phase_answer; [by rewrite Hms'| | |done|done]; count_steps; lia.
    + unfold dialogue_measure. simpl. rewrite Hk'. lia.
  - (* answer_question *)
    rewrite step_answer_question in Hstep.
    destruct (generate_answer st w) as [[u|e] w1] eqn:Ha; [|done].
    apply generate_answer_ok in Ha as [a ->].
    pose proof (dl_merge_messages st _ [local_answer a] Hms) as Hms'.
    rewrite <- app_assoc in Hms'.
    change ([mkAI q] ++ [local_answer a]) with [mkAI q; local_answer a] in Hms'.
    rewrite <- conversation_snoc in Hms'.
    rewrite (route_messages_rounds _ _ _ _ _ Hms' Hseed) in Hstep.
    pose proof (turn_count_question _ _ _ _ Hms Hseed) as Hk.
    pose proof (turn_count_conversation _ _ _ Hms' Hseed) as Hk'.
    rewrite length_app in Hk'. simpl in Hk'.
    assert (dl_max_num_turns (dl_merge st (dl_upd_messages [local_answer a]))
            = dl_max_num_turns st) as Hmax' by done.
    rewrite Hmax', Hmax in Hstep.
    destruct (Z.leb_spec (default 2 (dl_max_num_turns st0))
                (Z.of_nat (length rounds + 1))) as [Hge|Hlt'];
      simpl in Hstep.
    + injection Hstep as <- <-. split.
      * apply dialogue_inv_step; [done|done|lia|lia|].
        eapply phase_save; [done| | | | |done].
        -- count_steps. rewrite length_app. simpl. lia.
        -- count_steps. lia.
        -- rewrite length_app. simpl. lia.
        -- left. rewrite length_app. simpl. lia.
      * unfold dialogue_measure. simpl. lia.
    + destruct (str_contains closing_phrase q) eqn:Hq; simpl in Hstep;
        injection Hstep as <- <-.
      * split.
        -- apply dialogue_inv_step; [done|done|lia|lia|].
           eapply phase_save; [done| | | | |done].
           ++ count_steps. rewrite length_app. simpl. lia.
           ++ count_steps. lia.
           ++ rewrite length_app. simpl. lia.
           ++ right. by exists rounds, q, a.
        -- unfold dialogue_measure. simpl. lia.
      * split.
        -- apply dialogue_inv_step; [done|done|lia|lia|].
           eapply phase_ask; [done| | | |done].
           ++ count_steps. rewrite length_app. simpl. lia.
           ++ count_steps. lia.
           ++ rewrite length_app. simpl. lia.
        -- unfold dialogue_measure. simpl. lia.
  - (* save_dialogue *)
    rewrite step_save_dialogue in Hstep.
    destruct (save_dialogue st w) as [[u|e] w1] eqn:Hsv; [|done].
    injection Hstep as <- <-.
    apply save_dialogue_ok in Hsv as [d ->].
    assert (turn_count (dl_merge st (dl_upd_dialogue d)) = turn_count st)
      as Hk' by done.
    split.
    + apply dialogue_inv_step; [done|done|lia|lia|].
      eapply phase_write; [by apply Hms| | |done|done|done]; count_steps; lia.
    + unfold dialogue_measure. simpl. lia.
  - (* write_section *)
    rewrite step_write_section in Hstep.
    destruct (write_section st w) as [[u|e] w1] eqn:Hw; [|done].
    injection Hstep as <- <-.
    apply write_section_ok in Hw as [x ->].
    assert (turn_count (dl_merge st (dl_upd_sections [x])) = turn_count st)
      as Hk' by done.
    split.
    + apply dialogue_inv_step; [done|done|lia|lia|].
      eapply (phase_done _ _ _ _ _ _ x);
        [by apply Hms| | |done|done|]; [count_steps; lia..|].
      unfold dl_merge. simpl. by rewrite Hsec.
    + unfold dialogue_measure. simpl. lia.
  - (* the run has ended *)
    done.
Qed.

Lemma dialogue_inv_start st0 seed m :
  dl_messages st0 = Some seed → no_response seed → (1 ≤ m)%nat →
  dialogue_inv st0 seed m [] (start_checkpoint dialogue_builder st0).
Proof.
  intros Hms Hseed Hm.
  assert (dl_messages st0 = Some (conversation seed [])) as Hms0.
  { unfold conversation. simpl. by rewrite app_nil_r. }
  change (start_checkpoint dialogue_builder st0)
    with (dl_ck st0 ["ask_question"]).
  split; [done|]. split; [constructor|]. split; [constructor|].
  simpl. rewrite (turn_count_conversation _ _ _ Hms0 Hseed). simpl.
  split; [lia|]. eapply phase_ask; [done|done|done|simpl; lia|done].
Qed.

(** The tasks of the step taken from a checkpoint extend the trace in
    order, within the bounds. *)
Lemma dialogue_inv_events st0 seed m h ck :
  dialogue_inv st0 seed m h ck →
  StronglySorted turns_le (h ++ step_events ck) ∧
  Forall (λ e, (turn_count (snd e) ≤ m)%nat) (h ++ step_events ck) ∧
  (count_node "ask_question" (h ++ step_events ck) ≤ m)%nat.
Proof.
  intros (_ & Hs & Hall & Hle & Hph).
  assert (Forall (λ e : event dialogueState, snd e = state_snapshot ck)
            (step_events ck)) as Hev.
  { unfold step_events. by apply Forall_fmap, Forall_true. }
  split; [by eapply sorted_snoc|]. split.
  - apply Forall_app. split.
    + eapply Forall_impl; [done|]. simpl. intros; lia.
    + eapply Forall_impl; [done|]. simpl. intros e ->. done.
  - inversion Hph; subst ck; count_steps; lia.
Qed.

Lemma dialogue_not_interrupted (ck : Checkpoint dialogueState Empty_set) :
  at_interrupt dialogue_builder ck = false.
Proof.
  unfold at_interrupt. simpl. by induction (node_cursor ck).
Qed.

Lemma concluded_route st st0 seed m rounds :
  no_response seed →
  1 ≤ default 2 (dl_max_num_turns st0) →
  m = Z.to_nat (default 2 (dl_max_num_turns st0)) →
  dl_max_num_turns st = dl_max_num_turns st0 →
  dl_messages st = Some (conversation seed rounds) →
  (1 ≤ length rounds)%nat →
  concluded m rounds →
  route_messages st = Ok "save_dialogue".
Proof.
  intros Hseed Hmax1 Hm Hmax Hms Hlen Hconc.
  destruct (exists_last (l := rounds)) as (rs & [q a] & ->).
  { intros ->. simpl in Hlen. lia. }
  rewrite (route_messages_rounds _ _ _ _ _ Hms Hseed), Hmax.
  destruct Hconc as [Hc|(rs' & q' & a' & Heq & Hq)].
  - rewrite length_app in Hc. simpl in Hc.
    destruct (Z.leb_spec (default 2 (dl_max_num_turns st0))
                (Z.of_nat (length rs + 1))); [done|lia].
  - apply app_inj_tail in Heq as [_ Heq]. injection Heq as -> ->.
    rewrite Hq. by rewrite orb_true_r.
Qed.

End DialogueLoop.

(** ** Steps of the main graph *)

Section MainSteps.
Context `{Env}.

#[local] Arguments get_weather_info : simpl never.
#[local] Arguments create_travelers : simpl never.
#[local] Arguments feedback_traveler : simpl never.
#[local] Arguments conduct_dialogue_router : simpl never.
#[local] Arguments conduct_dialogue_sub : simpl never.
#[local] Arguments write_plan : simpl never.
#[local] Arguments tg_merge : simpl never.

Lemma step_get_weather_info st w :
  superstep builder (tg_ck st ["get_weather_info"]) w
  = match get_weather_info st w with
    | (Ok u, w') => (StepOk (tg_ck (tg_merge st u) ["create_travelers"]), w')
    | (Raise e, w') => (StepFailed "get_weather_info" e, w')
    end.
Proof.
  unfold superstep. cbn.
  by destruct (get_weather_info st w) as [[u|e] w'].
Qed.

Lemma step_create_travelers st w :
  superstep builder (tg_ck st ["create_travelers"]) w
  = match create_travelers st w with
    | (Ok u, w') =>
        (StepOk (tg_ck (tg_merge st u) ["human_feedback_traveler_node"]), w')
    | (Raise e, w') => (StepFailed "create_travelers" e, w')
    end.
Proof.
  unfold superstep. cbn.
  by destruct (create_travelers st w) as [[u|e] w'].
Qed.

Lemma dedup_send_tasks (seen : list string) (sends : list (string * send_arg)) :
  dedup_tasks seen (send_tasks sends) = send_tasks sends.
Proof. induction sends as [|s sends IH]; simpl; [done|]. by rewrite IH. Qed.

Lemma step_feedback_node st w :
  superstep builder (tg_ck st ["human_feedback_traveler_node"]) w
  = match conduct_dialogue_router st with
    | Ok (Goto n) =>
        if str_in n ["create_travelers"; "conduct_dialogue_sub"]
        then (StepOk (tg_ck st (if String.eqb n END then [] else [n])), w)
        else (StepFailed "human_feedback_traveler_node" (KeyError n), w)
    | Ok (Fanout sends) =>
        (StepOk {| state_snapshot := st; node_cursor := send_tasks sends |}, w)
    | Raise e => (StepFailed "human_feedback_traveler_node" e, w)
    end.
Proof.
  unfold superstep. cbn. unfold feedback_traveler, ret. cbn.
  unfold successor_tasks, branch_tasks. cbn. rewrite tg_merge_none.
  destruct (conduct_dialogue_router st) as [[n|sends]|e]; [| |done]; cbn.
  - destruct (_ || _); cbn; [|done]. by destruct (String.eqb n END).
  - rewrite !app_nil_r. fold (send_tasks sends).
    by rewrite dedup_send_tasks.
Qed.

Lemma step_write_plan st w :
  superstep builder (tg_ck st ["write_plan"]) w
  = match write_plan st w with
    | (Ok u, w') => (StepOk (tg_ck (tg_merge st u) []), w')
    | (Raise e, w') => (StepFailed "write_plan" e, w')
    end.
Proof.
  unfold superstep. cbn.
  by destruct (write_plan st w) as [[u|e] w'].
Qed.

Lemma router_fanout st :
  truthy (tg_human_feedback_traveler st) = false →
  conduct_dialogue_router st = Ok (Fanout (cds_sends (router_args st))).
Proof.
  intros Hf. unfold conduct_dialogue_router. rewrite Hf.
  unfold cds_sends, router_args. by rewrite <- list_fmap_compose.
Qed.

Lemma router_goto st :
  truthy (tg_human_feedback_traveler st) = true →
  conduct_dialogue_router st = Ok (Goto "create_travelers").
Proof. intros Hf. unfold conduct_dialogue_router. by rewrite Hf. Qed.

Lemma exec_tasks_sends st args w rs w' :
  exec_tasks builder st (send_tasks (cds_sends args)) w = (rs, w') →
  Forall2 (λ a r, fst r = "conduct_dialogue_sub" ∧
                  ∃ wi wi', conduct_dialogue_sub a wi = (snd r, wi'))
    args rs.
Proof.
  revert w rs w'. induction args as [|a args IH]; intros w rs w' Hex;
    simpl in Hex.
  - injection Hex as <- <-. constructor.
  - change (exec_task builder st
              {| t_node := "conduct_dialogue_sub"; t_input := FromSend a |} w)
      with (conduct_dialogue_sub a w) in Hex.
    destruct (conduct_dialogue_sub a w) as [r w1] eqn:Hr.
    destruct (exec_tasks builder st (send_tasks (cds_sends args)) w1)
      as [rs' w2] eqn:Hrs.
    injection Hex as <- <-. constructor; [|by eapply IH].
    split; [done|]. by exists w, w1.
Qed.

Lemma collect_updates_ok {St} (rs : list (string * result St)) us :
  collect_updates rs = inr us → Forall2 (λ r u, snd r = Ok u) rs us.
Proof.
  revert us. induction rs as [|[n [u|e]] rs IH]; intros us Hc; simpl in Hc.
  - injection Hc as <-. constructor.
  - destruct (collect_updates rs) as [f|us'] eqn:Hus; [done|].
    injection Hc as <-. constructor; [done|]. by apply IH.
  - done.
Qed.

Lemma collect_updates_failed {St} (rs : list (string * result St)) n e :
  collect_updates rs = inl (n, e) → (n, Raise e) ∈ rs.
Proof.
  induction rs as [|[n' [u|e']] rs IH]; intros Hc; simpl in Hc.
  - done.
  - destruct (collect_updates rs) as [f|us'] eqn:Hus; [|done].
    injection Hc as ->. right. by apply IH.
  - injection Hc as -> ->. left.
Qed.

Lemma next_tasks_sends st args :
  next_tasks builder st (t_node <$> send_tasks (cds_sends args))
  = inr (replicate (length args) (plain_task "write_plan")).
Proof.
  induction args as [|a args IH]; [done|].
  change (next_tasks builder st (t_node <$> send_tasks (cds_sends (a :: args))))
    with (match successor_tasks builder st "conduct_dialogue_sub" with
          | Raise e => inl ("conduct_dialogue_sub", e)
          | Ok ts =>
              match next_tasks builder st
                      (t_node <$> send_tasks (cds_sends args)) with
              | inl f => inl f
              | inr ts' => inr (ts ++ ts')
              end
          end).
  by rewrite IH.
Qed.

Lemma dedup_replicate seen n (t : task send_arg) :
  t_input t = FromState → str_in (t_node t) seen = true →
  dedup_tasks seen (replicate n t) = [].
Proof.
  intros Hin Hseen. induction n as [|n IH]; [done|].
  simpl. by rewrite Hin, Hseen.
Qed.

Lemma step_fanout st a args w :
  superstep builder
    {| state_snapshot := st; node_cursor := send_tasks (cds_sends (a :: args)) |}
    w
  = match exec_tasks builder st (send_tasks (cds_sends (a :: args))) w with
    | (rs, w') =>
        match collect_updates rs with
        | inl (n, e) => (StepFailed n e, w')
        | inr us => (StepOk (tg_ck (fold_left tg_merge us st) ["write_plan"]), w')
        end
    end.
Proof.
  unfold superstep.
  cbn [state_snapshot node_cursor].
  destruct (exec_tasks builder st (send_tasks (cds_sends (a :: args))) w)
    as [rs w'].
  destruct (collect_updates rs) as [[n e]|us]; [done|].
  rewrite next_tasks_sends. simpl.
  rewrite dedup_replicate; done.
Qed.

(** Merging the sections of finished dialogues. *)
Lemma fold_merge_sections us st :
  Forall (λ u, ∃ x, u = tg_upd_sections [x]) us →
  ∃ secs,
    length secs = length us ∧
    tg_sections (fold_left tg_merge us st)
    = merge_append (tg_sections st) (if us is [] then None else Some secs) ∧
    keeps_inputs st (fold_left tg_merge us st).
Proof.
  intros Hus. revert st. induction Hus as [|u us [x ->] _ IH]; intros st.
  - exists []. by repeat split.
  - simpl. destruct (IH (tg_merge st (tg_upd_sections [x])))
      as (secs & Hlen & Hsec & Hk).
    exists (x :: secs). split; [simpl; by rewrite Hlen|]. split.
    + rewrite Hsec.
      change (tg_sections (tg_merge st (tg_upd_sections [x])))
        with (merge_append (tg_sections st) (Some [x])).
      destruct us as [|u us]; simpl.
      * by destruct secs.
      * by rewrite <- app_assoc.
    + destruct Hk as (? & ? & ? & ? & ? & ? & ?). by repeat split.
Qed.

(** A dialogue started by the router contributes exactly one section. *)
Lemma conduct_dialogue_sub_ok arg city t w u w' :
  arg_state arg = dialogue_seed city t →
  conduct_dialogue_sub arg w = (Ok u, w') →
  ∃ x, u = tg_upd_sections [x].
Proof.
  intros Harg Hsub. unfold conduct_dialogue_sub in Hsub. rewrite Harg in Hsub.
  set (st0 := dialogue_seed city t) in *.
  set (seed := [mkHuman ("So you said you plan to have a trip on "
                         ++ city ++ "?")%string]).
  destruct (run recursion_limit dialogue_builder false
              (start_checkpoint dialogue_builder st0) w)
    as [[evs o] w1] eqn:Hrun.
  destruct o as [st|ck|n e ck|ck]; try done.
  injection Hsub as <- <-.
  assert (no_response seed) as Hseed by (repeat constructor).
  assert (dialogue_inv st0 seed 2 [] (start_checkpoint dialogue_builder st0))
    as Hinit.
  { apply dialogue_inv_start; [done|done|lia]. }
  pose proof (dialogue_step st0 seed 2 Hseed ltac:(simpl; lia) eq_refl)
    as Hstep.
  destruct (run_history dialogue_builder (dialogue_inv st0 seed 2)
              (λ h ck w ck' w' HI Hc Hs, proj1 (Hstep h ck w ck' w' HI Hc Hs))
              _ false [] _ w evs _ w1 Hinit Hrun) as [_ Ho].
  destruct Ho as (ck & (_ & _ & _ & _ & Hph) & Hcur & <-).
  inversion Hph as [| | | | |st rounds x Hmsg Hask Hsave Hlen Hconc Hsec];
    subst ck; try done.
  exists x. unfold dialogue_output. simpl. by rewrite Hsec.
Qed.

Lemma get_weather_info_ok st w u w' :
  get_weather_info st w = (Ok u, w') → ∃ wth, u = tg_upd_weather wth.
Proof.
  unfold get_weather_info, bind, ret, try_except. intros Hg.
  repeat case_match; simplify_eq; by eexists.
Qed.

Lemma create_travelers_ok st w u w' :
  create_travelers st w = (Ok u, w') →
  created st ∧ ∃ ts, u = tg_upd_travelers ts.
Proof.
  unfold create_travelers, bind, ret, lift, index_key, created. intros Hc.
  repeat case_match; simplify_eq. by eauto.
Qed.

Lemma write_plan_ok st w u w' :
  write_plan st w = (Ok u, w') →
  is_Some (tg_human_feedback_plan st) ∧ ∃ p, u = tg_upd_final_plan p.
Proof.
  unfold write_plan, bind, ret, lift, index_key. intros Hc.
  repeat case_match; simplify_eq. by eauto.
Qed.

Lemma step_events_tg_ck st ns :
  step_events (tg_ck st ns) = (λ n, (n, st)) <$> ns.
Proof. unfold step_events, tg_ck. simpl. by rewrite <- list_fmap_compose. Qed.

Lemma step_events_sends (st : TravelGraphState) args :
  step_events {| state_snapshot := st;
                 node_cursor := send_tasks (cds_sends args) |}
  = replicate (length args) ("conduct_dialogue_sub", st).
Proof.
  induction args as [|a args IH]; [done|].
  unfold step_events in *. simpl in *. by f_equal.
Qed.

Lemma count_node_replicate {St} n m k (st : St) :
  count_node n (replicate k (m, st))
  = if String.eqb m n then k else 0%nat.
Proof.
  unfold count_node. induction k as [|k IH]; simpl.
  - by destruct (String.eqb m n).
  - destruct (String.eqb m n); simpl; by rewrite IH.
Qed.

Ltac count_main :=
  unfold early in *;
  rewrite ?count_node_app, ?step_events_sends, ?count_node_replicate;
  repeat match goal with
    | |- context [count_node ?n (step_events ?c)] =>
        let v := eval cbv in (count_node n (step_events c)) in
        change (count_node n (step_events c)) with v
    end;
  simpl; try lia.

Lemma router_args_seeds st :
  Forall (λ a, ∃ city t, arg_state a = dialogue_seed city t) (router_args st).
Proof.
  unfold router_args. apply Forall_fmap, Forall_true. simpl. by eauto.
Qed.

Lemma sends_updates args rs us :
  Forall (λ a, ∃ city t, arg_state a = dialogue_seed city t) args →
  Forall2 (λ a r, fst r = "conduct_dialogue_sub" ∧
                  ∃ wi wi', conduct_dialogue_sub a wi = (snd r, wi'))
    args rs →
  Forall2 (λ (r : string * result TravelGraphState) u, snd r = Ok u) rs us →
  Forall (λ u, ∃ x, u = tg_upd_sections [x]) us ∧ length us = length args.
Proof.
  intros Hseeds Hex. revert us.
  induction Hex as [|a r args rs [_ (wi & wi' & Hsub)] _ IH]; intros us Hus.
  - inversion Hus; subst. by split.
  - inversion Hus as [|? u ? us' Hr Hus']; subst.
    inversion Hseeds as [|? ? (city & t & Hseed) Hseeds']; subst.
    destruct (IH Hseeds' _ Hus') as [Hall Hlen].
    split; [|simpl; by rewrite Hlen].
    constructor; [|done]. rewrite Hr in Hsub.
    by eapply conduct_dialogue_sub_ok.
Qed.

(** Every step of the main graph preserves [main_phase]. *)
Lemma main_step input h ck w ck' w' :
  main_phase input h ck → node_cursor ck ≠ [] →
  superstep builder ck w = (StepOk ck', w') →
  main_phase input (h ++ step_events ck) ck'.
Proof.
  intros Hph Hcur Hstep.
  inversion Hph as [st Hun Hearly|st Hun Hearly|st Hun Hcr Hearly
                   |st a args Hun Hcr Hearly Hargs
                   |st st_f h' secs Hh Hearly Hun Hk Hcr Hlen Hpos Hsec
                   |st Hdone]; subst ck.
  - (* get_weather_info *)
    rewrite step_get_weather_info in Hstep.
    destruct (get_weather_info st w) as [[u|e] w1] eqn:Hg; [|done].
    injection Hstep as <- <-.
    apply get_weather_info_ok in Hg as [wth ->].
    apply mp_create; [done|]. split; count_main.
  - (* create_travelers *)
    rewrite step_create_travelers in Hstep.
    destruct (create_travelers st w) as [[u|e] w1] eqn:Hc; [|done].
    injection Hstep as <- <-.
    apply create_travelers_ok in Hc as [Hcr [ts ->]].
    apply mp_feedback; [done|done|]. split; count_main.
  - (* human_feedback_traveler_node and the router *)
    rewrite step_feedback_node in Hstep.
    destruct (truthy (tg_human_feedback_traveler st)) eqn:Hf.
    + rewrite (router_goto _ Hf) in Hstep. simpl in Hstep.
      injection Hstep as <- <-.
      apply mp_create; [done|]. split; count_main.
    + rewrite (router_fanout _ Hf) in Hstep.
      destruct (router_args st) as [|a args] eqn:Hargs;
        injection Hstep as <- <-.
      * apply (mp_done _ _ st). left. split; count_main.
      * apply mp_fanout; [done|done| |done]. split; count_main.
  - (* the dialogues *)
    rewrite step_fanout in Hstep.
    destruct (exec_tasks builder st (send_tasks (cds_sends (a :: args))) w)
      as [rs w1] eqn:Hex.
    destruct (collect_updates rs) as [[n e]|us] eqn:Hus; [done|].
    injection Hstep as <- <-.
    apply exec_tasks_sends in Hex. apply collect_updates_ok in Hus.
    pose proof (router_args_seeds st) as Hseeds. rewrite Hargs in Hseeds.
    destruct (sends_updates _ _ _ Hseeds Hex Hus) as [Hall Hlen].
    destruct (fold_merge_sections us st Hall) as (secs & Hls & Hsec & Hk).
    destruct us as [|u us]; [done|].
    rewrite step_events_sends.
    assert (length secs = length (a :: args)) as Hla by congruence.
    apply (mp_plan input _ _ st h secs).
    + by rewrite Hla.
    + done.
    + done.
    + done.
    + destruct Hk as (Hc & Hw & Hd & _). unfold created. by rewrite Hc, Hw, Hd.
    + rewrite Hla, <- Hargs. unfold router_args. by rewrite length_fmap.
    + rewrite Hla. simpl. lia.
    + rewrite Hsec. destruct Hun as [-> _]. done.
  - (* write_plan *)
    rewrite step_write_plan in Hstep.
    destruct (write_plan st w) as [[u|e] w1] eqn:Hw; [|done].
    injection Hstep as <- <-.
    apply write_plan_ok in Hw as [Hfb [p ->]].
    apply mp_done. right. split; [|split].
    + subst h. destruct Hearly as [He _]. count_main.
    + destruct Hk as (_ & _ & _ & _ & _ & Hp & _). destruct Hun as [_ Hp'].
      by rewrite <- Hp', <- Hp.
    + done.
  - done.
Qed.

Lemma sends_not_interrupted (st : TravelGraphState) args :
  at_interrupt builder
    {| state_snapshot := st; node_cursor := send_tasks (cds_sends args) |}
  = false.
Proof.
  unfold at_interrupt. simpl. induction args as [|a args IH]; [done|].
  simpl. apply IH.
Qed.

(** The feedback given at the interrupt preserves [main_phase]. *)
Lemma main_update input h ck u :
  main_phase input h ck → at_interrupt builder ck = true →
  feedback_update u →
  main_phase input h (update_state builder ck u).
Proof.
  intros Hph Hint [f ->].
  inversion Hph as [st Hun Hearly|st Hun Hearly|st Hun Hcr Hearly
                   |st a args Hun Hcr Hearly Hargs
                   |st st_f h' secs Hh Hearly Hun Hk Hcr Hlen Hpos Hsec
                   |st Hdone]; subst ck; try done.
  - change (update_state builder (tg_ck st ["human_feedback_traveler_node"])
              (tg_upd_human_feedback_traveler f))
      with (tg_ck (tg_merge st (tg_upd_human_feedback_traveler f))
              ["human_feedback_traveler_node"]).
    apply mp_feedback; [done|done|done].
  - by rewrite sends_not_interrupted in Hint.
Qed.

Lemma main_start input :
  main_phase input [] (start_checkpoint builder input).
Proof. by apply mp_weather. Qed.

End MainSteps.

(** ** Runs of the main graph (C1, C2, C7, C10) *)

Ltac in_list :=
  repeat first [apply list_elem_of_here | apply list_elem_of_further].

Section MainRuns.
Context `{Env}.

(** What [main_phase] gives for a driven run from the start. *)
Lemma start_run_history fuel input feedbacks w evs o w' :
  start_run fuel input feedbacks w = ((evs, o), w') →
  trace_ok (main_phase input) [] evs ∧
  outcome_ok builder (main_phase input) evs o.
Proof.
  intros Hrun. unfold start_run in Hrun.
  eapply (drive_history builder (main_phase input) feedback_update);
    [| | |apply main_start|exact Hrun].
  - intros h ck w0 ck' w0'. apply main_step.
  - apply main_update.
  - apply Forall_fmap, Forall_true. intros f. by exists f.
Qed.

(** The checkpoint from which a [write_plan] task is taken. *)
Lemma write_plan_event input h ck a b st :
  main_phase input h ck →
  step_events ck = a ++ ("write_plan", st) :: b →
  a = [] ∧ b = [] ∧ ck = tg_ck st ["write_plan"].
Proof.
  intros Hph Hev.
  inversion Hph as [st1 Hun Hearly|st1 Hun Hearly|st1 Hun Hcr Hearly
                   |st1 a1 args Hun Hcr Hearly Hargs
                   |st1 st_f h' secs Hh Hearly Hun Hk Hcr Hlen Hpos Hsec
                   |st1 Hdone]; subst ck;
    rewrite ?step_events_tg_ck, ?step_events_sends in Hev; simpl in Hev.
  1-3: destruct a as [|? [|? ?]]; simplify_eq.
  - assert (("write_plan", st) ∈ replicate (S (length args))
                                   ("conduct_dialogue_sub", st1)) as Hin.
    { simpl. rewrite Hev. apply elem_of_app. right. left. }
    apply elem_of_replicate in Hin as [Heq _]. simplify_eq.
  - destruct a as [|? [|? ?]]; simpl in Hev; simplify_eq; done.
  - by destruct a.
Qed.


Lemma count_node_pos {St} n (evs : list (event St)) :
  (0 < count_node n evs)%nat → ∃ st, (n, st) ∈ evs.
Proof.
  unfold count_node. induction evs as [|[m st] evs IH]; simpl; [lia|].
  destruct (String.eqb_spec m n) as [->|Hne]; simpl.
  - intros _. exists st. left.
  - intros Hpos. destruct (IH Hpos) as [st' Hin]. exists st'. by right.
Qed.

(** Before the run ends, [write_plan] has not run. *)
Lemma main_phase_no_plan input h ck :
  main_phase input h ck → node_cursor ck ≠ [] →
  count_node "write_plan" h = 0%nat.
Proof.
  intros Hph Hcur.
  inversion Hph as [st1 Hun [Hwp _]|st1 Hun [Hwp _]|st1 Hun Hcr [Hwp _]
                   |st1 a1 args Hun Hcr [Hwp _] Hargs
                   |st1 st_f h' secs Hh [Hwp _] Hun Hk Hcr Hlen Hpos Hsec
                   |st1 Hdone]; subst; try done.
  rewrite count_node_app, count_node_replicate. simpl. lia.
Qed.

(** On an input without plan feedback, [write_plan] fails when the run
    gets to it. *)
Lemma main_phase_write_plan_fails input h st w :
  tg_human_feedback_plan input = None →
  main_phase input h (tg_ck st ["write_plan"]) →
  write_plan st w = (Raise (KeyError "human_feedback_plan"), w).
Proof.
  intros Hnone Hph.
  inversion Hph as [| | | |st2 st_f h2 secs Hh Hearly [_ Hun] Hk Hcr
                            Hlen Hpos' Hsec|];
    simplify_eq.
  destruct Hk as (_ & _ & _ & _ & _ & Hp & _).
  destruct Hcr as ([? Hc] & [? Hw] & [? Hd]).
  unfold write_plan, bind, lift, index_key, raise.
  rewrite Hd, Hsec, Hc, Hw, Hp, Hun, Hnone. done.
Qed.

(** On an input without plan feedback, no task of a step sees one. *)
Lemma main_phase_plan_feedback input h ck :
  tg_human_feedback_plan input = None →
  main_phase input h ck →
  Forall (λ e, tg_human_feedback_plan (snd e) = None) (step_events ck).
Proof.
  intros Hnone Hph.
  inversion Hph as [st1 [_ Hun] Hearly|st1 [_ Hun] Hearly
                   |st1 [_ Hun] Hcr Hearly
                   |st1 a1 args [_ Hun] Hcr Hearly Hargs
                   |st1 st_f h' secs Hh Hearly [_ Hun] Hk Hcr Hlen Hpos Hsec
                   |st1 Hdone]; subst ck;
    rewrite ?step_events_tg_ck, ?step_events_sends.
  - apply Forall_fmap, Forall_true. simpl. congruence.
  - apply Forall_fmap, Forall_true. simpl. congruence.
  - apply Forall_fmap, Forall_true. simpl. congruence.
  - apply Forall_replicate. simpl. congruence.
  - destruct Hk as (_ & _ & _ & _ & _ & Hp & _).
    apply Forall_fmap, Forall_true. simpl. congruence.
  - constructor.
Qed.

(** C7. In a run of the main graph, before [write_plan] runs all [N]
    dialogues of the fan-out have run, on a snapshot whose travelers list
    has [N] elements, and no dialogue ran before them; the state that
    [write_plan] reads holds the sections of the input followed by [N] new
    ones, so exactly [N] sections when the input had none. *)
Theorem fan_out_join_barrier (fuel : nat) (input : TravelGraphState)
    (feedbacks : list feedback) (w : world) (i : nat)
    (st : TravelGraphState) :
  let evs := fst (fst (start_run fuel input feedbacks w)) in
  evs !! i = Some ("write_plan", st) →
  ∃ h' st_f secs,
    take i evs = h' ++ replicate (length secs) ("conduct_dialogue_sub", st_f) ∧
    count_node "conduct_dialogue_sub" h' = 0%nat ∧
    count_node "write_plan" h' = 0%nat ∧
    length secs = length (default [] (tg_travelers st_f)) ∧
    (1 ≤ length secs)%nat ∧
    tg_travelers st = tg_travelers st_f ∧
    tg_sections st_f = tg_sections input ∧
    tg_sections st = Some (default [] (tg_sections input) ++ secs) ∧
    (default [] (tg_sections input) = [] →
     length (default [] (tg_sections st))
     = length (default [] (tg_travelers st))).
Proof.
  intros evs Hi.
  destruct (start_run fuel input feedbacks w) as [[evs' o] w'] eqn:Hrun.
  simpl in evs. subst evs.
  destruct (start_run_history _ _ _ _ _ _ _ Hrun) as [Htrace _].
  destruct (Htrace (take i evs') ("write_plan", st) (drop (S i) evs'))
    as (h & ck & a & b & Hph & Hev & Hh).
  { symmetry. by apply take_drop_middle. }
  destruct (write_plan_event _ _ _ _ _ _ Hph Hev) as (-> & -> & ->).
  simpl in Hh. rewrite app_nil_r in Hh. subst h.
  inversion Hph as [| | | |st1 st_f h' secs Hh [Hwp Hcds] [Hsec0 _] Hk Hcr
                            Hlen Hpos Hsec|];
    simplify_eq.
  exists h', st_f, secs.
  destruct Hk as (_ & _ & _ & _ & _ & _ & Htr).
  repeat split; try done.
  intros Hnil. rewrite Hsec, Hnil, Htr. simpl. done.
Qed.

(** C10. [write_plan] indexes the state by key: if one of the keys [days],
    [sections], [city], [weather], [human_feedback_plan] is absent it
    raises [KeyError] without calling the model, and if only the plan
    feedback is absent the error names [human_feedback_plan].  In a run of
    the main graph no task changes the plan feedback, so on an input
    without it every state of the run is without it, and a run that gets
    to [write_plan] fails there with that [KeyError]. *)
Theorem write_plan_key_error (st input : TravelGraphState) (w : world) :
  (tg_days st = None ∨ tg_sections st = None ∨ tg_city st = None ∨
   tg_weather st = None ∨ tg_human_feedback_plan st = None →
   ∃ key, write_plan st w = (Raise (KeyError key), w) ∧
          key ∈ ["days"; "sections"; "city"; "weather";
                 "human_feedback_plan"]) ∧
  (is_Some (tg_days st) → is_Some (tg_sections st) →
   is_Some (tg_city st) → is_Some (tg_weather st) →
   tg_human_feedback_plan st = None →
   write_plan st w = (Raise (KeyError "human_feedback_plan"), w)) ∧
  (∀ fuel feedbacks evs o w',
     tg_human_feedback_plan input = None →
     start_run fuel input feedbacks w = ((evs, o), w') →
     Forall (λ e, tg_human_feedback_plan (snd e) = None) evs ∧
     ((0 < count_node "write_plan" evs)%nat →
      ∃ ck, o = Failed "write_plan" (KeyError "human_feedback_plan") ck)).
Proof.
  split; [|split].
  - intros Habs. unfold write_plan, bind, lift, index_key, raise.
    destruct (tg_days st); [|eexists; split; [done|in_list]].
    destruct (tg_sections st); [|eexists; split; [done|in_list]].
    destruct (tg_city st); [|eexists; split; [done|in_list]].
    destruct (tg_weather st); [|eexists; split; [done|in_list]].
    destruct (tg_human_feedback_plan st);
      [|eexists; split; [done|in_list]].
    exfalso. destruct Habs as [?|[?|[?|[?|?]]]]; done.
  - intros [? Hd] [? Hs] [? Hc] [? Hw] Hp.
    unfold write_plan, bind, lift, index_key, raise.
    by rewrite Hd, Hs, Hc, Hw, Hp.
  - intros fuel feedbacks evs o w' Hnone Hrun.
    destruct (start_run_history _ _ _ _ _ _ _ Hrun) as [Htrace Ho].
    pose proof (λ h ck, main_phase_plan_feedback input h ck Hnone) as Hevents.
    split.
    + apply Forall_forall. intros ev Hin.
      apply list_elem_of_split in Hin as (e1 & e2 & ->).
      destruct (Htrace e1 ev e2 eq_refl) as (h & ck & a & b & Hph & Hev & _).
      specialize (Hevents _ _ Hph). rewrite Hev in Hevents.
      apply Forall_app in Hevents as [_ Hevents].
      by inversion Hevents.
    + intros Hpos. simpl in Ho.
      destruct o as [st1|ck|n e ck|ck]; simpl in Ho.
      * destruct Ho as (ck & Hph & Hcur & _).
        inversion Hph as [| | | | |st2 [[Hwp _]|(_ & Hsome & _)]]; subst ck;
          try done; [lia|].
        rewrite Hnone in Hsome. by destruct Hsome.
      * destruct Ho as [Hph Hint].
        assert (node_cursor ck ≠ []) as Hcur.
        { intros Hnil. unfold at_interrupt in Hint. by rewrite Hnil in Hint. }
        pose proof (main_phase_no_plan _ _ _ Hph Hcur). lia.
      * destruct Ho as (h' & w1 & w2 & Hph & -> & Hfail).
        assert (node_cursor ck ≠ []) as Hcur.
        { intros Hnil. unfold superstep in Hfail. by rewrite Hnil in Hfail. }
        pose proof (main_phase_no_plan _ _ _ Hph Hcur) as Hno.
        rewrite count_node_app, Hno in Hpos. simpl in Hpos.
        apply count_node_pos in Hpos as [st1 Hin].
        apply list_elem_of_split in Hin as (a & b & Hev).
        destruct (write_plan_event _ _ _ _ _ _ Hph Hev) as (_ & _ & ->).
        rewrite step_write_plan in Hfail.
        rewrite (main_phase_write_plan_fails _ _ _ w1 Hnone Hph) in Hfail.
        injection Hfail as <- <- <-. by eexists.
      * destruct Ho as [Hph Hcur].
        pose proof (main_phase_no_plan _ _ _ Hph Hcur). lia.
Qed.

(** The gate of the plan feedback is written but not wired.
    [initiate_all_plans] returns [END] on empty or absent plan feedback
    and [write_plan] otherwise, but the compiled graph holds neither this
    router nor the node [feedback_plan]: its only conditional edge leaves
    [human_feedback_traveler_node], and [write_plan] is the static
    successor of [conduct_dialogue_sub].  So a successful fan-out step is
    followed by [write_plan] whatever the plan feedback is. *)
Theorem write_plan_follows_fan_out (st input : TravelGraphState) :
  (feedback_empty (tg_human_feedback_plan st) → initiate_all_plans st = END) ∧
  (¬ feedback_empty (tg_human_feedback_plan st) →
   initiate_all_plans st = "write_plan") ∧
  static_targets builder "conduct_dialogue_sub" = ["write_plan"] ∧
  Forall (λ b, fst b = "human_feedback_traveler_node") (g_branches builder) ∧
  assoc "feedback_plan" (g_nodes builder) = None ∧
  (∀ a args w ck' w',
     superstep builder
       {| state_snapshot := st;
          node_cursor := send_tasks (cds_sends (a :: args)) |} w
     = (StepOk ck', w') →
     node_cursor ck' = [plain_task "write_plan"]) ∧
  (∀ fuel feedbacks w evs st' w',
     start_run fuel input feedbacks w = ((evs, Completed st'), w') →
     (0 < count_node "conduct_dialogue_sub" evs)%nat →
     count_node "write_plan" evs = 1%nat ∧ is_Some (tg_final_plan st')).
Proof.
  split; [|split; [|split; [|split; [|split; [|split]]]]].
  - intros Hf. apply truthy_false_iff in Hf. unfold initiate_all_plans.
    by rewrite Hf.
  - intros Hf. apply truthy_true_iff in Hf. unfold initiate_all_plans.
    by rewrite Hf.
  - reflexivity.
  - by repeat constructor.
  - reflexivity.
  - intros a args w ck' w' Hstep. rewrite step_fanout in Hstep.
    destruct (exec_tasks _ _ _ _) as [rs w1].
    destruct (collect_updates rs) as [[n e]|us]; [done|].
    by injection Hstep as <- <-.
  - intros fuel feedbacks w evs st' w' Hrun Hpos.
    destruct (start_run_history _ _ _ _ _ _ _ Hrun) as [_ Ho].
    destruct Ho as (ck & Hph & Hcur & <-).
    inversion Hph as [| | | | |st2 [[_ Hcds]|(Hwp & _ & Hfp)]]; subst ck;
      try done. lia.
Qed.

(** C2. On non-empty traveler feedback the router returns
    [create_travelers]; on empty or absent feedback it returns one [Send]
    to [conduct_dialogue_sub] per traveler of the state, in order, and the
    step that resumes the run at the interrupt leaves the state as it is
    and schedules exactly these dialogues, so [create_travelers] does not
    run again. *)
Theorem conduct_dialogue_router_spec (state : TravelGraphState) (w : world) :
  let feedbacks := tg_human_feedback_traveler state in
  let travelers := default [] (tg_travelers state) in
  (¬ feedback_empty feedbacks →
   conduct_dialogue_router state = Ok (Goto "create_travelers")) ∧
  (feedback_empty feedbacks →
   ∃ sends,
     conduct_dialogue_router state = Ok (Fanout sends) ∧
     length sends = length travelers ∧
     (∀ i t, travelers !! i = Some t →
        ∃ arg, sends !! i = Some ("conduct_dialogue_sub", arg) ∧
               dl_traveler (arg_state arg) = Some t) ∧
     superstep builder (tg_ck state ["human_feedback_traveler_node"]) w
     = (StepOk {| state_snapshot := state; node_cursor := send_tasks sends |},
        w) ∧
     Forall (λ t, t_node t = "conduct_dialogue_sub") (send_tasks sends)).
Proof.
  intros feedbacks travelers. split.
  - intros Hf. apply truthy_true_iff in Hf. by apply router_goto.
  - intros Hf. apply truthy_false_iff in Hf.
    exists (cds_sends (router_args state)).
    split; [by apply router_fanout|].
    split; [unfold cds_sends, router_args; by rewrite !length_fmap|].
    split; [|split].
    + intros i t Hi. unfold cds_sends, router_args.
      rewrite !list_lookup_fmap. fold travelers. rewrite Hi. simpl.
      by eexists.
    + rewrite step_feedback_node. by rewrite (router_fanout _ Hf).
    + unfold send_tasks, cds_sends. by apply Forall_fmap, Forall_fmap, Forall_true.
Qed.

End MainRuns.

(** C7 on a run of the reference instance with two travelers. *)
Lemma fan_out_join_barrier_witness :
  length (default [] (tg_sections Reference.kyoto_plan_state)) = 2%nat.
Proof.
  assert (fst (fst (@start_run _ _ Reference.online 10 Reference.kyoto
                      [None] 0%nat)) !! 5%nat
          = Some ("write_plan", Reference.kyoto_plan_state)) as Hi
    by (vm_compute; reflexivity).
  pose proof (@fan_out_join_barrier _ _ Reference.online 10 Reference.kyoto
                [None] 0%nat 5%nat Reference.kyoto_plan_state Hi) as Hjoin.
  destruct Hjoin as (h' & st_f & secs & _ & _ & _ & _ & _ & _ & _ & _ & Hlen).
  exact (Hlen eq_refl).
Defined.

(** C1. The code does not keep the policy that the claim states and that
    [initiate_all_plans] implements.  On the input Kyoto, three days, two
    travelers, resumed with the traveler feedback [None]: with an empty
    plan feedback the run executes [write_plan] on a state on which
    [initiate_all_plans] returns [END], and completes with a final plan;
    without the key [human_feedback_plan] it executes [write_plan] too,
    again on a state on which [initiate_all_plans] returns [END], and
    fails there with the [KeyError] of the missing feedback. *)
Lemma plan_feedback_not_gated :
  (∃ evs st w',
     @start_run _ _ Reference.online 10 Reference.kyoto_reviewed [None] 0%nat
     = ((evs, Completed st), w') ∧
     feedback_empty (tg_human_feedback_plan Reference.kyoto_reviewed) ∧
     evs !! 5%nat = Some ("write_plan", Reference.kyoto_reviewed_plan_state) ∧
     initiate_all_plans Reference.kyoto_reviewed_plan_state = END ∧
     tg_final_plan st = Some "What should I see?") ∧
  (∃ evs ck w',
     @start_run _ _ Reference.online 10 Reference.kyoto [None] 0%nat
     = ((evs, Failed "write_plan" (KeyError "human_feedback_plan") ck), w') ∧
     tg_human_feedback_plan Reference.kyoto = None ∧
     evs !! 5%nat = Some ("write_plan", Reference.kyoto_plan_state) ∧
     initiate_all_plans Reference.kyoto_plan_state = END).
Proof.
  split.
  - assert (@start_run _ _ Reference.online 10 Reference.kyoto_reviewed
              [None] 0%nat = Reference.kyoto_reviewed_run) as Hrun
      by (vm_compute; reflexivity).
    unfold Reference.kyoto_reviewed_run in Hrun.
    eexists _, _, _. split; [exact Hrun|].
    split; [by right; right|].
    split; [reflexivity|]. split; reflexivity.
  - assert (@start_run _ _ Reference.online 10 Reference.kyoto [None] 0%nat
            = Reference.kyoto_run) as Hrun
      by (vm_compute; reflexivity).
    unfold Reference.kyoto_run in Hrun.
    eexists _, _, _. split; [exact Hrun|].
    split; [reflexivity|]. split; reflexivity.
Qed.

(** ** The forecast lookup degrades (C8) *)

Section WeatherDegrades.
Context `{Env}.

Lemma get_weather_never_raises city days w :
  ∃ weather w', get_weather city days w = (Ok weather, w').
Proof.
  unfold get_weather, try_except, ret.
  destruct (String.eqb OPENWEATHER_KEY EmptyString); [by eauto|].
  destruct (get_weather_try city days w) as [[l|e] w']; by eauto.
Qed.

(** X1 (the property of claim C8). [get_weather] never raises.  Without
    an API key it returns the one-element list of the error marker and
    calls no collaborator; when the body of its [try]
    block raises any exception it returns the one-element list of the
    marker that holds the message of the exception, and the body raises
    when the geocoding call raises, when it finds no hit, and when the
    forecast call raises.  The node [get_weather_info] returns the list as
    the [weather] of its update, the state store holds it unchanged, and
    the step of the run succeeds with [create_travelers] next. *)
Theorem get_weather_degrades (state : TravelGraphState) (w : world) :
  let city := default "tokyo" (tg_city state) in
  let days := default 5 (tg_days state) in
  ∃ weather w',
    get_weather city days w = (Ok weather, w') ∧
    get_weather_info state w = (Ok (tg_upd_weather weather), w') ∧
    tg_weather (tg_merge state (tg_upd_weather weather)) = Some weather ∧
    superstep builder (tg_ck state ["get_weather_info"]) w
    = (StepOk (tg_ck (tg_merge state (tg_upd_weather weather))
                 ["create_travelers"]), w') ∧
    (OPENWEATHER_KEY = EmptyString →
     weather = [ErrorMarker "OpenWeather API key not set"] ∧ w' = w) ∧
    (OPENWEATHER_KEY ≠ EmptyString →
     ∀ e w1, get_weather_try city days w = (Raise e, w1) →
       weather = [ErrorMarker ("Failed to get weather information: "
                               ++ exn_str e)%string] ∧ w' = w1) ∧
    (∀ e w1, nominatim_search city w = (Raise e, w1) →
       get_weather_try city days w = (Raise e, w1)) ∧
    (∀ w1, nominatim_search city w = (Ok [], w1) →
       get_weather_try city days w
       = (Raise (ValueError ("Cannot resolve coordinates for '"
                             ++ city ++ "'")%string), w1)) ∧
    (∀ s la lo e w1 w2,
       get_latlon city w = (Ok s, w1) →
       unpack_latlon s = Ok (la, lo) →
       openweather_forecast la lo w1 = (Raise e, w2) →
       get_weather_try city days w = (Raise e, w2)).
Proof.
  intros city days.
  destruct (get_weather_never_raises city days w) as (weather & w' & Hgw).
  exists weather, w'.
  assert (get_weather_info state w = (Ok (tg_upd_weather weather), w'))
    as Hinfo.
  { unfold get_weather_info, bind, try_except, ret. fold city days.
    by rewrite Hgw. }
  split; [done|]. split; [done|]. split; [done|]. split.
  { rewrite step_get_weather_info. by rewrite Hinfo. }
  split; [|split; [|split; [|split]]].
  - intros Hkey. unfold get_weather, ret in Hgw. rewrite Hkey in Hgw.
    simpl in Hgw. by injection Hgw as <- <-.
  - intros Hkey e w1 Htry. unfold get_weather, try_except, ret in Hgw.
    apply String.eqb_neq in Hkey. rewrite Hkey, Htry in Hgw.
    by injection Hgw as <- <-.
  - intros e w1 Hgeo. unfold get_weather_try, get_latlon, bind.
    by rewrite Hgeo.
  - intros w1 Hgeo. unfold get_weather_try, get_latlon, bind, raise.
    by rewrite Hgeo.
  - intros s la lo e w1 w2 Hll Hun Hfc. unfold get_weather_try, bind, lift.
    by rewrite Hll, Hun, Hfc.
Qed.

End WeatherDegrades.

(** ** The order of strings *)

Lemma str_compare_refl (s : string) : String.compare s s = Eq.
Proof.
  pose proof (String.compare_antisym s s) as Ha.
  by destruct (String.compare s s).
Qed.

Lemma str_lt_trans (a b c : string) : str_lt a b → str_lt b c → str_lt a c.
Proof.
  unfold str_lt, String.ltb. intros Hab Hbc.
  destruct (String.compare a b) eqn:Eab; try done.
  destruct (String.compare b c) eqn:Ebc; try done.
  apply String_as_OT.cmp_lt in Eab, Ebc.
  pose proof (String_as_OT.lt_trans _ _ _ Eab Ebc) as Hac.
  apply String_as_OT.cmp_lt in Hac. unfold String_as_OT.cmp in Hac.
  by rewrite Hac.
Qed.

Lemma str_le_lt_eq (a b : string) : str_le a b ↔ str_lt a b ∨ a = b.
Proof.
  unfold str_le, str_lt, String.leb, String.ltb. split.
  - destruct (String.compare a b) eqn:E; try done; [|by left].
    intros _. right. by apply String.compare_eq_iff.
  - intros [Hlt| ->]; [by destruct (String.compare a b)|].
    by rewrite str_compare_refl.
Qed.

Lemma str_lt_irrefl (a : string) : ¬ str_lt a a.
Proof. unfold str_lt, String.ltb. by rewrite str_compare_refl. Qed.

#[global] Instance str_le_transitive : Transitive str_le.
Proof.
  intros a b c Hab Hbc. apply str_le_lt_eq in Hab, Hbc. apply str_le_lt_eq.
  destruct Hab as [Hab| ->], Hbc as [Hbc| ->]; auto.
  left. by eapply str_lt_trans.
Qed.

#[global] Instance str_le_total : Total str_le.
Proof. intros a b. apply String.leb_total. Qed.

Section ItemOrder.
Context `{Num}.

#[global] Instance item_le_transitive : Transitive item_le.
Proof. intros x y z. unfold item_le. apply str_le_transitive. Qed.

#[global] Instance item_le_total : Total item_le.
Proof. intros x y. unfold item_le. apply str_le_total. Qed.

(** Sorted by [<=] on keys that are pairwise distinct is sorted by [<]. *)
Lemma sorted_keys_strict (l : list (string * day_acc)) :
  StronglySorted item_le l → NoDup (fst <$> l) →
  StronglySorted str_lt (fst <$> l).
Proof.
  induction 1 as [|x l Hs IH Hall]; intros Hnd; simpl; [constructor|].
  apply NoDup_cons in Hnd as [Hx Hnd].
  constructor; [by apply IH|].
  apply Forall_fmap. apply Forall_forall. intros y Hy.
  rewrite Forall_forall in Hall. specialize (Hall y Hy).
  apply str_le_lt_eq in Hall as [Hlt|Heq]; [done|].
  exfalso. apply Hx. rewrite Heq. apply list_elem_of_fmap. by exists y.
Qed.

End ItemOrder.

(** ** [max] and [min] *)

Section Extremum.
Context {A : Type}.

(** The candidate that [max] and [min] keep while they scan a list. *)
Lemma fold_extremum_in (replaces : A → A → bool) (l : list A) (x : A) :
  let m := fold_left (λ cur y, if replaces y cur then y else cur) l x in
  m = x ∨ m ∈ l.
Proof.
  revert x. induction l as [|y l IH]; intros x; simpl; [by left|].
  destruct (IH (if replaces y x then y else x)) as [Hm|Hm].
  - destruct (replaces y x); [right; rewrite Hm; left|by left].
  - right. by right.
Qed.

(** With a transitive [lt], a candidate that is not below [z] stays so
    when the scan replaces it by elements above it. *)
Lemma fold_extremum_keeps (lt : A → A → bool) (l : list A) (x z : A) :
  (∀ a b c, lt a b = true → lt b c = true → lt a c = true) →
  lt x z = false →
  lt (fold_left (λ cur y, if lt cur y then y else cur) l x) z = false.
Proof.
  intros Htrans. revert x. induction l as [|y l IH]; intros x Hx; simpl;
    [done|].
  apply IH. destruct (lt x y) eqn:Hxy; [|done].
  destruct (lt y z) eqn:Hyz; [|done].
  by rewrite (Htrans _ _ _ Hxy Hyz) in Hx.
Qed.

(** The scan ends on an element of the list that is below none of them. *)
Lemma fold_extremum_max (lt : A → A → bool) (l : list A) (x : A) :
  (∀ a, lt a a = false) →
  (∀ a b c, lt a b = true → lt b c = true → lt a c = true) →
  let m := fold_left (λ cur y, if lt cur y then y else cur) l x in
  m ∈ x :: l ∧ ∀ z, z ∈ x :: l → lt m z = false.
Proof.
  intros Hirr Htrans m. split.
  - destruct (fold_extremum_in (λ y cur, lt cur y) l x) as [Hm|Hm].
    + subst m. rewrite Hm. left.
    + by right.
  - subst m. revert x. induction l as [|y l IH]; intros x z Hz.
    + apply list_elem_of_singleton in Hz as ->. simpl. apply Hirr.
    + simpl. apply elem_of_cons in Hz as [->|Hz].
      * apply fold_extremum_keeps; [done|].
        destruct (lt x y) eqn:Hxy; [|apply Hirr].
        destruct (lt y x) eqn:Hyx; [|done].
        pose proof (Htrans _ _ _ Hxy Hyx) as Hxx. by rewrite Hirr in Hxx.
      * apply elem_of_cons in Hz as [->|Hz].
        -- apply fold_extremum_keeps; [done|].
           destruct (lt x y) eqn:Hxy; [apply Hirr|done].
        -- apply IH. by right.
Qed.

(** With integer keys the scan ends on the first element of maximal key. *)
Lemma fold_max_key_first (key : A → nat) (l : list A) (x : A) :
  let m := fold_left (λ cur y, if (key cur <? key y)%nat then y else cur)
             l x in
  ∃ pre post,
    x :: l = pre ++ m :: post ∧
    (∀ a, a ∈ pre → (key a < key m)%nat) ∧
    (∀ a, a ∈ post → (key a ≤ key m)%nat).
Proof.
  revert x. induction l as [|y l IH]; intros x; simpl.
  - exists [], []. split; [done|]. split; intros a Ha; by inversion Ha.
  - destruct (Nat.ltb_spec (key x) (key y)) as [Hlt|Hge].
    + destruct (IH y) as (pre & post & Heq & Hpre & Hpost).
      exists (x :: pre), post. split; [simpl; by rewrite Heq|].
      split; [|done]. intros a Ha.
      apply elem_of_cons in Ha as [->|Ha]; [|by apply Hpre].
      destruct pre as [|p pre]; simpl in Heq.
      * injection Heq as Heq _. by rewrite <- Heq.
      * injection Heq as -> _. specialize (Hpre p ltac:(left)). lia.
    + destruct (IH x) as (pre & post & Heq & Hpre & Hpost).
      destruct pre as [|p pre]; simpl in Heq.
      * injection Heq as Heq ->. exists [], (y :: post).
        split; [simpl; by rewrite <- Heq|]. split.
        -- intros a Ha. by inversion Ha.
        -- intros a Ha. apply elem_of_cons in Ha as [->|Ha];
             [by rewrite <- Heq|by apply Hpost].
      * injection Heq as Hx Hl. exists (x :: y :: pre), post.
        split; [simpl; by rewrite <- Hl|]. split; [|done]. intros a Ha.
        apply elem_of_cons in Ha as [->|Ha];
          [apply Hpre; rewrite Hx; left|].
        apply elem_of_cons in Ha as [->|Ha].
        -- specialize (Hpre p ltac:(left)). rewrite <- Hx in Hpre. lia.
        -- apply Hpre. by right.
Qed.

End Extremum.

Section PyExtremum.
Context `{Number}.

Lemma py_max_spec (x : num) (l : list num) :
  strict_order → ∃ m, py_max (x :: l) = Ok m ∧ max_of (x :: l) m.
Proof.
  intros [Hirr Htrans]. eexists. split; [done|].
  by apply (fold_extremum_max num_ltb).
Qed.

Lemma py_min_spec (x : num) (l : list num) :
  strict_order → ∃ m, py_min (x :: l) = Ok m ∧ min_of (x :: l) m.
Proof.
  intros [Hirr Htrans]. eexists. split; [done|].
  apply (fold_extremum_max (λ a b, num_ltb b a)); [done|].
  intros a b c Hab Hbc. by eapply Htrans.
Qed.

Lemma py_max_key_spec (ds : list string) (x : string) (order : list string) :
  ∃ m, py_max_key (str_count ds) (x :: order) = Ok m ∧
       first_most_frequent m (x :: order) ds.
Proof.
  eexists. split; [done|]. apply fold_max_key_first.
Qed.

End PyExtremum.

(** ** The aggregation of [get_weather] *)

Lemma rmapM_Forall2 {A B} (f : A → result B) (P : A → B → Prop) (l : list A) :
  Forall (λ x, ∃ y, f x = Ok y ∧ P x y) l →
  ∃ ys, rmapM f l = Ok ys ∧ Forall2 P l ys.
Proof.
  induction 1 as [|x l (y & Hy & HP) _ (ys & Hys & IH)]; simpl.
  - by exists [].
  - exists (y :: ys). rewrite Hy, Hys. split; [done|]. by constructor.
Qed.

Lemma Forall2_keyed {A B C} (f : A → C) (g : B → C) (Q : B → Prop)
    (l : list A) (out : list B) :
  Forall2 (λ x y, g y = f x ∧ Q y) l out →
  g <$> out = f <$> l ∧ Forall Q out.
Proof.
  induction 1 as [|x y l out [Hk HQ] _ [IHk IHQ]]; [done|].
  split; [|by constructor]. rewrite !fmap_cons. by rewrite Hk, IHk.
Qed.

Lemma slice_to_take {A} (n : Z) (l : list A) :
  0 ≤ n → slice_to n l = take (Z.to_nat n) l.
Proof.
  intros Hn. unfold slice_to.
  destruct (Z.leb_spec 0 n) as [_|Hlt]; [done|lia].
Qed.


Lemma slice_to_fmap {A B} (f : A → B) (n : Z) (l : list A) :
  f <$> slice_to n l = slice_to n (f <$> l).
Proof.
  unfold slice_to. rewrite length_fmap. destruct (0 <=? n); apply fmap_take.
Qed.

Lemma slice_to_subseteq {A} (n : Z) (l : list A) : slice_to n l ⊆ l.
Proof. unfold slice_to. destruct (0 <=? n); apply subseteq_take. Qed.

Section Aggregation.
Context `{Env}.

Lemma add_sample_raw (daily : gmap string day_acc) (s : sample) :
  add_sample daily (raw_of s)
  = Ok (<[sample_date s :=
            let rec := default empty_acc (daily !! sample_date s) in
            {| temps := temps rec ++ [s_temp s];
               descs := descs rec ++ [s_desc s];
               pops := pops rec ++ [sample_pop s] |}]> daily).
Proof. reflexivity. Qed.

Lemma acc_of_snoc (on : list sample) (s : sample) :
  acc_of (on ++ [s])
  = {| temps := temps (acc_of on) ++ [s_temp s];
       descs := descs (acc_of on) ++ [s_desc s];
       pops := pops (acc_of on) ++ [sample_pop s] |}.
Proof. unfold acc_of. simpl. by rewrite !fmap_app. Qed.

Lemma samples_on_snoc (d : string) (ss : list sample) (s : sample) :
  samples_on d (ss ++ [s])
  = samples_on d ss ++ (if decide (sample_date s = d) then [s] else []).
Proof.
  unfold samples_on. by rewrite filter_app.
Qed.

Lemma samples_on_elem (d : string) (ss : list sample) :
  samples_on d ss ≠ [] ↔ d ∈ sample_date <$> ss.
Proof.
  unfold samples_on. split.
  - intros Hne. destruct (filter _ ss) as [|s on] eqn:Hf; [done|].
    assert (s ∈ filter (λ s, sample_date s = d) ss) as Hs
      by (rewrite Hf; left).
    apply list_elem_of_filter in Hs as [Hd Hs].
    apply list_elem_of_fmap. by exists s.
  - intros Hd Hnil. apply list_elem_of_fmap in Hd as (s & -> & Hs).
    assert (s ∈ filter (λ s0, sample_date s0 = sample_date s) ss) as Hin
      by by apply list_elem_of_filter.
    rewrite Hnil in Hin. by inversion Hin.
Qed.

Lemma holds_samples_empty : holds_samples ∅ [].
Proof. intros d. by rewrite lookup_empty. Qed.

Lemma add_sample_holds (daily : gmap string day_acc) (ss : list sample)
    (s : sample) :
  holds_samples daily ss →
  ∃ daily', add_sample daily (raw_of s) = Ok daily' ∧
            holds_samples daily' (ss ++ [s]).
Proof.
  intros Hd. eexists. split; [apply add_sample_raw|].
  intros d. rewrite samples_on_snoc.
  destruct (decide (sample_date s = d)) as [<-|Hne].
  - rewrite lookup_insert_eq, (Hd (sample_date s)).
    destruct (samples_on (sample_date s) ss) as [|s0 on]; [done|].
    simpl. f_equal. unfold acc_of. simpl. by rewrite !fmap_app.
  - rewrite lookup_insert_ne by done. rewrite app_nil_r. apply Hd.
Qed.

Lemma fold_add_sample (ss ss0 : list sample) (daily : gmap string day_acc) :
  holds_samples daily ss0 →
  ∃ daily', rfoldM add_sample daily (raw_of <$> ss) = Ok daily' ∧
            holds_samples daily' (ss0 ++ ss).
Proof.
  revert ss0 daily. induction ss as [|s ss IH]; intros ss0 daily Hd.
  - exists daily. by rewrite app_nil_r.
  - destruct (add_sample_holds daily ss0 s Hd) as (daily1 & Hadd & Hd1).
    rewrite fmap_cons. cbn [rfoldM]. rewrite Hadd. cbn [rbind].
    destruct (IH (ss0 ++ [s]) daily1 Hd1) as (daily' & Hfold & Hd').
    exists daily'. split; [done|]. by rewrite <- app_assoc in Hd'.
Qed.

Lemma holds_samples_lookup (daily : gmap string day_acc) (ss : list sample)
    (d : string) (acc : day_acc) :
  holds_samples daily ss →
  daily !! d = Some acc ↔
  d ∈ sample_date <$> ss ∧ acc = acc_of (samples_on d ss).
Proof.
  intros Hd. rewrite (Hd d), <- samples_on_elem.
  destruct (samples_on d ss) as [|s on]; split.
  - done.
  - by intros [? _].
  - intros [= <-]. done.
  - by intros [_ ->].
Qed.

(** [sorted(daily.items())] lists the entries of the dict by ascending
    date. *)
Lemma sorted_items_spec (daily : gmap string day_acc) :
  StronglySorted str_lt (fst <$> sorted_items daily) ∧
  ∀ d acc, (d, acc) ∈ sorted_items daily ↔ daily !! d = Some acc.
Proof.
  unfold sorted_items. split.
  - apply sorted_keys_strict.
    + apply StronglySorted_merge_sort; apply _.
    + rewrite merge_sort_Permutation. apply NoDup_fst_map_to_list.
  - intros d acc. rewrite merge_sort_Permutation.
    apply elem_of_map_to_list.
Qed.

(** *** The record of one date *)

Lemma first_most_frequent_ok (ds : list string) (s : string) :
  set_order_ok set_iter →
  first_most_frequent s (set_iter ds) ds → summary_ok ds s.
Proof.
  intros Hset Hfirst. split; [done|].
  destruct Hfirst as (pre & post & Horder & Hpre & Hpost).
  destruct (Hset ds) as [_ Hin].
  assert (s ∈ set_iter ds) as Hs.
  { rewrite Horder. apply elem_of_app. right. left. }
  split; [by apply Hin|].
  intros d Hd. apply Hin in Hd. rewrite Horder in Hd.
  apply elem_of_app in Hd as [Hd|Hd]; [specialize (Hpre d Hd); lia|].
  apply elem_of_cons in Hd as [->|Hd]; [done|by apply Hpost].
Qed.

Lemma day_record_spec (d : string) (acc : day_acc) :
  set_order_ok set_iter →
  temps acc ≠ [] → descs acc ≠ [] → pops acc ≠ [] →
  ∃ r, day_record (d, acc) = Ok r ∧
       date r = d ∧
       summary_ok (descs acc) (summary r) ∧
       (strict_order → extrema_ok acc r).
Proof.
  intros Hset Ht Hds Hp. destruct acc as [ts ds ps]. simpl in *.
  destruct ts as [|t ts]; [done|]. destruct ps as [|p ps]; [done|].
  destruct (set_iter ds) as [|x order] eqn:Horder.
  { destruct ds as [|y ds]; [done|].
    destruct (Hset (y :: ds)) as [_ Hin].
    assert (y ∈ set_iter (y :: ds)) as Hy by (apply Hin; left).
    rewrite Horder in Hy. by inversion Hy. }
  destruct (py_max_key_spec ds x order) as (m & Hm & Hfirst).
  unfold day_record. cbv beta iota. cbn [descs temps pops].
  rewrite ?Horder, Hm. simpl.
  eexists. split; [reflexivity|]. simpl. split; [done|]. split.
  - apply first_most_frequent_ok; [done|]. by rewrite Horder.
  - intros Hso.
    destruct (py_max_spec t ts Hso) as (hi & Hhi & Hmax).
    destruct (py_min_spec t ts Hso) as (lo & Hlo & Hmin).
    destruct (py_max_spec p ps Hso) as (pm & Hpm & Hpmax).
    injection Hhi as <-. injection Hlo as <-. injection Hpm as <-.
    repeat split; eexists; (split; [eassumption|reflexivity]).
Qed.

Lemma day_record_samples (ss : list sample) (d : string) :
  set_order_ok set_iter →
  d ∈ sample_date <$> ss →
  ∃ r, day_record (d, acc_of (samples_on d ss)) = Ok r ∧
       date r = d ∧
       summary_ok (s_desc <$> samples_on d ss) (summary r) ∧
       (strict_order → extrema_ok (acc_of (samples_on d ss)) r).
Proof.
  intros Hset Hd. apply samples_on_elem in Hd.
  destruct (samples_on d ss) as [|s on] eqn:Hon; [done|].
  by apply (day_record_spec d (acc_of (s :: on))).
Qed.

(** *** The whole aggregation *)

Lemma aggregate_ok (ss : list sample) (days : Z) :
  set_order_ok set_iter →
  ∃ out all,
    aggregate (raw_of <$> ss) days = Ok out ∧
    StronglySorted str_lt all ∧
    (∀ d, d ∈ all ↔ d ∈ sample_date <$> ss) ∧
    date <$> out = slice_to days all ∧
    Forall (λ r,
        summary_ok (s_desc <$> samples_on (date r) ss) (summary r) ∧
        (strict_order → extrema_ok (acc_of (samples_on (date r) ss)) r))
      out.
Proof.
  intros Hset.
  destruct (fold_add_sample ss [] ∅ holds_samples_empty)
    as (daily & Hfold & Hdaily).
  simpl in Hdaily.
  destruct (sorted_items_spec daily) as [Hsorted Hitems].
  destruct (rmapM_Forall2 day_record
              (λ it r, date r = it.1 ∧
                 summary_ok (s_desc <$> samples_on (date r) ss) (summary r) ∧
                 (strict_order →
                  extrema_ok (acc_of (samples_on (date r) ss)) r))
              (slice_to days (sorted_items daily)))
    as (out & Hout & Hall).
  { apply Forall_forall. intros [d acc] Hin.
    apply slice_to_subseteq in Hin. apply Hitems in Hin.
    apply (holds_samples_lookup _ ss) in Hin as [Hd ->]; [|done].
    destruct (day_record_samples ss d Hset Hd) as (r & Hr & Hdate & Hok).
    exists r. split; [done|]. split; [done|]. by rewrite Hdate. }
  apply Forall2_keyed in Hall as [Hdates Hok].
  exists out, (fst <$> sorted_items daily).
  split; [|split; [done|split; [|split]]].
  - unfold aggregate. by rewrite Hfold.
  - intros d. split.
    + intros Hd. apply list_elem_of_fmap in Hd as ([d' acc] & -> & Hin).
      apply Hitems in Hin.
      by apply (holds_samples_lookup _ ss) in Hin as [Hd _].
    + intros Hd. apply list_elem_of_fmap.
      exists (d, acc_of (samples_on d ss)). split; [done|].
      apply Hitems. by apply (holds_samples_lookup _ ss).
  - by rewrite <- slice_to_fmap.
  - done.
Qed.

End Aggregation.

(** ** The reference installation *)

Lemma reference_strict_order : @strict_order _ Reference.decimal.
Proof.
  assert (∀ x y : Q, Reference.ltb x y = true ↔ (x < y)%Q) as Hlt.
  { intros x y. unfold Reference.ltb. rewrite negb_true_iff.
    rewrite <- not_true_iff_false, Qle_bool_iff. split.
    - apply Qnot_le_lt.
    - apply Qlt_not_le. }
  split.
  - intros x. apply not_true_iff_false. intros Hx. apply Hlt in Hx.
    by apply Qlt_irrefl in Hx.
  - intros x y z Hxy Hyz. apply Hlt. apply Hlt in Hxy, Hyz.
    by eapply Qlt_trans.
Qed.

Lemma remove_dups_order_ok : set_order_ok remove_dups.
Proof.
  intros l. split; [apply NoDup_remove_dups|].
  intros x. apply elem_of_remove_dups.
Qed.

Lemma set_order_rev_ok : set_order_ok Forecasts.set_order_rev.
Proof.
  intros l. unfold Forecasts.set_order_rev. split.
  - rewrite reverse_Permutation. apply NoDup_remove_dups.
  - intros x. rewrite elem_of_reverse. apply elem_of_remove_dups.
Qed.

(** The record of the date of [Forecasts.rain_day], whatever the iteration
    order of sets. *)
Lemma rain_day_record set_order key geo forecast question (d : string) :
  set_order_ok set_order →
  ∃ r, @day_record _ _ (Reference.env set_order key geo forecast question)
         (d, Forecasts.rain_day) = Ok r ∧
       date r = d ∧ summary r = "rain" ∧
       (temp_max r == 20.7)%Q ∧ (temp_min r == 18.2)%Q ∧
       (pop_max r == 0.9)%Q.
Proof.
  intros Hset.
  destruct (@day_record_spec _ _
              (Reference.env set_order key geo forecast question)
              d Forecasts.rain_day Hset)
    as (r & Hr & Hdate & (_ & Hin & Hcount) & Hext); [done..|].
  destruct (Hext reference_strict_order)
    as ((hi & [Hhi Hmax] & Hthi) & (lo & [Hlo Hmin] & Htlo) &
        (p & [Hp Hpmax] & Hpp)).
  exists r. split; [done|]. split; [done|]. simpl in *.
  split; [|split; [|split]].
  - assert ("rain" ∈ ["rain"; "rain"; "clear"]) as Hrain by left.
    specialize (Hcount _ Hrain).
    repeat (apply elem_of_cons in Hin as [Heq|Hin]; [done|]).
    apply elem_of_cons in Hin as [Heq|Hin]; [|by inversion Hin].
    rewrite Heq in Hcount. vm_compute in Hcount. lia.
  - rewrite Hthi.
    assert ((20.7)%Q ∈ [(18.2)%Q; (20.7)%Q]) as H2 by (right; left).
    specialize (Hmax _ H2).
    repeat (apply elem_of_cons in Hhi as [->|Hhi]);
      [by vm_compute in Hmax|by vm_compute|by inversion Hhi].
  - rewrite Htlo.
    assert ((18.2)%Q ∈ [(18.2)%Q; (20.7)%Q]) as H1 by left.
    specialize (Hmin _ H1).
    repeat (apply elem_of_cons in Hlo as [->|Hlo]);
      [by vm_compute|by vm_compute in Hmin|by inversion Hlo].
  - rewrite Hpp.
    assert ((0.9)%Q ∈ [(0.4)%Q; (0.9)%Q]) as H2 by (right; left).
    specialize (Hpmax _ H2).
    repeat (apply elem_of_cons in Hp as [->|Hp]);
      [by vm_compute in Hpmax|by vm_compute|by inversion Hp].
Qed.

(** ** Weather aggregation (C5, C9) *)

(** X2 (the property of claim C5). On every list of samples [get_weather]'s aggregation returns one
    record per distinct calendar date, for the first [days] dates in
    ascending order: the dates of the output are the first [days] entries
    of the strictly ascending list [all] of the dates of the samples.
    Each record holds the largest and the smallest temperature of the
    samples of its date rounded to one decimal place, their largest
    probability (0.0 where a sample has none) rounded to two, and a most
    frequent description.  With decimal numbers, a date with the
    descriptions rain, rain and clear, the temperatures 18.2 and 20.7 and
    the probabilities 0.4 and 0.9 gives the summary rain, [temp_max] 20.7,
    [temp_min] 18.2 and [pop_max] 0.9, whatever the iteration order of
    sets. *)
Theorem weather_aggregation :
  (∀ (N : Num) (F : Number) (E : Env) (ss : list sample) (days : Z),
     strict_order → set_order_ok set_iter → 0 ≤ days →
     ∃ out all,
       aggregate (raw_of <$> ss) days = Ok out ∧
       StronglySorted str_lt all ∧
       (∀ d, d ∈ all ↔ d ∈ sample_date <$> ss) ∧
       date <$> out = take (Z.to_nat days) all ∧
       Forall (day_ok ss) out) ∧
  (∀ set_order key geo forecast question (d : string),
     set_order_ok set_order →
     ∃ r, @day_record _ _ (Reference.env set_order key geo forecast question)
            (d, Forecasts.rain_day) = Ok r ∧
          date r = d ∧ summary r = "rain" ∧
          (temp_max r == 20.7)%Q ∧ (temp_min r == 18.2)%Q ∧
          (pop_max r == 0.9)%Q).
Proof.
  split; [|apply rain_day_record].
  intros N F E ss days Hso Hset Hdays.
  destruct (aggregate_ok ss days Hset)
    as (out & all & Hagg & Hsorted & Hall & Hdates & Hok).
  rewrite slice_to_take in Hdates by done.
  exists out, all. repeat (split; [done|]).
  eapply Forall_impl; [exact Hok|]. intros r [Hsum Hext].
  split; [by apply Hext|done].
Qed.

Lemma weather_aggregation_witness :
  ∃ out,
    @aggregate _ _ Reference.online (raw_of <$> Forecasts.may) 5 = Ok out ∧
    date <$> out = ["2025-04-30"; "2025-05-01"] ∧
    summary <$> out = ["mist"; "rain"].
Proof.
  destruct (proj1 weather_aggregation _ _ Reference.online Forecasts.may 5)
    as (out & all & Hagg & _).
  - apply reference_strict_order.
  - apply remove_dups_order_ok.
  - lia.
  - exists out. split; [done|].
    assert (@aggregate _ _ Reference.online (raw_of <$> Forecasts.may) 5
            = Ok [ {| date := "2025-04-30"; summary := "mist";
                      temp_max := (123 # 10)%Q; temp_min := (123 # 10)%Q;
                      pop_max := 0%Q |};
                   {| date := "2025-05-01"; summary := "rain";
                      temp_max := (207 # 10)%Q; temp_min := (91 # 5)%Q;
                      pop_max := (9 # 10)%Q |} ]) as Hrun
      by (vm_compute; reflexivity).
    rewrite Hrun in Hagg. injection Hagg as <-. split; reflexivity.
Defined.

(** X3 (the property of claim C9, as the code has it). The summary of
    every record is a description of the
    samples of its date whose count is maximal, and among these the first
    in the iteration order of the set of the descriptions; when one
    description is more frequent than every other one, it is the
    summary. *)
Theorem summary_first_in_set_order `{Env} (ss : list sample) (days : Z) :
  set_order_ok set_iter →
  ∃ out,
    aggregate (raw_of <$> ss) days = Ok out ∧
    ∀ r, r ∈ out →
      let ds := s_desc <$> samples_on (date r) ss in
      summary r ∈ ds ∧
      (∀ d, d ∈ ds → (str_count ds d ≤ str_count ds (summary r))%nat) ∧
      first_most_frequent (summary r) (set_iter ds) ds ∧
      (∀ d, d ∈ ds →
         (∀ x, x ∈ ds → x ≠ d → (str_count ds x < str_count ds d)%nat) →
         summary r = d).
Proof.
  intros Hset.
  destruct (aggregate_ok ss days Hset)
    as (out & all & Hagg & _ & _ & _ & Hok).
  exists out. split; [done|]. intros r Hr ds.
  rewrite Forall_forall in Hok.
  destruct (Hok r Hr) as [(Hfirst & Hin & Hcount) _].
  fold ds in Hfirst, Hin, Hcount.
  repeat (split; [done|]).
  intros d Hd Hmost.
  destruct (decide (summary r = d)) as [Heq|Hne]; [done|].
  specialize (Hmost _ Hin Hne). specialize (Hcount _ Hd). lia.
Qed.

Lemma summary_first_in_set_order_witness :
  ∃ out,
    @aggregate _ _ Reference.online (raw_of <$> Forecasts.tie) 1 = Ok out ∧
    ∀ r, r ∈ out →
      summary r ∈ s_desc <$> samples_on (date r) Forecasts.tie.
Proof.
  destruct (@summary_first_in_set_order _ _ Reference.online
              Forecasts.tie 1)
    as (out & Hagg & Hout).
  - apply remove_dups_order_ok.
  - exists out. split; [exact Hagg|]. intros r Hr.
    destruct (Hout r Hr) as [Hin _]. exact Hin.
Defined.

(** The same two samples, whose descriptions rain and clear are equally
    frequent, get the summary rain with one iteration order of sets and
    clear with another: the order of the samples does not determine the
    summary, and the description of the first sample is not always
    chosen. *)
Lemma summary_order_counterexample :
  set_order_ok (@set_iter _ _ Reference.online) ∧
  set_order_ok (@set_iter _ _ Forecasts.online_rev) ∧
  s_desc <$> Forecasts.tie = ["rain"; "clear"] ∧
  ∃ r1 r2,
    @aggregate _ _ Reference.online (raw_of <$> Forecasts.tie) 1 = Ok [r1] ∧
    @aggregate _ _ Forecasts.online_rev (raw_of <$> Forecasts.tie) 1
    = Ok [r2] ∧
    summary r1 = "rain" ∧ summary r2 = "clear".
Proof.
  split; [apply remove_dups_order_ok|]. split; [apply set_order_rev_ok|].
  split; [reflexivity|].
  exists {| date := "2025-05-01"; summary := "rain";
            temp_max := (207 # 10)%Q; temp_min := (91 # 5)%Q;
            pop_max := (9 # 10)%Q |},
         {| date := "2025-05-01"; summary := "clear";
            temp_max := (207 # 10)%Q; temp_min := (91 # 5)%Q;
            pop_max := (9 # 10)%Q |}.
  split; [vm_compute; reflexivity|].
  split; [vm_compute; reflexivity|]. split; reflexivity.
Qed.

(** ** The summary on a tie *)

Lemma fold_max_key_keeps {A} (key : A → nat) (l : list A) (x : A) :
  (∀ y, y ∈ l → (key y ≤ key x)%nat) →
  fold_left (λ cur y, if (key cur <? key y)%nat then y else cur) l x = x.
Proof.
  induction l as [|y l IH]; intros Hle; simpl; [done|].
  destruct (Nat.ltb_spec (key x) (key y)) as [Hlt|_].
  - specialize (Hle y ltac:(left)). lia.
  - apply IH. intros z Hz. apply Hle. by right.
Qed.

(** X4. Every description of maximal count is the summary under some
    iteration order of the set of the descriptions: on a tie the samples
    alone do not determine the summary. *)
Theorem summary_any_most_frequent (ds : list string) (d : string) :
  d ∈ ds →
  (∀ x, x ∈ ds → (str_count ds x ≤ str_count ds d)%nat) →
  ∃ order,
    NoDup order ∧ (∀ x, x ∈ order ↔ x ∈ ds) ∧
    py_max_key (str_count ds) order = Ok d.
Proof.
  intros Hd Hmax.
  exists (d :: filter (λ x, x ≠ d) (remove_dups ds)).
  split; [|split].
  - apply NoDup_cons. split.
    + intros Hin. by apply list_elem_of_filter in Hin as [Hne _].
    + apply NoDup_filter, NoDup_remove_dups.
  - intros x. rewrite elem_of_cons, list_elem_of_filter, elem_of_remove_dups.
    split.
    + by intros [->|[_ Hx]].
    + intros Hx. destruct (decide (x = d)) as [->|Hne]; auto.
  - unfold py_max_key, py_extremum. f_equal.
    apply fold_max_key_keeps. intros y Hy.
    apply list_elem_of_filter in Hy as [_ Hy].
    rewrite elem_of_remove_dups in Hy. exact (Hmax y Hy).
Qed.

Lemma summary_any_most_frequent_witness :
  ∃ order,
    NoDup order ∧ (∀ x, x ∈ order ↔ x ∈ ["rain"; "clear"]) ∧
    py_max_key (str_count ["rain"; "clear"]) order = Ok "clear".
Proof.
  apply (summary_any_most_frequent ["rain"; "clear"] "clear").
  - right. left.
  - intros x Hx.
    repeat (apply elem_of_cons in Hx as [->|Hx]);
      [vm_compute; lia|vm_compute; lia|by inversion Hx].
Defined.

(** ** Items without a key *)

Section Malformed.
Context `{Env}.

Lemma add_sample_error (daily : gmap string day_acc) (item : raw_item) :
  match item_error item with
  | Some e => add_sample daily item = Raise e
  | None => ∃ s, item = raw_of s
  end.
Proof.
  destruct item as [dt m ws p]. unfold item_error, add_sample. simpl.
  destruct dt as [dt|]; [|done]. destruct m as [[t|]|]; [|done|done].
  destruct ws as [[|[desc|] ws]|]; try done.
  by exists {| s_dt_txt := dt; s_temp := t; s_desc := desc; s_more := ws;
               s_pop := p |}.
Qed.

Lemma first_error_cons (item : raw_item) (data : list raw_item) :
  first_error (item :: data)
  = match item_error item with
    | Some e => Some e
    | None => first_error data
    end.
Proof. unfold first_error. simpl. by destruct (item_error item). Qed.

Lemma rfoldM_add_sample_error (data : list raw_item)
    (daily : gmap string day_acc) :
  match first_error data with
  | Some e => rfoldM add_sample daily data = Raise e
  | None => ∃ ss, data = raw_of <$> ss
  end.
Proof.
  revert daily. induction data as [|item data IH]; intros daily.
  - by exists [].
  - rewrite first_error_cons. cbn [rfoldM].
    pose proof (add_sample_error daily item) as Hitem.
    destruct (item_error item) as [e|].
    + by rewrite Hitem.
    + destruct Hitem as [s ->]. rewrite add_sample_raw. cbn [rbind].
      match goal with
      | |- context [rfoldM add_sample ?m data] => specialize (IH m)
      end.
      destruct (first_error data) as [e|]; [done|].
      destruct IH as [ss ->]. by exists (s :: ss).
Qed.

(** X5. When an item of the forecast reply lacks [dt_txt], [main], [temp],
    [weather] or [description], or has an empty [weather] list, the
    aggregation returns no record at all: it raises the exception of the
    first such item, whatever [days] is and whatever the other items
    hold, and [get_weather] turns it into the single error marker.  A
    reply without such an item is a list of well-formed samples. *)
Theorem aggregate_first_error (data : list raw_item) (days : Z) :
  match first_error data with
  | Some e =>
      aggregate data days = Raise e ∧
      (e = IndexError "list index out of range" ∨
       ∃ k, e = KeyError k ∧
            k ∈ ["dt_txt"; "main"; "temp"; "weather"; "description"]) ∧
      ∀ city w s la lo w1 w2,
        OPENWEATHER_KEY ≠ EmptyString →
        get_latlon city w = (Ok s, w1) →
        unpack_latlon s = Ok (la, lo) →
        openweather_forecast la lo w1 = (Ok data, w2) →
        get_weather city days w
        = (Ok [ErrorMarker ("Failed to get weather information: "
                            ++ exn_str e)%string], w2)
  | None => ∃ ss, data = raw_of <$> ss
  end.
Proof.
  pose proof (rfoldM_add_sample_error data ∅) as Hfold.
  destruct (first_error data) as [e|] eqn:Herr; [|done].
  assert (aggregate data days = Raise e) as Hagg.
  { unfold aggregate. by rewrite Hfold. }
  split; [done|]. split.
  - clear Hfold Hagg.
    induction data as [|item data IH]; [done|].
    rewrite first_error_cons in Herr.
    destruct (item_error item) as [e'|] eqn:Hitem; [|by apply IH].
    injection Herr as ->.
    unfold item_error in Hitem.
    repeat case_match; simplify_eq; auto;
      right; eexists; (split; [done|in_list]).
  - intros city w s la lo w1 w2 Hkey Hll Hun Hfc.
    apply String.eqb_neq in Hkey.
    unfold get_weather, try_except, get_weather_try, bind, lift, ret.
    by rewrite Hkey, Hll, Hun, Hfc, Hagg.
Qed.

End Malformed.

(** ** A negative number of days *)



(** ** The coordinates *)

Lemma str_split_nonempty (sep : ascii) (s : string) : str_split sep s ≠ [].
Proof.
  destruct s as [|c s]; simpl; [done|].
  destruct (Ascii.eqb c sep); [done|]. by destruct (str_split sep s).
Qed.

Lemma str_split_no_sep (sep : ascii) (s : string) :
  has_char sep s = false → str_split sep s = [s].
Proof.
  induction s as [|c s IH]; simpl; [done|].
  intros Hc. apply orb_false_iff in Hc as [Hc Hs].
  by rewrite Hc, (IH Hs).
Qed.

Lemma str_split_app (sep : ascii) (a b : string) :
  has_char sep a = false →
  str_split sep (a ++ String sep b) = a :: str_split sep b.
Proof.
  induction a as [|c a IH]; simpl.
  - intros _. by rewrite Ascii.eqb_refl.
  - intros Hc. apply orb_false_iff in Hc as [Hc Ha].
    by rewrite Hc, (IH Ha).
Qed.

Lemma str_split_length_app (sep : ascii) (a b : string) :
  length (str_split sep (a ++ String sep b))
  = (length (str_split sep a) + length (str_split sep b))%nat.
Proof.
  induction a as [|c a IH]; simpl.
  - by rewrite Ascii.eqb_refl.
  - destruct (Ascii.eqb c sep); simpl; [by rewrite IH|].
    pose proof (str_split_nonempty sep (a ++ String sep b)) as Hne.
    pose proof (str_split_nonempty sep a) as Hne'.
    destruct (str_split sep (a ++ String sep b)); [done|].
    destruct (str_split sep a); [done|]. simpl in *. lia.
Qed.

Lemma str_split_length_sep (sep : ascii) (s : string) :
  has_char sep s = true → (2 ≤ length (str_split sep s))%nat.
Proof.
  induction s as [|c s IH]; simpl; [done|].
  pose proof (str_split_nonempty sep s) as Hne.
  destruct (Ascii.eqb c sep); simpl.
  - intros _. destruct (str_split sep s); [done|]. simpl. lia.
  - intros Hs. specialize (IH Hs).
    destruct (str_split sep s); [done|]. simpl in *. lia.
Qed.

Lemma str_split_length_pos (sep : ascii) (s : string) :
  (1 ≤ length (str_split sep s))%nat.
Proof.
  pose proof (str_split_nonempty sep s).
  destruct (str_split sep s); [done|]. simpl. lia.
Qed.

Section Coordinates.
Context `{Env}.

Lemma unpack_latlon_many (s : string) :
  (3 ≤ length (str_split ","%char s))%nat → ∃ e, unpack_latlon s = Raise e.
Proof.
  unfold unpack_latlon.
  destruct (str_split ","%char s) as [|a [|b [|c rest]]]; simpl;
    [lia|lia|lia|]. intros _.
  destruct (float_of_str a); simpl; [|by eexists].
  destruct (float_of_str b); simpl; [|by eexists].
  destruct (float_of_str c); simpl; by eexists.
Qed.

(** X7. [get_latlon] returns the latitude and the longitude of the first
    hit joined by a comma and ignores the other hits.  When neither field
    holds a comma, [get_weather] splits the string back into the two
    fields: it asks the forecast for exactly [float(lat)] and
    [float(lon)], or raises the [ValueError] of [float].  When a field
    holds a comma (a decimal comma, say) the unpacking always raises, so
    no forecast is asked for. *)
Theorem coordinates_round_trip (city : string) (days : Z) (w w1 : world)
    (hit : geo_hit) (rest : list geo_hit) (la lo : string) :
  nominatim_search city w = (Ok (hit :: rest), w1) →
  lat hit = Some la → lon hit = Some lo →
  get_latlon city w = (Ok (la ++ "," ++ lo)%string, w1) ∧
  (has_char ","%char la = false → has_char ","%char lo = false →
   unpack_latlon (la ++ "," ++ lo)%string
   = (let? x := float_of_str la in
      let? y := float_of_str lo in Ok (x, y)) ∧
   ∀ x y, float_of_str la = Ok x → float_of_str lo = Ok y →
     get_weather_try city days w = forecast_at x y days w1) ∧
  (has_char ","%char la = true ∨ has_char ","%char lo = true →
   ∃ e, unpack_latlon (la ++ "," ++ lo)%string = Raise e ∧
        get_weather_try city days w = (Raise e, w1)).
Proof.
  intros Hgeo Hla Hlo.
  assert (get_latlon city w = (Ok (la ++ "," ++ lo)%string, w1)) as Hll.
  { unfold get_latlon, bind, lift, ret. by rewrite Hgeo, Hla, Hlo. }
  split; [done|]. split.
  - intros Hca Hco.
    assert (unpack_latlon (la ++ "," ++ lo)%string
            = (let? x := float_of_str la in
               let? y := float_of_str lo in Ok (x, y))) as Hun.
    { unfold unpack_latlon.
      change (la ++ "," ++ lo)%string with (la ++ String ","%char lo)%string.
      rewrite (str_split_app _ _ _ Hca), (str_split_no_sep _ _ Hco).
      destruct (float_of_str la); simpl; [|done].
      by destruct (float_of_str lo). }
    split; [done|]. intros x y Hx Hy.
    unfold get_weather_try, forecast_at, bind, lift.
    rewrite Hll, Hun, Hx, Hy. simpl. done.
  - intros Hcomma.
    destruct (unpack_latlon_many (la ++ "," ++ lo)%string) as [e He].
    { change (la ++ "," ++ lo)%string with (la ++ String ","%char lo)%string.
      rewrite str_split_length_app.
      pose proof (str_split_length_pos ","%char la).
      pose proof (str_split_length_pos ","%char lo).
      destruct Hcomma as [Hc|Hc];
        apply str_split_length_sep in Hc; lia. }
    exists e. split; [done|].
    unfold get_weather_try, bind, lift. by rewrite Hll, He.
Qed.

End Coordinates.

Lemma coordinates_round_trip_witness :
  @get_latlon _ _ Reference.online "Tokyo" 0%nat = (Ok "35.6,139.7", 1%nat) ∧
  @unpack_latlon _ Reference.decimal "35.6,139.7"
  = Ok ((178 # 5)%Q, (1397 # 10)%Q).
Proof.
  destruct (@coordinates_round_trip _ _ Reference.online "Tokyo" 5 0%nat 1%nat
              Reference.tokyo_hit [] "35.6" "139.7")
    as (Hll & Hun & _); [reflexivity..|].
  split; [exact Hll|].
  destruct Hun as [Hun _]; [reflexivity..|].
  etransitivity; [exact Hun|]. vm_compute. reflexivity.
Defined.

(** ** One step of a run *)

Section RunSteps.
Context `{Env} {St Arg : Type}.

Lemma run_S (g : StateGraph St Arg) (resumed : bool) (ck : Checkpoint St Arg)
    (fuel : nat) (w : world) :
  node_cursor ck ≠ [] →
  negb resumed && at_interrupt g ck = false →
  run (S fuel) g resumed ck w
  = match superstep g ck w with
    | (StepFailed n e, w') => ((step_events ck, Failed n e ck), w')
    | (StepOk ck', w') =>
        let '((evs, o), w'') := run fuel g false ck' w' in
        ((step_events ck ++ evs, o), w'')
    end.
Proof.
  intros Hcur Hint. simpl. destruct (node_cursor ck); [done|].
  by rewrite Hint.
Qed.

Lemma drive_not_suspended (g : StateGraph St Arg) (resumed : bool)
    (ck : Checkpoint St Arg) (fuel : nat) (updates : list St) (w : world)
    evs o w' :
  run fuel g resumed ck w = ((evs, o), w') →
  (∀ ck', o ≠ AwaitingFeedback ck') →
  drive fuel g resumed ck updates w = ((evs, o), w').
Proof.
  intros Hrun Ho. destruct updates; simpl; rewrite Hrun;
    destruct o; try done; by edestruct Ho.
Qed.

End RunSteps.

(** ** The keys that [create_travelers] reads *)

Section CreateTravelers.
Context `{Env}.

Lemma get_weather_info_total (st : TravelGraphState) (w : world) :
  ∃ weather w', get_weather_info st w = (Ok (tg_upd_weather weather), w').
Proof.
  destruct (get_weather_never_raises (default "tokyo" (tg_city st))
              (default 5 (tg_days st)) w) as (weather & w' & Hgw).
  exists weather, w'. unfold get_weather_info, bind, try_except, ret.
  by rewrite Hgw.
Qed.

(** X8. [create_travelers] indexes [city], [weather], [days] and
    [max_travelers] in this order: with one of them absent it raises the
    [KeyError] of the first absent one before it calls the model;
    otherwise it calls the model once, with the empty text for an absent
    traveler feedback, and returns the travelers as its only key.  So the
    defaults that [get_weather_info] takes for an absent [city] or [days]
    do not carry a run: started without [city], [days] or
    [max_travelers], the run looks the weather up and then fails in
    [create_travelers]. *)
Theorem create_travelers_key_error (st input : TravelGraphState) (w : world) :
  (tg_city st = None →
   create_travelers st w = (Raise (KeyError "city"), w)) ∧
  (is_Some (tg_city st) → tg_weather st = None →
   create_travelers st w = (Raise (KeyError "weather"), w)) ∧
  (is_Some (tg_city st) → is_Some (tg_weather st) → tg_days st = None →
   create_travelers st w = (Raise (KeyError "days"), w)) ∧
  (is_Some (tg_city st) → is_Some (tg_weather st) → is_Some (tg_days st) →
   tg_max_travelers st = None →
   create_travelers st w = (Raise (KeyError "max_travelers"), w)) ∧
  (∀ city weather days max_travelers,
     tg_city st = Some city → tg_weather st = Some weather →
     tg_days st = Some days → tg_max_travelers st = Some max_travelers →
     create_travelers st w
     = match llm_perspectives
               [mkSystem
                  (traveler_instructions city weather days
                     (default (Some EmptyString)
                        (tg_human_feedback_traveler st))
                     max_travelers);
                mkHuman "Generate the set of travelers."] w with
       | (Ok travelers, w') => (Ok (tg_upd_travelers travelers), w')
       | (Raise e, w') => (Raise e, w')
       end) ∧
  (∀ fuel feedbacks,
     tg_city input = None ∨ tg_days input = None ∨
     tg_max_travelers input = None →
     ∃ st1 key ck w',
       start_run (S (S fuel)) input feedbacks w
       = (([("get_weather_info", input); ("create_travelers", st1)],
           Failed "create_travelers" (KeyError key) ck), w') ∧
       key ∈ ["city"; "days"; "max_travelers"] ∧
       is_Some (tg_weather st1)).
Proof.
  split; [|split; [|split; [|split; [|split]]]].
  - intros Hc. unfold create_travelers, bind, lift, index_key. by rewrite Hc.
  - intros [c Hc] Hw. unfold create_travelers, bind, lift, index_key.
    by rewrite Hc, Hw.
  - intros [c Hc] [x Hw] Hd. unfold create_travelers, bind, lift, index_key.
    by rewrite Hc, Hw, Hd.
  - intros [c Hc] [x Hw] [d Hd] Hm.
    unfold create_travelers, bind, lift, index_key.
    by rewrite Hc, Hw, Hd, Hm.
  - intros city weather days max_travelers Hc Hw Hd Hm.
    unfold create_travelers, bind, lift, index_key, ret.
    rewrite Hc, Hw, Hd, Hm. simpl.
    by destruct (llm_perspectives _ w) as [[ts|e] w'].
  - intros fuel feedbacks Habs.
    destruct (get_weather_info_total input w) as (weather & w1 & Hgw).
    set (st1 := tg_merge input (tg_upd_weather weather)).
    assert (∃ key, create_travelers st1 w1 = (Raise (KeyError key), w1) ∧
                   key ∈ ["city"; "days"; "max_travelers"])
      as (key & Hct & Hkey).
    { unfold create_travelers, bind, lift, index_key. subst st1. simpl.
      destruct (tg_city input); [|eexists; split; [done|in_list]].
      destruct (tg_days input); [|eexists; split; [done|in_list]].
      destruct (tg_max_travelers input); [|eexists; split; [done|in_list]].
      exfalso. destruct Habs as [?|[?|?]]; done. }
    exists st1, key, (tg_ck st1 ["create_travelers"]), w1.
    split; [|split; [done|by eexists]].
    apply drive_not_suspended; [|done].
    change (start_checkpoint builder input)
      with (tg_ck input ["get_weather_info"]).
    rewrite run_S by done.
    rewrite step_get_weather_info, Hgw. fold st1.
    rewrite run_S by done.
    by rewrite step_create_travelers, Hct.
Qed.

End CreateTravelers.

(** ** Dialogues with collaborators that answer *)

Section StepState.
Context `{Env} {St Arg : Type}.

Lemma superstep_state (g : StateGraph St Arg) (ck ck' : Checkpoint St Arg)
    (w w' : world) :
  superstep g ck w = (StepOk ck', w') →
  ∃ us, state_snapshot ck' = fold_left (g_merge g) us (state_snapshot ck).
Proof.
  unfold superstep.
  destruct (exec_tasks g (state_snapshot ck) (node_cursor ck) w) as [rs w1].
  destruct (collect_updates rs) as [[n e]|us]; [done|].
  destruct (next_tasks g _ _) as [[n e]|ts]; [done|].
  intros [= <- <-]. by exists us.
Qed.

End StepState.

Section ReliableDialogue.
Context `{Env}.

#[local] Arguments dl_merge : simpl never.

Lemma dl_merge_complete (st u : dialogueState) :
  dl_complete st → dl_complete (dl_merge st u).
Proof.
  intros ([t Ht] & [ms Hms] & [c Hc] & [d Hd] & [ct Hct]).
  unfold dl_complete, dl_merge, merge_scalar, merge_append. simpl.
  rewrite Ht, Hms, Hc, Hd, Hct.
  repeat split; by case_match.
Qed.

Lemma fold_dl_merge_complete (us : list dialogueState) (st : dialogueState) :
  dl_complete st → dl_complete (fold_left dl_merge us st).
Proof.
  revert st. induction us as [|u us IH]; intros st Hst; simpl; [done|].
  by apply IH, dl_merge_complete.
Qed.

Lemma generate_question_runs st w :
  reliable → dl_complete st → ∃ u w', generate_question st w = (Ok u, w').
Proof.
  intros (Hllm & _) ([t Ht] & [ms Hms] & _).
  unfold generate_question, bind, lift, ret, index_key. rewrite Ht, Hms.
  match goal with
  | |- context [llm_invoke ?m w] => destruct (Hllm m w) as (r & w' & ->)
  end.
  by eauto.
Qed.

Lemma search_web_runs st w :
  reliable → dl_complete st → ∃ u w', search_web st w = (Ok u, w').
Proof.
  intros (_ & Hq & Htv & _) (_ & [ms Hms] & _).
  unfold search_web, bind, lift, ret, index_key. rewrite Hms.
  match goal with
  | |- context [llm_search_query ?m w] => destruct (Hq m w) as (q & w1 & ->)
  end.
  destruct (Htv q w1) as (ds & w2 & ->). by eauto.
Qed.

Lemma search_wikipedia_runs st w :
  reliable → dl_complete st → ∃ u w', search_wikipedia st w = (Ok u, w').
Proof.
  intros (_ & Hq & _ & Hwk) (_ & [ms Hms] & _).
  unfold search_wikipedia, bind, lift, ret, index_key. rewrite Hms.
  match goal with
  | |- context [llm_search_query ?m w] => destruct (Hq m w) as (q & w1 & ->)
  end.
  destruct (Hwk q w1) as (ds & w2 & ->). by eauto.
Qed.

Lemma generate_answer_runs st w :
  reliable → dl_complete st → ∃ u w', generate_answer st w = (Ok u, w').
Proof.
  intros (Hllm & _) ([t Ht] & [ms Hms] & [c Hc] & _ & [ct Hct]).
  unfold generate_answer, bind, lift, ret, index_key.
  rewrite Ht, Hms, Hc, Hct.
  match goal with
  | |- context [llm_invoke ?m w] => destruct (Hllm m w) as (r & w' & ->)
  end.
  by eauto.
Qed.

Lemma save_dialogue_runs st w :
  dl_complete st → ∃ u w', save_dialogue st w = (Ok u, w').
Proof.
  intros ([t Ht] & [ms Hms] & _).
  unfold save_dialogue, bind, lift, ret, index_key. rewrite Ht, Hms.
  by eauto.
Qed.

Lemma write_section_runs st w :
  reliable → dl_complete st → ∃ u w', write_section st w = (Ok u, w').
Proof.
  intros (Hllm & _) ([t Ht] & _ & [c Hc] & [d Hd] & _).
  unfold write_section, bind, lift, ret, index_key. rewrite Ht, Hc, Hd.
  match goal with
  | |- context [llm_invoke ?m w] => destruct (Hllm m w) as (r & w' & ->)
  end.
  by eauto.
Qed.

(** No step of a dialogue fails. *)
Lemma dialogue_step_runs st0 seed m h ck w :
  no_response seed →
  reliable →
  dialogue_inv st0 seed m h ck → dl_complete (state_snapshot ck) →
  ∃ ck' w', superstep dialogue_builder ck w = (StepOk ck', w').
Proof.
  intros Hseed Hrel (Hmax & _ & _ & Hle & Hph) Hst.
  inversion Hph as [st rounds Hms Hask Hsave Hlt Hsec
                   |st rounds q Hms Hask Hsave Hlt Hsec
                   |st rounds q Hms Hask Hsave Hlt Hsec
                   |st rounds Hms Hask Hsave Hlt Hconc Hsec
                   |st rounds Hms Hask Hsave Hlt Hconc Hsec
                   |st rounds x Hms Hask Hsave Hlt Hconc Hsec]; subst ck;
    simpl in Hst.
  - rewrite step_ask_question.
    destruct (generate_question_runs st w Hrel Hst) as (u & w' & ->).
    by eauto.
  - rewrite step_search.
    destruct (search_web_runs st w Hrel Hst) as (u1 & w1 & ->).
    destruct (search_wikipedia_runs st w1 Hrel Hst) as (u2 & w2 & ->).
    by eauto.
  - rewrite step_answer_question.
    destruct (generate_answer_runs st w Hrel Hst) as (u & w' & Ha).
    rewrite Ha. apply generate_answer_ok in Ha as [a ->].
    pose proof (dl_merge_messages st _ [local_answer a] Hms) as Hms'.
    rewrite <- app_assoc in Hms'.
    change ([mkAI q] ++ [local_answer a]) with [mkAI q; local_answer a] in Hms'.
    rewrite <- conversation_snoc in Hms'.
    rewrite (route_messages_rounds _ _ _ _ _ Hms' Hseed).
    destruct (_ || _); simpl; by eauto.
  - rewrite step_save_dialogue.
    destruct (save_dialogue_runs st w Hst) as (u & w' & ->). by eauto.
  - rewrite step_write_section.
    destruct (write_section_runs st w Hrel Hst) as (u & w' & ->). by eauto.
  - unfold superstep. simpl. by eauto.
Qed.

(** A dialogue runs to completion. *)
Lemma dialogue_runs (st0 : dialogueState) (seed : list Message)
    (fuel : nat) (w : world) :
  reliable →
  dl_complete st0 →
  dl_messages st0 = Some seed →
  no_response seed →
  1 ≤ default 2 (dl_max_num_turns st0) →
  (3 * Z.to_nat (default 2%Z (dl_max_num_turns st0)) + 2 ≤ fuel)%nat →
  ∃ evs st w' rounds x,
    run fuel dialogue_builder false (start_checkpoint dialogue_builder st0) w
    = ((evs, Completed st), w') ∧
    dl_messages st = Some (conversation seed rounds) ∧
    (1 ≤ length rounds ≤ Z.to_nat (default 2%Z (dl_max_num_turns st0)))%nat ∧
    dl_sections st = Some (default [] (dl_sections st0) ++ [x]).
Proof.
  intros Hrel Hst0 Hms Hseed Hmax1 Hfuel.
  set (m := Z.to_nat (default 2 (dl_max_num_turns st0))) in *.
  set (I := λ h ck, dialogue_inv st0 seed m h ck ∧
                    dl_complete (state_snapshot ck)).
  pose proof (dialogue_step st0 seed m Hseed Hmax1 eq_refl) as Hstep.
  assert (∀ h ck w ck' w',
            I h ck → node_cursor ck ≠ [] →
            superstep dialogue_builder ck w = (StepOk ck', w') →
            I (h ++ step_events ck) ck' ∧
            (dialogue_measure m ck' < dialogue_measure m ck)%nat) as HstepI.
  { intros h ck w0 ck' w0' [Hinv Hc] Hcur Hs.
    destruct (Hstep h ck w0 ck' w0' Hinv Hcur Hs) as [Hinv' Hmu].
    split; [|done]. split; [done|].
    apply superstep_state in Hs as [us ->].
    by apply fold_dl_merge_complete. }
  assert (∀ h ck, I h ck → node_cursor ck ≠ [] →
            (0 < dialogue_measure m ck)%nat) as Hpos.
  { intros h ck1 [(_ & _ & _ & Hle & Hph) _] Hcur.
    inversion Hph as [st rounds Hmsg|st rounds q Hmsg|st rounds q Hmsg
                     |st rounds Hmsg|st rounds Hmsg|st rounds x Hmsg];
      subst ck1; unfold dialogue_measure; simpl; try lia; try done.
    rewrite (turn_count_question _ _ _ _ Hmsg Hseed). lia. }
  set (ck0 := start_checkpoint dialogue_builder st0).
  assert (I [] ck0) as Hinit.
  { split; [|done]. apply dialogue_inv_start; [done|done|]. subst m. lia. }
  destruct (run fuel dialogue_builder false ck0 w) as [[evs o] w'] eqn:Hrun.
  destruct (run_history dialogue_builder I
              (λ h ck w ck' w' HI Hc Hs,
                 proj1 (HstepI h ck w ck' w' HI Hc Hs))
              fuel false [] ck0 w evs o w' Hinit Hrun) as [_ Ho].
  simpl in Ho.
  destruct o as [st|ck|n e ck|ck].
  - destruct Ho as (ck & [(_ & _ & _ & _ & Hph) _] & Hcur & <-).
    inversion Hph as [| | | | |st rounds x Hmsg Hask Hsave Hlen Hconc Hsec];
      subst ck; try done.
    by exists evs, st, w', rounds, x.
  - destruct Ho as [_ Hint]. by rewrite dialogue_not_interrupted in Hint.
  - destruct Ho as (h' & w1 & w2 & [Hinv Hc] & _ & Hfail).
    destruct (dialogue_step_runs st0 seed m h' ck w1 Hseed Hrel Hinv Hc)
      as (ck' & w3 & Hok).
    rewrite Hok in Hfail. done.
  - exfalso.
    pose proof (run_terminates dialogue_builder I (dialogue_measure m)
                  HstepI Hpos fuel false [] ck0 w ck Hinit) as Hterm.
    apply Hterm; [|by rewrite Hrun].
    unfold dialogue_measure. simpl. lia.
Qed.

(** The dialogue of a traveler returns one section. *)
Lemma conduct_dialogue_sub_runs (city : string) (traveler : Traveler)
    (max_travelers : Z) (w : world) :
  reliable → (8 ≤ recursion_limit)%nat →
  ∃ x w',
    conduct_dialogue_sub
      {| arg_state := dialogue_seed city traveler;
         arg_max_travelers := max_travelers |} w
    = (Ok (tg_upd_sections [x]), w').
Proof.
  intros Hrel Hlimit.
  destruct (dialogue_runs (dialogue_seed city traveler)
              [mkHuman ("So you said you plan to have a trip on "
                        ++ city ++ "?")]
              recursion_limit w Hrel)
    as (evs & st & w' & rounds & x & Hrun & _ & _ & Hsec).
  - unfold dl_complete, dialogue_seed. simpl. by eauto 10.
  - done.
  - by repeat constructor.
  - simpl. lia.
  - simpl. lia.
  - exists x, w'. unfold conduct_dialogue_sub. simpl arg_state. rewrite Hrun.
    unfold dialogue_output, tg_upd_sections. by rewrite Hsec.
Qed.

(** X9. When the language model and the two search tools answer every
    call, a dialogue started on a state that holds [traveler], [messages],
    [context], [dialogue] and [city] runs to completion: no node raises a
    [KeyError], the router raises no [IndexError], and the run ends within
    [3 * max + 2] steps after one to [max] rounds with exactly one section
    appended.  For the seed that [conduct_dialogue_router] sends, the node
    [conduct_dialogue_sub] therefore returns one section and touches no
    other key of the main state. *)
Theorem dialogue_completes (st0 : dialogueState) (seed : list Message)
    (fuel : nat) (w : world) :
  reliable →
  dl_complete st0 →
  dl_messages st0 = Some seed →
  no_response seed →
  1 ≤ default 2 (dl_max_num_turns st0) →
  let max_turns := Z.to_nat (default 2 (dl_max_num_turns st0)) in
  (3 * max_turns + 2 ≤ fuel)%nat →
  (∃ evs st w' rounds x,
     run fuel dialogue_builder false (start_checkpoint dialogue_builder st0) w
     = ((evs, Completed st), w') ∧
     dl_messages st = Some (conversation seed rounds) ∧
     (1 ≤ length rounds ≤ max_turns)%nat ∧
     dl_sections st = Some (default [] (dl_sections st0) ++ [x])) ∧
  (∀ city traveler max_travelers,
     (8 ≤ recursion_limit)%nat →
     ∃ x w',
       conduct_dialogue_sub
         {| arg_state := dialogue_seed city traveler;
            arg_max_travelers := max_travelers |} w
       = (Ok (tg_upd_sections [x]), w')).
Proof.
  intros Hrel Hst0 Hms Hseed Hmax1 m Hfuel. split.
  - by apply dialogue_runs.
  - intros city traveler max_travelers Hlimit.
    by apply conduct_dialogue_sub_runs.
Qed.

End ReliableDialogue.

Lemma reference_reliable : @reliable _ _ Reference.online.
Proof. repeat split; intros; by eexists _, _. Qed.

Lemma dialogue_completes_witness :
  ∃ evs st w' x,
    run 8 (@dialogue_builder _ _ Reference.online) false
      (start_checkpoint (@dialogue_builder _ _ Reference.online)
         (dialogue_seed "Kyoto" Reference.alice)) 0%nat
    = ((evs, Completed st), w') ∧
    dl_sections st = Some [x].
Proof.
  destruct (@dialogue_completes _ _ Reference.online
              (dialogue_seed "Kyoto" Reference.alice)
              [mkHuman "So you said you plan to have a trip on Kyoto?"]
              8%nat 0%nat)
    as [(evs & st & w' & rounds & x & Hrun & _ & _ & Hsec) _].
  - apply reference_reliable.
  - unfold dl_complete, dialogue_seed. simpl. eauto 10.
  - reflexivity.
  - repeat constructor.
  - simpl. lia.
  - simpl. lia.
  - exists evs, st, w', x. split; [exact Hrun|exact Hsec].
Defined.

(** ** Whole runs of the main graph *)

Section DriveSteps.
Context `{Env} {St Arg : Type}.

Lemma run_interrupted (g : StateGraph St Arg) (ck : Checkpoint St Arg)
    (fuel : nat) (w : world) :
  at_interrupt g ck = true →
  run fuel g false ck w = (([], AwaitingFeedback ck), w).
Proof.
  intros Hint.
  assert (node_cursor ck ≠ []) as Hcur.
  { intros Hnil. unfold at_interrupt in Hint. by rewrite Hnil in Hint. }
  destruct fuel; simpl; destruct (node_cursor ck); try done;
    by rewrite Hint.
Qed.

Lemma run_done (g : StateGraph St Arg) (ck : Checkpoint St Arg)
    (resumed : bool) (fuel : nat) (w : world) :
  node_cursor ck = [] →
  run fuel g resumed ck w = (([], Completed (state_snapshot ck)), w).
Proof. intros Hcur. destruct fuel; simpl; by rewrite Hcur. Qed.

Lemma drive_suspended (g : StateGraph St Arg) (resumed : bool)
    (ck ck' : Checkpoint St Arg) (fuel : nat) (u : St) (updates : list St)
    (w w' : world) evs :
  run fuel g resumed ck w = ((evs, AwaitingFeedback ck'), w') →
  drive fuel g resumed ck (u :: updates) w
  = let '((evs', o), w'') :=
      drive fuel g true (update_state g ck' u) updates w' in
    ((evs ++ evs', o), w'').
Proof. intros Hrun. simpl. by rewrite Hrun. Qed.

End DriveSteps.

Section HappyPath.
Context `{Env}.

#[local] Arguments tg_merge : simpl never.

Lemma create_travelers_runs (st : TravelGraphState) (w : world) :
  staffed →
  is_Some (tg_city st) → is_Some (tg_weather st) → is_Some (tg_days st) →
  is_Some (tg_max_travelers st) →
  ∃ ts w', create_travelers st w = (Ok (tg_upd_travelers ts), w').
Proof.
  intros Hllm [c Hc] [x Hw] [d Hd] [m Hm].
  unfold create_travelers, bind, lift, index_key, ret.
  rewrite Hc, Hw, Hd, Hm. simpl.
  match goal with
  | |- context [llm_perspectives ?ms w] =>
      destruct (Hllm ms w) as (ts & w' & ->)
  end.
  by eauto.
Qed.

Lemma write_plan_runs (st : TravelGraphState) (w : world) :
  reliable →
  is_Some (tg_days st) → is_Some (tg_sections st) → is_Some (tg_city st) →
  is_Some (tg_weather st) → is_Some (tg_human_feedback_plan st) →
  ∃ p w', write_plan st w = (Ok (tg_upd_final_plan p), w').
Proof.
  intros (Hllm & _) [d Hd] [ss Hs] [c Hc] [x Hw] [f Hf].
  unfold write_plan, bind, lift, index_key, ret.
  rewrite Hd, Hs, Hc, Hw, Hf. simpl.
  match goal with
  | |- context [llm_invoke ?ms w] => destruct (Hllm ms w) as (p & w' & ->)
  end.
  by eauto.
Qed.

(** The start of a run, up to the first suspension. *)
Lemma run_to_first_feedback (input : TravelGraphState) (fuel : nat)
    (w : world) :
  staffed → tg_ready input →
  ∃ st1 st2 w',
    run (S (S fuel)) builder false (start_checkpoint builder input) w
    = (([("get_weather_info", input); ("create_travelers", st1)],
        AwaitingFeedback (tg_ck st2 ["human_feedback_traveler_node"])), w') ∧
    same_inputs input st2.
Proof.
  intros Hllm (Hc & Hd & Hm & Hp).
  destruct (get_weather_info_total input w) as (weather & w1 & Hgw).
  set (st1 := tg_merge input (tg_upd_weather weather)).
  destruct (create_travelers_runs st1 w1 Hllm) as (ts & w2 & Hct);
    [done|by eexists|done|done|].
  set (st2 := tg_merge st1 (tg_upd_travelers ts)).
  exists st1, st2, w2. split; [|by repeat split; try done; eexists].
  change (start_checkpoint builder input)
    with (tg_ck input ["get_weather_info"]).
  rewrite run_S by done. rewrite step_get_weather_info, Hgw. fold st1.
  rewrite run_S by done. rewrite step_create_travelers, Hct. fold st2.
  by rewrite run_interrupted.
Qed.

Lemma step_regenerate (st : TravelGraphState) (w : world) :
  truthy (tg_human_feedback_traveler st) = true →
  superstep builder (tg_ck st ["human_feedback_traveler_node"]) w
  = (StepOk (tg_ck st ["create_travelers"]), w).
Proof.
  intros Hf. rewrite step_feedback_node. by rewrite router_goto.
Qed.

Lemma step_accept (st : TravelGraphState) (w : world) :
  truthy (tg_human_feedback_traveler st) = false →
  superstep builder (tg_ck st ["human_feedback_traveler_node"]) w
  = (StepOk {| state_snapshot := st;
               node_cursor := send_tasks (cds_sends (router_args st)) |}, w).
Proof.
  intros Hf. rewrite step_feedback_node. by rewrite router_fanout.
Qed.

(** A resume with a feedback that asks for other travelers. *)
Lemma run_regenerate (input st : TravelGraphState) (f : feedback)
    (fuel : nat) (w : world) :
  staffed → tg_ready input → same_inputs input st →
  truthy (Some f) = true →
  ∃ st' st'' w',
    run (S (S fuel)) builder true
      (update_state builder (tg_ck st ["human_feedback_traveler_node"])
         (tg_upd_human_feedback_traveler f)) w
    = (([("human_feedback_traveler_node", st'); ("create_travelers", st')],
        AwaitingFeedback (tg_ck st'' ["human_feedback_traveler_node"])), w') ∧
    same_inputs input st''.
Proof.
  intros Hllm (Hc & Hd & Hm & Hp) (Ec & Ed & Em & Ep & Es & Ef & Hw & Ht) Hf.
  set (st' := tg_merge st (tg_upd_human_feedback_traveler f)).
  change (update_state builder (tg_ck st ["human_feedback_traveler_node"])
            (tg_upd_human_feedback_traveler f))
    with (tg_ck st' ["human_feedback_traveler_node"]).
  assert (tg_human_feedback_traveler st' = Some f) as Hfb by done.
  destruct (create_travelers_runs st' w Hllm) as (ts & w2 & Hct).
  { change (tg_city st') with (tg_city st). by rewrite Ec. }
  { done. }
  { change (tg_days st') with (tg_days st). by rewrite Ed. }
  { change (tg_max_travelers st') with (tg_max_travelers st). by rewrite Em. }
  set (st'' := tg_merge st' (tg_upd_travelers ts)).
  exists st', st'', w2. split.
  - rewrite run_S by done. rewrite step_regenerate by (by rewrite Hfb).
    rewrite run_S by done. rewrite step_create_travelers, Hct. fold st''.
    by rewrite run_interrupted.
  - repeat split; first [done|by eexists].
Qed.

(** The dialogues of a fan-out. *)
Lemma exec_sends_run (st : TravelGraphState) (city : string) (m : Z)
    (ts : list Traveler) (w : world) :
  reliable → (8 ≤ recursion_limit)%nat →
  ∃ xs w',
    exec_tasks builder st
      (send_tasks (cds_sends
         ((λ t, {| arg_state := dialogue_seed city t;
                   arg_max_travelers := m |}) <$> ts))) w
    = ((λ x, ("conduct_dialogue_sub", Ok (tg_upd_sections [x]))) <$> xs, w') ∧
    length xs = length ts.
Proof.
  intros Hrel Hlimit. revert w.
  induction ts as [|t ts IH]; intros w.
  - by exists [], w.
  - destruct (conduct_dialogue_sub_runs city t m w Hrel Hlimit)
      as (x & w1 & Hsub).
    destruct (IH w1) as (xs & w2 & Hex & Hlen).
    exists (x :: xs), w2. split; [|simpl; by rewrite Hlen].
    rewrite fmap_cons. simpl.
    change (exec_task builder st
              {| t_node := "conduct_dialogue_sub";
                 t_input := FromSend {| arg_state := dialogue_seed city t;
                                        arg_max_travelers := m |} |} w)
      with (conduct_dialogue_sub
              {| arg_state := dialogue_seed city t;
                 arg_max_travelers := m |} w).
    by rewrite Hsub, Hex.
Qed.

Lemma collect_updates_sections (xs : list string) :
  collect_updates
    ((λ x, ("conduct_dialogue_sub", Ok (tg_upd_sections [x]))) <$> xs)
  = inr ((λ x, tg_upd_sections [x]) <$> xs).
Proof.
  induction xs as [|x xs IH]; [done|].
  rewrite !fmap_cons. cbn [collect_updates]. by rewrite IH.
Qed.

Lemma plan_outcome_app (input st : TravelGraphState)
    (pre evs : list (event TravelGraphState)) :
  count_node "conduct_dialogue_sub" pre = 0%nat →
  count_node "write_plan" pre = 0%nat →
  plan_outcome input st evs → plan_outcome input st (pre ++ evs).
Proof.
  unfold plan_outcome. cbv zeta. intros Hd Hp (Hn & Hzero & Hpos).
  rewrite !count_node_app, Hd, Hp. simpl.
  split; [exact Hn|]. split; [exact Hzero|exact Hpos].
Qed.

(** The dialogues of the travelers, then [write_plan]. *)
Lemma run_fanout (st : TravelGraphState) (city : string) (m : Z)
    (t : Traveler) (ts : list Traveler) (fuel : nat) (w : world) :
  reliable → (8 ≤ recursion_limit)%nat →
  is_Some (tg_days st) → is_Some (tg_city st) → is_Some (tg_weather st) →
  is_Some (tg_human_feedback_plan st) →
  ∃ secs st3 p w',
    run (S (S fuel)) builder false
      {| state_snapshot := st;
         node_cursor :=
           send_tasks (cds_sends
             ((λ t0, {| arg_state := dialogue_seed city t0;
                        arg_max_travelers := m |}) <$> (t :: ts))) |} w
    = ((replicate (S (length ts)) ("conduct_dialogue_sub", st)
        ++ [("write_plan", st3)],
        Completed (tg_merge st3 (tg_upd_final_plan p))), w') ∧
    length secs = S (length ts) ∧
    tg_sections st3 = Some (default [] (tg_sections st) ++ secs) ∧
    keeps_inputs st st3.
Proof.
  intros Hrel Hlimit Hd Hc Hw Hp.
  destruct (exec_sends_run st city m (t :: ts) w Hrel Hlimit)
    as (xs & w1 & Hex & Hlen).
  set (us := (λ x, tg_upd_sections [x]) <$> xs).
  destruct (fold_merge_sections us st) as (secs & Hls & Hsec & Hk).
  { subst us. apply Forall_fmap, Forall_true. intros x. by exists x. }
  assert (length us = S (length ts)) as Hlus.
  { subst us. by rewrite length_fmap, Hlen. }
  set (st3 := fold_left tg_merge us st) in *.
  assert (tg_sections st3 = Some (default [] (tg_sections st) ++ secs))
    as Hsec3.
  { rewrite Hsec. by destruct us. }
  pose proof Hk as (Kc & Kw & Kd & Km & Kf & Kp & Kt).
  destruct (write_plan_runs st3 w1 Hrel) as (p & w2 & Hwp).
  { by rewrite Kd. }
  { by rewrite Hsec3. }
  { by rewrite Kc. }
  { by rewrite Kw. }
  { by rewrite Kp. }
  exists secs, st3, p, w2. split; [|split; [congruence|by split]].
  rewrite run_S; [|done|apply sends_not_interrupted].
  rewrite step_events_sends, length_fmap.
  rewrite fmap_cons in Hex. rewrite fmap_cons.
  rewrite step_fanout, Hex, collect_updates_sections. fold us. fold st3.
  rewrite run_S by done. rewrite step_write_plan, Hwp.
  rewrite run_done by done. rewrite step_events_tg_ck. simpl.
  done.
Qed.

(** A resume with a feedback that accepts the travelers. *)
Lemma run_accept (input st : TravelGraphState) (f : feedback)
    (fuel : nat) (w : world) :
  reliable → (8 ≤ recursion_limit)%nat →
  tg_ready input → same_inputs input st →
  truthy (Some f) = false →
  ∃ evs stf w',
    run (S (S (S fuel))) builder true
      (update_state builder (tg_ck st ["human_feedback_traveler_node"])
         (tg_upd_human_feedback_traveler f)) w
    = ((evs, Completed stf), w') ∧
    count_node "get_weather_info" evs = 0%nat ∧
    count_node "create_travelers" evs = 0%nat ∧
    plan_outcome input stf evs.
Proof.
  intros Hrel Hlimit (Hc & Hd & Hm & Hp)
    (Ec & Ed & Em & Ep & Es & Ef & Hw & [ts Ht]) Hf.
  set (st' := tg_merge st (tg_upd_human_feedback_traveler f)).
  change (update_state builder (tg_ck st ["human_feedback_traveler_node"])
            (tg_upd_human_feedback_traveler f))
    with (tg_ck st' ["human_feedback_traveler_node"]).
  assert (tg_human_feedback_traveler st' = Some f) as Hfb by done.
  assert (tg_travelers st' = Some ts) as Ht' by done.
  assert (tg_sections st' = tg_sections input) as Es' by done.
  assert (tg_final_plan st' = tg_final_plan input) as Ef' by done.
  rewrite run_S by done. rewrite step_accept by (by rewrite Hfb).
  rewrite step_events_tg_ck.
  unfold router_args. rewrite Ht'.
  destruct ts as [|t ts].
  - (* no traveler *)
    rewrite run_done by done.
    exists [("human_feedback_traveler_node", st')], st', w.
    split; [done|]. split; [done|]. split; [done|].
    unfold plan_outcome. rewrite Ht'. simpl.
    split; [done|]. split; [|lia]. intros _. by repeat split.
  - (* one dialogue per traveler *)
    change (default [] (Some (t :: ts))) with (t :: ts).
    destruct (run_fanout st' (default EmptyString (tg_city st'))
                (default 3 (tg_max_travelers st')) t ts fuel w Hrel Hlimit)
      as (secs & st3 & p & w2 & Hrun & Hls & Hsec & Hk).
    { change (tg_days st') with (tg_days st). by rewrite Ed. }
    { change (tg_city st') with (tg_city st). by rewrite Ec. }
    { done. }
    { change (tg_human_feedback_plan st')
        with (tg_human_feedback_plan st). by rewrite Ep. }
    rewrite Hrun.
    set (stf := tg_merge st3 (tg_upd_final_plan p)).
    exists ([("human_feedback_traveler_node", st')]
            ++ replicate (S (length ts)) ("conduct_dialogue_sub", st')
            ++ [("write_plan", st3)]), stf, w2.
    split; [done|].
    destruct Hk as (Kc & Kw & Kd & Km & Kf & Kp & Kt).
    assert (tg_travelers stf = Some (t :: ts)) as Htf.
    { change (tg_travelers stf) with (tg_travelers st3). by rewrite Kt. }
    split; [|split].
    + rewrite !count_node_app, count_node_replicate. done.
    + rewrite !count_node_app, count_node_replicate. done.
    + unfold plan_outcome. rewrite Htf. simpl default. simpl length.
      rewrite !count_node_app, !count_node_replicate.
      unfold count_node. simpl.
      split; [lia|]. split; [lia|]. intros _.
      split; [done|]. split; [by eexists|].
      exists secs. split; [done|].
      change (tg_sections stf) with (tg_sections st3).
      by rewrite Hsec, Es'.
Qed.

(** The resumes of a run whose last feedback accepts the travelers. *)
Lemma drive_feedbacks (input : TravelGraphState) (fuel : nat) :
  reliable → staffed → (8 ≤ recursion_limit)%nat → tg_ready input →
  ∀ fs f0 st w,
    same_inputs input st → ends_accepting (f0 :: fs) →
    ∃ evs stf w',
      drive (S (S (S fuel))) builder true
        (update_state builder (tg_ck st ["human_feedback_traveler_node"])
           (tg_upd_human_feedback_traveler f0))
        (tg_upd_human_feedback_traveler <$> fs) w
      = ((evs, Completed stf), w') ∧
      count_node "get_weather_info" evs = 0%nat ∧
      count_node "create_travelers" evs = length fs ∧
      plan_outcome input stf evs.
Proof.
  intros Hrel Hllm Hlimit Hready.
  induction fs as [|f1 fs IH]; intros f0 st w Hst Hfs.
  - destruct (run_accept input st f0 fuel w Hrel Hlimit Hready Hst Hfs)
      as (evs & stf & w' & Hrun & Hgw & Hct & Hplan).
    exists evs, stf, w'. split; [|done].
    by apply drive_not_suspended.
  - destruct Hfs as [Hf0 Hfs].
    destruct (run_regenerate input st f0 (S fuel) w Hllm Hready Hst Hf0)
      as (st' & st'' & w1 & Hrun & Hst'').
    destruct (IH f1 st'' w1 Hst'' Hfs)
      as (evs & stf & w' & Hdrive & Hgw & Hct & Hplan).
    rewrite fmap_cons. rewrite (drive_suspended _ _ _ _ _ _ _ _ _ _ Hrun).
    rewrite Hdrive. eexists _, stf, w'. split; [reflexivity|].
    split; [|split].
    + rewrite count_node_app, Hgw. done.
    + rewrite count_node_app, Hct. done.
    + by apply plan_outcome_app.
Qed.

(** X10. When the collaborators answer every call and the input holds
    [city], [days], [max_travelers] and [human_feedback_plan], a run that
    is resumed with feedbacks of which every one but the last asks for
    other travelers, and the last accepts them, completes:
    [create_travelers] runs once per feedback, one dialogue runs per
    traveler of the last generation, and then [write_plan] runs once and
    the state holds a plan and one more section per traveler -- unless
    the model returned no traveler, in which case the run ends without a
    plan and without an error. *)
Theorem run_produces_plan (input : TravelGraphState) (fs : list feedback)
    (fuel : nat) (w : world) :
  reliable → staffed → (8 ≤ recursion_limit)%nat → (3 ≤ fuel)%nat →
  tg_ready input → ends_accepting fs →
  ∃ evs st w',
    start_run fuel input fs w = ((evs, Completed st), w') ∧
    count_node "get_weather_info" evs = 1%nat ∧
    count_node "create_travelers" evs = length fs ∧
    plan_outcome input st evs.
Proof.
  intros Hrel Hllm Hlimit Hfuel Hready Hfs.
  destruct fuel as [|[|[|fuel]]]; [lia..|].
  destruct fs as [|f0 fs]; [done|].
  destruct (run_to_first_feedback input (S fuel) w Hllm Hready)
    as (st1 & st2 & w1 & Hrun & Hst2).
  destruct (drive_feedbacks input fuel Hrel Hllm Hlimit Hready
              fs f0 st2 w1 Hst2 Hfs)
    as (evs & st & w' & Hdrive & Hgw & Hct & Hplan).
  unfold start_run. rewrite fmap_cons.
  rewrite (drive_suspended _ _ _ _ _ _ _ _ _ _ Hrun), Hdrive.
  eexists _, st, w'. split; [reflexivity|]. split; [|split].
  - rewrite count_node_app, Hgw. done.
  - rewrite count_node_app, Hct. done.
  - by apply plan_outcome_app.
Qed.

End HappyPath.

Lemma reference_staffed : @staffed _ _ Reference.online.
Proof. intros ms w. by eexists _, _. Qed.

Lemma run_produces_plan_witness :
  ∃ evs st w',
    @start_run _ _ Reference.online 10 Reference.kyoto_reviewed [None] 0%nat
    = ((evs, Completed st), w') ∧
    count_node "create_travelers" evs = 1%nat ∧
    plan_outcome Reference.kyoto_reviewed st evs.
Proof.
  destruct (@run_produces_plan _ _ Reference.online Reference.kyoto_reviewed
              [None] 10%nat 0%nat)
    as (evs & st & w' & Hrun & _ & Hct & Hplan).
  - apply reference_reliable.
  - apply reference_staffed.
  - simpl. lia.
  - lia.
  - unfold tg_ready, Reference.kyoto_reviewed. simpl. eauto 10.
  - reflexivity.
  - exists evs, st, w'. split; [exact Hrun|]. split; [exact Hct|exact Hplan].
Defined.

(** ** The errors of [route_messages] *)

Lemma index_from_end_2_short {A} (l : list A) :
  (length l < 2)%nat →
  index_from_end_2 l = Raise (IndexError "list index out of range").
Proof.
  intros Hl. unfold index_from_end_2.
  pose proof (length_rev l) as Hr.
  destruct (rev l) as [|a [|b r]]; simpl in Hr; [done|done|lia].
Qed.

Lemma index_from_end_2_long {A} (l : list A) :
  (2 ≤ length l)%nat → ∃ x, index_from_end_2 l = Ok x.
Proof.
  intros Hl. unfold index_from_end_2.
  pose proof (length_rev l) as Hr.
  destruct (rev l) as [|a [|b r]] eqn:Hrev; simpl in Hr; [lia|lia|].
  by exists b.
Qed.

(** X11. [route_messages] reads [messages[-2]] only when the number of
    answers named local is below [max_num_turns]: it raises [KeyError]
    exactly when [messages] is absent, [IndexError] exactly when the
    bound is not reached and there are fewer than two messages, and raises
    nothing else; otherwise it returns [save_dialogue] or [ask_question].
    With a bound of zero or less it returns [save_dialogue] on every
    list of messages. *)
Theorem route_messages_errors (st : dialogueState) :
  (route_messages st = Raise (KeyError "messages") ↔
   dl_messages st = None) ∧
  (route_messages st = Raise (IndexError "list index out of range") ↔
   ∃ ms, dl_messages st = Some ms ∧ (length ms < 2)%nat ∧
         Z.of_nat (turn_count st) < default 2 (dl_max_num_turns st)) ∧
  (∀ e, route_messages st = Raise e →
     e = KeyError "messages" ∨ e = IndexError "list index out of range") ∧
  (∀ n, route_messages st = Ok n →
     n = "save_dialogue" ∨ n = "ask_question") ∧
  (is_Some (dl_messages st) → default 2 (dl_max_num_turns st) ≤ 0 →
   route_messages st = Ok "save_dialogue").
Proof.
  unfold route_messages, route_messages_named, turn_count.
  destruct (dl_messages st) as [ms|] eqn:Hms; simpl.
  - destruct (Z.leb_spec (default 2 (dl_max_num_turns st))
                (Z.of_nat (length (List.filter (is_response "local") ms))))
      as [Hge|Hlt].
    + split; [done|]. split.
      { split; [done|]. intros (ms' & [= <-] & _ & Hlt). lia. }
      split; [done|]. split; [intros n [= <-]; by left|]. done.
    + destruct (le_lt_dec 2 (length ms)) as [Hlen|Hlen].
      * destruct (index_from_end_2_long ms Hlen) as (x & ->). simpl.
        split; [by destruct (str_contains _ _)|]. split.
        { split; [by destruct (str_contains _ _)|].
          intros (ms' & [= <-] & Hshort & _). lia. }
        split; [by destruct (str_contains _ _)|].
        split; [destruct (str_contains _ _); intros n [= <-]; auto|].
        intros _ Hmax. lia.
      * rewrite (index_from_end_2_short ms Hlen). simpl.
        split; [done|]. split.
        { split; [|done]. intros _. by exists ms. }
        split; [intros e [= <-]; by right|]. split; [done|].
        intros _ Hmax. lia.
  - split; [done|]. split.
    { split; [done|]. by intros (ms' & ? & _). }
    split; [intros e [= <-]; by left|]. split; [done|].
    by intros [? ?].
Qed.

(** ** What every run does *)

Section EveryRun.
Context `{Env}.

Lemma drive_nil {St Arg} (g : StateGraph St Arg) (resumed : bool)
    (ck : Checkpoint St Arg) (fuel : nat) (w : world) :
  drive fuel g resumed ck [] w = run fuel g resumed ck w.
Proof.
  simpl. destruct (run fuel g resumed ck w) as [[evs o] w']. by destruct o.
Qed.

Lemma main_phase_nodes (input : TravelGraphState) h ck :
  main_phase input h ck →
  Forall (λ e, fst e ∈ ["get_weather_info"; "create_travelers";
                        "human_feedback_traveler_node";
                        "conduct_dialogue_sub"; "write_plan"])
    (step_events ck).
Proof.
  intros Hph.
  inversion Hph as [st Hun Hearly|st Hun Hearly|st Hun Hcr Hearly
                   |st a args Hun Hcr Hearly Hargs
                   |st st_f h' secs Hh Hearly Hun Hk Hcr Hlen Hpos Hsec
                   |st Hdone]; subst ck;
    rewrite ?step_events_tg_ck, ?step_events_sends.
  1-3, 5: constructor; [simpl; in_list|constructor].
  - apply Forall_forall. intros e He.
    apply elem_of_replicate in He as [-> _]. simpl. in_list.
  - constructor.
Qed.

(** X12. Whatever the input, the feedbacks and the collaborators do, a run
    executes only [get_weather_info], [create_travelers],
    [human_feedback_traveler_node], [conduct_dialogue_sub] and
    [write_plan]: the node registered as [conduct_dialogue_router] is
    never executed as a node, and no step runs [feedback_plan] or
    [initiate_all_plans]. *)
Theorem run_executes_declared_nodes (fuel : nat) (input : TravelGraphState)
    (feedbacks : list feedback) (w : world) :
  let evs := fst (fst (start_run fuel input feedbacks w)) in
  Forall (λ e, fst e ∈ ["get_weather_info"; "create_travelers";
                        "human_feedback_traveler_node";
                        "conduct_dialogue_sub"; "write_plan"]) evs.
Proof.
  intros evs.
  destruct (start_run fuel input feedbacks w) as [[evs0 o] w'] eqn:Hrun.
  simpl in evs. subst evs.
  destruct (start_run_history _ _ _ _ _ _ _ Hrun) as [Htrace _].
  apply Forall_forall. intros ev Hin.
  apply list_elem_of_split in Hin as (e1 & e2 & ->).
  destruct (Htrace e1 ev e2 eq_refl) as (h & ck & a & b & Hph & Hev & _).
  pose proof (main_phase_nodes _ _ _ Hph) as Hall.
  rewrite Hev in Hall. apply Forall_app in Hall as [_ Hall].
  by inversion Hall.
Qed.

(** X13. A run that is given no feedback never completes and never starts
    a dialogue: [get_weather_info] cannot fail, so the run either
    suspends before [human_feedback_traveler_node] after exactly
    [get_weather_info] and [create_travelers], holding a weather and
    travelers, or it has failed in [create_travelers]. *)
Theorem run_first_suspension (fuel : nat) (input : TravelGraphState)
    (w : world) :
  ∃ st1 w',
    is_Some (tg_weather st1) ∧
    ((∃ st2,
        start_run (S (S fuel)) input [] w
        = (([("get_weather_info", input); ("create_travelers", st1)],
            AwaitingFeedback (tg_ck st2 ["human_feedback_traveler_node"])),
           w') ∧
        is_Some (tg_weather st2) ∧ is_Some (tg_travelers st2)) ∨
     (∃ e,
        start_run (S (S fuel)) input [] w
        = (([("get_weather_info", input); ("create_travelers", st1)],
            Failed "create_travelers" e (tg_ck st1 ["create_travelers"])),
           w'))).
Proof.
  destruct (get_weather_info_total input w) as (weather & w1 & Hgw).
  set (st1 := tg_merge input (tg_upd_weather weather)).
  unfold start_run. rewrite fmap_nil, drive_nil.
  change (start_checkpoint builder input)
    with (tg_ck input ["get_weather_info"]).
  rewrite run_S by done. rewrite step_get_weather_info, Hgw. fold st1.
  rewrite run_S by done. rewrite step_create_travelers.
  destruct (create_travelers st1 w1) as [[u|e] w2] eqn:Hct.
  - apply create_travelers_ok in Hct as [_ [ts ->]].
    exists st1, w2. split; [by eexists|]. left.
    exists (tg_merge st1 (tg_upd_travelers ts)).
    rewrite run_interrupted by done. split; [done|]. split; by eexists.
  - exists st1, w2. split; [by eexists|]. right. by exists e.
Qed.

End EveryRun.

(** ** The interview loop ends (C3) *)

Section InterviewLoop.
Context `{Env}.

#[local] Arguments dl_merge : simpl never.

(** A step of a dialogue fails only when the function of one of its nodes
    raises: the router never does. *)
Lemma dialogue_step_fails st0 seed m h ck w n e w' :
  no_response seed →
  dialogue_inv st0 seed m h ck →
  superstep dialogue_builder ck w = (StepFailed n e, w') →
  node_raised n e (state_snapshot ck).
Proof.
  intros Hseed (Hmax & _ & _ & Hle & Hph) Hfail.
  inversion Hph as [st rounds Hms Hask Hsave Hlt Hsec
                   |st rounds q Hms Hask Hsave Hlt Hsec
                   |st rounds q Hms Hask Hsave Hlt Hsec
                   |st rounds Hms Hask Hsave Hlt Hconc Hsec
                   |st rounds Hms Hask Hsave Hlt Hconc Hsec
                   |st rounds x Hms Hask Hsave Hlt Hconc Hsec]; subst ck;
    simpl state_snapshot; unfold node_raised, dialogue_nodes.
  - rewrite step_ask_question in Hfail.
    destruct (generate_question st w) as [[u|e'] w1] eqn:Hq; [done|].
    injection Hfail as <- <- <-.
    exists generate_question, w, w1. split; [in_list|done].
  - rewrite step_search in Hfail.
    destruct (search_web st w) as [[u1|e1] w1] eqn:Hsw;
      destruct (search_wikipedia st w1) as [[u2|e2] w2] eqn:Hwk;
      try done; injection Hfail as <- <- <-.
    + exists search_wikipedia, w1, w2. split; [in_list|done].
    + exists search_web, w, w1. split; [in_list|done].
    + exists search_web, w, w1. split; [in_list|done].
  - rewrite step_answer_question in Hfail.
    destruct (generate_answer st w) as [[u|e'] w1] eqn:Ha.
    + exfalso. apply generate_answer_ok in Ha as [a ->].
      pose proof (dl_merge_messages st _ [local_answer a] Hms) as Hms'.
      rewrite <- app_assoc in Hms'.
      change ([mkAI q] ++ [local_answer a])
        with [mkAI q; local_answer a] in Hms'.
      rewrite <- conversation_snoc in Hms'.
      rewrite (route_messages_rounds _ _ _ _ _ Hms' Hseed) in Hfail.
      by destruct (_ || _).
    + injection Hfail as <- <- <-.
      exists generate_answer, w, w1. split; [in_list|done].
  - rewrite step_save_dialogue in Hfail.
    destruct (save_dialogue st w) as [[u|e'] w1] eqn:Hq; [done|].
    injection Hfail as <- <- <-.
    exists save_dialogue, w, w1. split; [in_list|done].
  - rewrite step_write_section in Hfail.
    destruct (write_section st w) as [[u|e'] w1] eqn:Hq; [done|].
    injection Hfail as <- <- <-.
    exists write_section, w, w1. split; [in_list|done].
  - done.
Qed.

(** What the router returns while no question holds the closing phrase. *)
Lemma route_messages_phrase_free (st st0 : dialogueState)
    (seed : list Message) (rounds : list (string * string)) :
  no_response seed →
  1 ≤ default 2 (dl_max_num_turns st0) →
  dl_messages st = Some (conversation seed rounds) →
  dl_max_num_turns st = dl_max_num_turns st0 →
  (1 ≤ length rounds)%nat →
  Forall (λ qa, str_contains closing_phrase (fst qa) = false) rounds →
  route_messages st
  = Ok (if (length rounds <? Z.to_nat (default 2%Z (dl_max_num_turns st0)))%nat
        then "ask_question" else "save_dialogue").
Proof.
  intros Hseed Hmax1 Hms Hmax Hlen Hfree.
  destruct (exists_last (l := rounds)) as (rs & [q a] & ->).
  { intros ->. simpl in Hlen. lia. }
  rewrite (route_messages_rounds _ _ _ _ _ Hms Hseed), Hmax.
  apply Forall_app in Hfree as [_ Hq].
  inversion Hq as [|? ? Hq' _]; subst. simpl in Hq'. rewrite Hq'.
  rewrite orb_false_r, length_app. simpl.
  destruct (Z.leb_spec (default 2 (dl_max_num_turns st0))
              (Z.of_nat (length rs + 1)));
    destruct (Nat.ltb_spec (length rs + 1)
                (Z.to_nat (default 2 (dl_max_num_turns st0))));
    try done; lia.
Qed.

(** C3 (amended). For a conversation that starts without answers of the
    local and a turn bound of at least one: while no question holds the
    closing phrase, [route_messages] returns [ask_question] as long as
    fewer answers than the bound were given and [save_dialogue] once
    exactly as many were given, and the turn count is the number of
    rounds.  The dialogue ends within [3 * max + 2] steps, by completion
    or by a raised exception; along the run the turn count never
    decreases and never exceeds the bound, and [ask_question] runs at most
    [max] times.  A failure is the exception of the function of a node,
    never of the router, and with collaborators that answer and the keys
    of the state present the run completes.  When the run completes, the
    router has returned [save_dialogue] once, after as many questions as
    the conversation has rounds; if no question holds the closing phrase,
    that is after exactly [max] questions. *)
Theorem interview_loop_terminates (st0 : dialogueState) (seed : list Message)
    (fuel : nat) (w : world) :
  dl_messages st0 = Some seed →
  no_response seed →
  1 ≤ default 2 (dl_max_num_turns st0) →
  let max_turns := Z.to_nat (default 2 (dl_max_num_turns st0)) in
  (3 * max_turns + 2 ≤ fuel)%nat →
  (∀ st rounds,
     dl_messages st = Some (conversation seed rounds) →
     dl_max_num_turns st = dl_max_num_turns st0 →
     (1 ≤ length rounds)%nat →
     Forall (λ qa, str_contains closing_phrase (fst qa) = false) rounds →
     turn_count st = length rounds ∧
     route_messages st
     = Ok (if (length rounds <? max_turns)%nat
           then "ask_question" else "save_dialogue")) ∧
  ∃ evs o w',
    run fuel dialogue_builder false (start_checkpoint dialogue_builder st0) w
    = ((evs, o), w') ∧
    ((∃ st, o = Completed st) ∨ (∃ n e ck, o = Failed n e ck)) ∧
    StronglySorted turns_le evs ∧
    Forall (λ e, (turn_count (snd e) ≤ max_turns)%nat) evs ∧
    (count_node "ask_question" evs ≤ max_turns)%nat ∧
    (∀ n e ck, o = Failed n e ck → node_raised n e (state_snapshot ck)) ∧
    (reliable → dl_complete st0 → ∃ st, o = Completed st) ∧
    ∀ st, o = Completed st →
      ∃ rounds,
        dl_messages st = Some (conversation seed rounds) ∧
        count_node "ask_question" evs = length rounds ∧
        count_node "save_dialogue" evs = 1%nat ∧
        route_messages st = Ok "save_dialogue" ∧
        (Forall (λ qa, str_contains closing_phrase (fst qa) = false) rounds →
         length rounds = max_turns).
Proof.
  intros Hms Hseed Hmax1 m Hfuel. split.
  { intros st rounds Hst Hmax Hlen Hfree. split.
    - by apply (turn_count_conversation _ seed).
    - by apply (route_messages_phrase_free st st0 seed). }
  set (ck0 := start_checkpoint dialogue_builder st0).
  destruct (run fuel dialogue_builder false ck0 w) as [[evs o] w'] eqn:Hrun.
  exists evs, o, w'. split; [done|].
  assert (dialogue_inv st0 seed m [] ck0) as Hinit.
  { apply dialogue_inv_start; [done|done|]. subst m. lia. }
  pose proof (dialogue_step st0 seed m Hseed Hmax1 eq_refl) as Hstep.
  destruct (run_history dialogue_builder (dialogue_inv st0 seed m)
              (λ h ck w ck' w' HI Hc Hs, proj1 (Hstep h ck w ck' w' HI Hc Hs))
              fuel false [] ck0 w evs o w' Hinit Hrun) as [_ Ho].
  simpl in Ho.
  assert (reliable → dl_complete st0 → ∃ st, o = Completed st) as Hrel.
  { intros Hr Hc.
    destruct (dialogue_runs st0 seed fuel w Hr Hc Hms Hseed Hmax1 Hfuel)
      as (evs1 & st1 & w1 & rounds & x & Hrun1 & _).
    fold ck0 in Hrun1. rewrite Hrun in Hrun1. injection Hrun1 as _ -> _.
    by exists st1. }
  destruct o as [st|ck|n e ck|ck].
  - (* completed *)
    destruct Ho as (ck & Hinv & Hcur & <-).
    pose proof Hinv as (Hmax & Hs & Hall & Hle & Hph).
    split; [left; by eexists|].
    inversion Hph as [| | | | |st rounds x Hmsg Hask Hsave Hlen Hconc Hsec];
      subst ck; try done.
    simpl in *.
    split; [done|]. split.
    { eapply Forall_impl; [done|]. simpl. intros; lia. }
    split; [lia|]. split; [done|]. split; [done|].
    intros st' [= <-]. exists rounds.
    split; [done|]. split; [done|]. split; [done|]. split.
    + eapply concluded_route; [done|done|done|done|done|lia|done].
    + intros Hno. destruct Hconc as [Hc|(rs & q & a & -> & Hq)]; [done|].
      apply Forall_app in Hno as [_ Hno].
      inversion Hno as [|? ? Hq' _]; subst. simpl in Hq'. congruence.
  - (* suspended: the graph has no interrupt *)
    destruct Ho as [_ Hint]. by rewrite dialogue_not_interrupted in Hint.
  - (* failed *)
    destruct Ho as (h' & w1 & w2 & Hinv & -> & Hfail).
    split; [right; by do 3 eexists|].
    destruct (dialogue_inv_events _ _ _ _ _ Hinv) as (? & ? & ?).
    split; [done|]. split; [done|]. split; [done|]. split.
    { intros n' e' ck' [= <- <- <-].
      by eapply dialogue_step_fails. }
    split; [done|]. intros; done.
  - (* out of steps *)
    exfalso.
    pose proof (run_terminates dialogue_builder (dialogue_inv st0 seed m)
                  (dialogue_measure m) Hstep) as Hterm.
    eapply (Hterm _ fuel false [] ck0 w ck); [done| |by rewrite Hrun].
    unfold dialogue_measure. simpl. lia.
    Unshelve.
    intros h ck1 (_ & _ & _ & Hle & Hph) Hcur.
    inversion Hph as [st rounds Hmsg|st rounds q Hmsg|st rounds q Hmsg
                     |st rounds Hmsg|st rounds Hmsg|st rounds x Hmsg];
      subst ck1; unfold dialogue_measure; simpl; try lia; try done.
    rewrite (turn_count_question _ _ _ _ Hmsg Hseed). lia.
Qed.

End InterviewLoop.

(** C3 (amended) on the dialogue that the router starts for a traveler: the
    bound is two, the run needs no more than eight steps, the router
    returns [ask_question] after one round and [save_dialogue] after two,
    and the run completes after two questions. *)
Lemma interview_loop_terminates_witness :
  (∀ st q a,
     dl_messages st
     = Some (conversation
               [mkHuman "So you said you plan to have a trip on Kyoto?"]
               [(q, a)]) →
     dl_max_num_turns st = Some 2 →
     str_contains closing_phrase q = false →
     route_messages st = Ok "ask_question") ∧
  ∃ evs st w',
    run 8 (@dialogue_builder _ _ Reference.online) false
      (start_checkpoint (@dialogue_builder _ _ Reference.online)
         (dialogue_seed "Kyoto" Reference.alice)) 0%nat
    = ((evs, Completed st), w') ∧
    (count_node "ask_question" evs ≤ 2)%nat.
Proof.
  destruct (@interview_loop_terminates _ _ Reference.online
              (dialogue_seed "Kyoto" Reference.alice)
              [mkHuman "So you said you plan to have a trip on Kyoto?"]
              8%nat 0%nat)
    as [Hroute (evs & o & w' & Hrun & _ & _ & _ & Hcount & _ & Hdone & _)].
  - reflexivity.
  - repeat constructor.
  - simpl. lia.
  - simpl. lia.
  - split.
    + intros st q a Hms Hmax Hq.
      destruct (Hroute st [(q, a)] Hms Hmax) as [_ Hr].
      * simpl. lia.
      * by repeat constructor.
      * exact Hr.
    + destruct Hdone as [st ->].
      * apply reference_reliable.
      * unfold dl_complete, dialogue_seed. simpl. eauto 10.
      * exists evs, st, w'. split; [exact Hrun|exact Hcount].
Defined.

(** C3, as stated, fails outside these conversations, although no
    question holds the closing phrase.  With the turn bound zero the
    router returns [save_dialogue] after one question, not after none, and
    the turn count, one, exceeds the bound.  With three answers of the
    local in the first messages and the bound two, the turn count exceeds
    the bound from the start, and the router returns [save_dialogue]
    after one question, not after two. *)
Lemma interview_loop_counterexample :
  (∃ evs st w',
     run 8 (@dialogue_builder _ _ Reference.online) false
       (start_checkpoint (@dialogue_builder _ _ Reference.online)
          Interviews.zero_turns) 0%nat
     = ((evs, Completed st), w') ∧
     default 2 (dl_max_num_turns st) = 0 ∧
     phrase_free (default [] (dl_messages st)) = true ∧
     count_node "ask_question" evs = 1%nat ∧
     turn_count st = 1%nat ∧
     route_messages st = Ok "save_dialogue") ∧
  (∃ evs st w',
     run 8 (@dialogue_builder _ _ Reference.online) false
       (start_checkpoint (@dialogue_builder _ _ Reference.online)
          Interviews.answered) 0%nat
     = ((evs, Completed st), w') ∧
     default 2 (dl_max_num_turns st) = 2 ∧
     phrase_free (default [] (dl_messages st)) = true ∧
     turn_count Interviews.answered = 3%nat ∧
     count_node "ask_question" evs = 1%nat ∧
     turn_count st = 4%nat ∧
     route_messages st = Ok "save_dialogue").
Proof.
  split.
  - assert (run 8 (@dialogue_builder _ _ Reference.online) false
              (start_checkpoint (@dialogue_builder _ _ Reference.online)
                 Interviews.zero_turns) 0%nat
            = Interviews.zero_turns_run) as Hrun
      by (vm_compute; reflexivity).
    unfold Interviews.zero_turns_run in Hrun.
    eexists _, _, _. split; [exact Hrun|].
    split; [reflexivity|]. split; [reflexivity|]. split; [reflexivity|].
    split; reflexivity.
  - assert (run 8 (@dialogue_builder _ _ Reference.online) false
              (start_checkpoint (@dialogue_builder _ _ Reference.online)
                 Interviews.answered) 0%nat
            = Interviews.answered_run) as Hrun
      by (vm_compute; reflexivity).
    unfold Interviews.answered_run in Hrun.
    eexists _, _, _. split; [exact Hrun|].
    split; [reflexivity|]. split; [reflexivity|]. split; [reflexivity|].
    split; [reflexivity|]. split; reflexivity.
Qed.
